(** * AURA multi-agent gateway: orchestration core and session broadcast layer

    A shallow embedding of
      - [services/aura/models.py]       (data model),
      - [services/aura/base_agent.py]   (agent memory, vector, traces),
      - [services/aura/agents/synthesizer_agent.py],
      - [services/aura/orchestrator.py] (workflow routing, iteration loop,
                                         lattice view),
      - [api/aura_websocket.py]         (connection manager, inbound dispatch),
    followed by the properties proved about them.

    Conventions.
      - Python [float]s are modelled as exact rationals ([Q]); every finite
        float is a rational, and the literals of the source ([0.9], [0.05],
        ...) are read as the decimals they spell.
      - Python [str] is modelled as [string]; [str.lower] acts on the ASCII
        letters.
      - Wall-clock time stamps ([datetime.utcnow()]) and the metric
        dictionaries attached to traces are not modelled.
      - Calls that may raise return an [Outcome]; [try]/[except Exception]
        is a match on it.
      - The external completion service, the transport of a websocket and the
        quantum service are ports: their answers are supplied by oracles. *)

From Stdlib Require Import QArith Qminmax Lqa Lia ZArith Ascii String.
From stdpp Require Import gmap strings list pretty.

#[local] Open Scope Q_scope.

(** ** Exceptions *)

Inductive Outcome (A : Type) : Type :=
| Returned (a : A)
| Raised (e : string).
Arguments Returned {A} a.
Arguments Raised {A} e.

Definition returns {A} (o : Outcome A) : bool :=
  match o with Returned _ => true | Raised _ => false end.

(** Sequencing: an exception raised by the first computation skips the
    rest. *)
Definition bind {A B} (o : Outcome A) (k : A -> Outcome B) : Outcome B :=
  match o with
  | Returned a => k a
  | Raised e => Raised e
  end.

(** [try: body / except Exception as e: handler(e)]. *)
Definition try_except {A} (body : Outcome A) (handler : string -> Outcome A)
  : Outcome A :=
  match body with
  | Returned a => Returned a
  | Raised e => handler e
  end.

(** [for x in xs: body(x)] over a state; an exception that escapes one
    round ends the loop. *)
Fixpoint for_each {X S} (body : X -> S -> Outcome S) (xs : list X) (s : S)
  : Outcome S :=
  match xs with
  | [] => Returned s
  | x :: xs' => bind (body x s) (for_each body xs')
  end.

(** ** Python builtins used by the source *)

Module Py.

(** [a < b] on floats. *)
Definition ltb (a b : Q) : bool := negb (Qle_bool b a).

(** [a >= b] on floats. *)
Definition geb (a b : Q) : bool := Qle_bool b a.

(** Two-argument [min(a, b)]: the first argument unless the second is
    strictly smaller. *)
Definition min (a b : Q) : Q := if ltb b a then b else a.

(** Two-argument [max(a, b)]: the first argument unless the second is
    strictly larger. *)
Definition max (a b : Q) : Q := if ltb a b then b else a.

(** [sum(xs)]: left to right, starting from [0]. *)
Definition sum (xs : list Q) : Q := fold_left Qplus xs 0.

(** [l[-n:]] for [n > 0]: the last [n] elements, all of [l] when it is
    shorter. *)
Definition last_n {A} (n : nat) (l : list A) : list A :=
  drop (length l - n) l.

(** [l[-1]], which raises [IndexError] on the empty list. *)
Definition last_item {A} (l : list A) : option A := last l.

(** [s[:n]] on strings. *)
Definition str_take (n : nat) (s : string) : string :=
  String.substring 0 n s.

Definition lower_ascii (c : ascii) : ascii :=
  let n := Ascii.nat_of_ascii c in
  if (Nat.leb 65 n && Nat.leb n 90)%bool
  then Ascii.ascii_of_nat (n + 32) else c.

(** [s.lower()]. *)
Fixpoint lower (s : string) : string :=
  match s with
  | EmptyString => EmptyString
  | String c s' => String (lower_ascii c) (lower s')
  end.

Fixpoint startswith (kw s : string) : bool :=
  match kw, s with
  | EmptyString, _ => true
  | String _ _, EmptyString => false
  | String a kw', String b s' =>
      if Ascii.eqb a b then startswith kw' s' else false
  end.

(** [kw in s] on strings: substring test. *)
Fixpoint contains (kw s : string) : bool :=
  (startswith kw s ||
   match s with
   | EmptyString => false
   | String _ s' => contains kw s'
   end)%bool.

(** [any(kw in s for kw in kws)]. *)
Definition any_in (kws : list string) (s : string) : bool :=
  existsb (fun kw => contains kw s) kws.

(** [range(n)]. *)
Definition range (n : Z) : list Z :=
  map Z.of_nat (seq 0 (Z.to_nat n)).

End Py.

(** ** [models.py] *)

Inductive AgentType : Type :=
| ARCHITECT | ENGINEER | REVIEWER | DEBUGGER | RESEARCH | SYNTHESIZER.

#[global] Instance AgentType_eq_dec : EqDecision AgentType.
Proof. solve_decision. Defined.

(** [AgentType.value] *)
Definition AgentType_value (t : AgentType) : string :=
  match t with
  | ARCHITECT => "architect"
  | ENGINEER => "engineer"
  | REVIEWER => "reviewer"
  | DEBUGGER => "debugger"
  | RESEARCH => "research"
  | SYNTHESIZER => "synthesizer"
  end.

(** [list(AgentType)], which is also the insertion order of
    [AuraOrchestrator.agents]. *)
Definition all_agent_types : list AgentType :=
  [ARCHITECT; ENGINEER; REVIEWER; DEBUGGER; RESEARCH; SYNTHESIZER].

Inductive AgentStatus : Type :=
| IDLE | ACTIVE | WORKING | COMPLETED | ERROR.

#[global] Instance AgentStatus_eq_dec : EqDecision AgentStatus.
Proof. solve_decision. Defined.

Inductive MessageRole : Type :=
| USER | ASSISTANT | SYSTEM | AGENT.

#[global] Instance MessageRole_eq_dec : EqDecision MessageRole.
Proof. solve_decision. Defined.

Record AgentVector : Type := mkAgentVector {
  role : AgentType;
  weight : Q;
  gamma_resistance : Q;
  w2_optimization : Q
}.

(** The values of [long_term] are arbitrary Python objects; they are kept
    as opaque serialised payloads. *)
Definition Any : Type := string.

Record AgentMemory : Type := mkAgentMemory {
  short_term : list string;
  long_term : gmap string Any;
  working_context : option string
}.

Record AgentTrace : Type := mkAgentTrace {
  trace_agent_id : string;
  trace_agent_type : AgentType;
  action : string;
  error : option string
}.

Record Message : Type := mkMessage {
  msg_role : MessageRole;
  content : string;
  msg_agent_id : option string;
  msg_agent_type : option AgentType
}.

Record AgentResponse : Type := mkAgentResponse {
  agent_id : string;
  agent_type : AgentType;
  response : string;
  confidence : Q;
  trace : option AgentTrace
}.

(** The range validation [Field(ge=0.0, le=1.0)] of pydantic. *)
Definition field_in_unit (q : Q) : bool :=
  (Qle_bool 0 q && Qle_bool q 1)%bool.

(** Constructing an [AgentResponse] validates [confidence]. *)
Definition new_AgentResponse (id : string) (ty : AgentType) (text : string)
    (conf : Q) (tr : option AgentTrace) : Outcome AgentResponse :=
  if field_in_unit conf
  then Returned (mkAgentResponse id ty text conf tr)
  else Raised "ValidationError".

Record AuraRequest : Type := mkAuraRequest {
  prompt : string;
  agents_enabled : list AgentType;
  max_iterations : Z;
  include_traces : bool;
  quantum_enhanced : bool
}.

(** The validation of [AuraRequest.max_iterations]:
    [Field(5, ge=1, le=20)]. *)
Definition valid_request (r : AuraRequest) : Prop :=
  (1 <= max_iterations r <= 20)%Z.

(** ** [base_agent.py] *)

Module BaseAgent.

Record t : Type := mk {
  self_id : string;
  self_type : AgentType;
  status : AgentStatus;
  vector : AgentVector;
  memory : AgentMemory;
  traces : list AgentTrace
}.

(** [BaseAgent.__init__] *)
Definition init (id : string) (ty : AgentType) : t :=
  {| self_id := id;
     self_type := ty;
     status := IDLE;
     vector := {| role := ty; weight := 1.0; gamma_resistance := 0.8;
                  w2_optimization := 0.0 |};
     memory := {| short_term := []; long_term := ∅;
                  working_context := None |};
     traces := [] |}.

Definition set_status (s : AgentStatus) (a : t) : t :=
  {| self_id := self_id a; self_type := self_type a; status := s;
     vector := vector a; memory := memory a; traces := traces a |}.

Definition set_memory (m : AgentMemory) (a : t) : t :=
  {| self_id := self_id a; self_type := self_type a; status := status a;
     vector := vector a; memory := m; traces := traces a |}.

Definition set_w2 (q : Q) (a : t) : t :=
  {| self_id := self_id a; self_type := self_type a; status := status a;
     vector := {| role := role (vector a); weight := weight (vector a);
                  gamma_resistance := gamma_resistance (vector a);
                  w2_optimization := q |};
     memory := memory a; traces := traces a |}.

Definition set_traces (ts : list AgentTrace) (a : t) : t :=
  {| self_id := self_id a; self_type := self_type a; status := status a;
     vector := vector a; memory := memory a; traces := ts |}.

(** [_add_trace] *)
Definition _add_trace (act : string) (err : option string) (a : t) : t :=
  set_traces
    (traces a ++ [ {| trace_agent_id := self_id a;
                      trace_agent_type := self_type a;
                      action := act; error := err |} ]) a.

(** [update_memory]; an argument left at [None] is skipped. *)
Definition update_memory (st : option (list string))
    (lt : option (gmap string Any)) (wc : option string) (a : t) : t :=
  let m := memory a in
  let m1 :=
    match st with
    | Some new =>
        {| short_term := Py.last_n 10 (short_term m ++ new);
           long_term := long_term m;
           working_context := working_context m |}
    | None => m
    end in
  let m2 :=
    match lt with
    | Some kv =>
        {| short_term := short_term m1;
           long_term := kv ∪ long_term m1;
           working_context := working_context m1 |}
    | None => m1
    end in
  let m3 :=
    match wc with
    | Some c =>
        {| short_term := short_term m2;
           long_term := long_term m2;
           working_context := Some c |}
    | None => m2
    end in
  set_memory m3 a.

(** [update_w2_optimization] *)
Definition update_w2_optimization (score : Q) (a : t) : t :=
  set_w2 (Py.max 0.0 (Py.min score 1.0)) a.

(** [reset] *)
Definition reset (a : t) : t :=
  set_w2 0.0
    (set_traces []
       (set_memory {| short_term := []; long_term := ∅;
                      working_context := None |}
          (set_status IDLE a))).

(** The operations that change an agent after its construction. The
    [process] method of every variant is a composition of these (see
    [Agents.variant_process]). *)
Inductive op : Type :=
| UpdateMemory (st : option (list string)) (lt : option (gmap string Any))
               (wc : option string)
| UpdateW2 (score : Q)
| AddTrace (act : string) (err : option string)
| SetStatus (s : AgentStatus)
| Reset.

Definition step (a : t) (o : op) : t :=
  match o with
  | UpdateMemory st lt wc => update_memory st lt wc a
  | UpdateW2 score => update_w2_optimization score a
  | AddTrace act err => _add_trace act err a
  | SetStatus s => set_status s a
  | Reset => reset a
  end.

Definition run (ops : list op) (a : t) : t := fold_left step ops a.

(** Everything handed to [update_memory] as [short_term] by a sequence of
    operations since the last [reset], in order. *)
Fixpoint appended (ops : list op) (acc : list string) : list string :=
  match ops with
  | [] => acc
  | UpdateMemory (Some new) _ _ :: ops' => appended ops' (acc ++ new)
  | Reset :: ops' => appended ops' []
  | _ :: ops' => appended ops' acc
  end.

Definition unit_interval (q : Q) : Prop := 0 <= q <= 1.

Definition vector_ok (v : AgentVector) : Prop :=
  unit_interval (weight v) /\
  unit_interval (gamma_resistance v) /\
  unit_interval (w2_optimization v).

End BaseAgent.


(** ** [agents/*.py] *)

(** One entry of the [previous_responses] / [agent_responses] lists that the
    orchestrator hands to an agent. *)
Record ResponseSummary : Type := mkResponseSummary {
  sum_agent_type : string;
  sum_response : string;
  sum_confidence : Q
}.

(** The [context] dictionary; a key that is not set is [None]. *)
Record Context : Type := mkContext {
  original_prompt : string;
  ctx_session_id : option string;
  previous_responses : option (list ResponseSummary);
  ctx_agent_responses : option (list ResponseSummary)
}.

Module Agents.

(** The [except Exception] handler shared by every [process]: the agent is
    marked [ERROR], the error is traced and the exception is raised again. *)
Definition on_error {A} (error_action e : string) (a : BaseAgent.t)
  : BaseAgent.t * Outcome A :=
  (BaseAgent._add_trace error_action (Some e)
     (BaseAgent.set_status ERROR a),
   Raised e).

(** [BaseAgent._call_claude]: a failure of the completion service is traced
    under ["call_claude"] and raised again. *)
Definition _call_claude (answer : Outcome string) (a : BaseAgent.t)
  : BaseAgent.t * Outcome string :=
  match answer with
  | Returned text => (a, Returned text)
  | Raised e => (BaseAgent._add_trace "call_claude" (Some e) a, Raised e)
  end.

(** The tail of every [process], from the completion call on. [quality] is
    the variant's derivation of its confidence from the produced text. *)
Definition complete_task (done_action error_action : string)
    (quality : string -> Outcome Q) (answer : Outcome string)
    (a : BaseAgent.t) : BaseAgent.t * Outcome AgentResponse :=
  match _call_claude answer a with
  | (a1, Raised e) => on_error error_action e a1
  | (a1, Returned text) =>
      match quality text with
      | Raised e => on_error error_action e a1
      | Returned q =>
          let a2 := BaseAgent.update_w2_optimization q a1 in
          let a3 := BaseAgent._add_trace done_action None a2 in
          let a4 := BaseAgent.set_status COMPLETED a3 in
          match new_AgentResponse (BaseAgent.self_id a4)
                  (BaseAgent.self_type a4) text q
                  (Py.last_item (BaseAgent.traces a4)) with
          | Raised e => on_error error_action e a4
          | Returned r => (a4, Returned r)
          end
      end
  end.

(** The five workflow variants share one shape and differ in the memory
    label, the trace actions and the confidence heuristic. *)
Definition memory_label (ty : AgentType) : string :=
  match ty with
  | ARCHITECT => "Processing task: "
  | ENGINEER => "Implementing: "
  | REVIEWER => "Reviewing: "
  | DEBUGGER => "Debugging: "
  | RESEARCH => "Researching: "
  | SYNTHESIZER => "Synthesizing: "
  end.

Definition start_action (ty : AgentType) : string :=
  match ty with
  | ARCHITECT => "start_planning"
  | ENGINEER => "start_implementation"
  | REVIEWER => "start_review"
  | DEBUGGER => "start_debugging"
  | RESEARCH => "start_research"
  | SYNTHESIZER => "start_synthesis"
  end.

Definition done_action (ty : AgentType) : string :=
  match ty with
  | ARCHITECT => "complete_planning"
  | ENGINEER => "complete_implementation"
  | REVIEWER => "complete_review"
  | DEBUGGER => "complete_debugging"
  | RESEARCH => "complete_research"
  | SYNTHESIZER => "complete_synthesis"
  end.

Definition error_action (ty : AgentType) : string :=
  match ty with
  | ARCHITECT => "planning_error"
  | ENGINEER => "implementation_error"
  | REVIEWER => "review_error"
  | DEBUGGER => "debugging_error"
  | RESEARCH => "research_error"
  | SYNTHESIZER => "synthesis_error"
  end.

(** [process] of Architect, Engineer, Reviewer, Debugger and Research.
    [heuristic] stands for the variant's text analysis (keywords, length,
    code blocks, numbers found in the text); it may raise. *)
Definition variant_process (heuristic : AgentType -> string -> Outcome Q)
    (answer : Outcome string) (task : string) (a : BaseAgent.t)
  : BaseAgent.t * Outcome AgentResponse :=
  let ty := BaseAgent.self_type a in
  let a1 := BaseAgent.set_status WORKING a in
  let a2 := BaseAgent.update_memory
              (Some [memory_label ty +:+ Py.str_take 100 task])
              None (Some task) a1 in
  let a3 := BaseAgent._add_trace (start_action ty) None a2 in
  complete_task (done_action ty) (error_action ty) (heuristic ty) answer a3.

End Agents.

Module SynthesizerAgent.

(** The outputs the synthesizer integrates:
    [context.get("agent_responses", []) if context else []]. *)
Definition agent_outputs (context : option Context) : list ResponseSummary :=
  match context with
  | Some c => default [] (ctx_agent_responses c)
  | None => []
  end.

(** "Calculate synthesis quality" (lines 133-137). *)
Definition quality (n : nat) : Q :=
  if (0 <? n)%nat
  then Py.min 0.95 (0.7 + inject_Z (Z.of_nat n) * 0.05)
  else 0.9.

(** [SynthesizerAgent.process] *)
Definition process (answer : Outcome string) (task : string)
    (context : option Context) (a : BaseAgent.t)
  : BaseAgent.t * Outcome AgentResponse :=
  let n := length (agent_outputs context) in
  let a1 := BaseAgent.set_status WORKING a in
  let a2 := BaseAgent.update_memory
              (Some ["Synthesizing: " +:+ pretty n +:+ " agent outputs"])
              None (Some task) a1 in
  let a3 := BaseAgent._add_trace "start_synthesis" None a2 in
  Agents.complete_task "complete_synthesis" "synthesis_error"
    (fun _ => Returned (quality n)) answer a3.

End SynthesizerAgent.


(** ** [orchestrator.py] *)

Record QuantumMetrics : Type := mkQuantumMetrics {
  phi : Q; gamma : Q; lambda : Q; w2 : Q
}.

Record AuraResponse : Type := mkAuraResponse {
  resp_session_id : string;
  final_response : string;
  agent_responses : list AgentResponse;
  resp_total_iterations : Z;
  consciousness_metrics : option QuantumMetrics;
  quantum_backend_used : option string;
  resp_traces : option (list AgentTrace)
}.

Record AgentNode : Type := mkAgentNode {
  node_agent_id : string;
  node_agent_type : AgentType;
  node_status : AgentStatus;
  node_vector : AgentVector;
  position : Q * Q * Q;
  connections : list string
}.

Record AgentLattice : Type := mkAgentLattice {
  lattice_session_id : string;
  nodes : list AgentNode;
  active_agents : Z;
  total_interactions : Z;
  lattice_coherence : Q
}.

(** Constructing an [AgentLattice] validates [lattice_coherence]. *)
Definition new_AgentLattice (sid : string) (ns : list AgentNode)
    (active total : Z) (coherence : Q) : Outcome AgentLattice :=
  if field_in_unit coherence
  then Returned (mkAgentLattice sid ns active total coherence)
  else Raised "ValidationError".

Module AuraOrchestrator.

Record t : Type := mk {
  session_id : string;
  agents : AgentType -> BaseAgent.t;
  conversation_history : list Message;
  total_iterations : Z
}.

(** [__init__] with [_initialize_agents]; [fresh_id ty] is the identifier
    drawn for the agent of type [ty]. *)
Definition init (sid : string) (fresh_id : AgentType -> string) : t :=
  {| session_id := sid;
     agents := fun ty => BaseAgent.init (fresh_id ty) ty;
     conversation_history := [];
     total_iterations := 0 |}.

Definition set_agent (ty : AgentType) (a : BaseAgent.t) (o : t) : t :=
  {| session_id := session_id o;
     agents := fun ty' => if decide (ty' = ty) then a else agents o ty';
     conversation_history := conversation_history o;
     total_iterations := total_iterations o |}.

Definition append_history (m : Message) (o : t) : t :=
  {| session_id := session_id o;
     agents := agents o;
     conversation_history := conversation_history o ++ [m];
     total_iterations := total_iterations o |}.

Definition bump_iterations (o : t) : t :=
  {| session_id := session_id o;
     agents := agents o;
     conversation_history := conversation_history o;
     total_iterations := (total_iterations o + 1)%Z |}.

Definition debugging_keywords : list string :=
  ["error"; "bug"; "debug"; "fix"; "broken"; "failing"].
Definition review_keywords : list string :=
  ["review"; "check"; "audit"; "improve"].
Definition research_keywords : list string :=
  ["how to"; "what is"; "explain"; "research"; "find"].

(** [_determine_workflow] *)
Definition _determine_workflow (request : AuraRequest) : list AgentType :=
  let prompt_lower := Py.lower (prompt request) in
  if Py.any_in debugging_keywords prompt_lower
  then [DEBUGGER; ENGINEER; REVIEWER]
  else if Py.any_in review_keywords prompt_lower
  then [REVIEWER; ENGINEER]
  else if Py.any_in research_keywords prompt_lower
  then [RESEARCH; ARCHITECT]
  else [ARCHITECT; ENGINEER; REVIEWER].

Definition summary (r : AgentResponse) : ResponseSummary :=
  {| sum_agent_type := AgentType_value (agent_type r);
     sum_response := response r;
     sum_confidence := confidence r |}.

(** [_prepare_context] *)
Definition _prepare_context (o : t) (request : AuraRequest)
    (responses : list AgentResponse) : Context :=
  {| original_prompt := prompt request;
     ctx_session_id := Some (session_id o);
     previous_responses := Some (map summary (Py.last_n 3 responses));
     ctx_agent_responses := None |}.

(** [_should_continue] *)
Definition _should_continue (responses : list AgentResponse)
    (iteration max_iterations : Z) : bool :=
  if (max_iterations - 1 <=? iteration)%Z then false
  else match Py.last_item responses with
       | None => true
       | Some r => if Py.geb (confidence r) 0.9 then false else true
       end.

(** What an observer of one [process_request] call sees: the start of a
    pass of the loop, and each call of an agent's [process] with whether
    it returned. *)
Inductive Event : Type :=
| PassStarted (iteration : Z)
| Invoked (ty : AgentType) (returned : bool).

#[global] Instance Event_eq_dec : EqDecision Event.
Proof. solve_decision. Defined.

(** The orchestrator together with the position in the stream of answers
    of the completion service and the observed events. *)
Record World : Type := mkWorld {
  orch : t;
  calls : nat;
  events : list Event
}.

Definition map_orch (f : t -> t) (w : World) : World :=
  {| orch := f (orch w); calls := calls w; events := events w |}.

Definition observe (e : Event) (w : World) : World :=
  {| orch := orch w; calls := calls w; events := events w ++ [e] |}.

Section Ports.

(** [complete k]: what the completion service does on its [k]-th call. *)
Variable complete : nat -> Outcome string.
(** The confidence heuristics of the five workflow variants. *)
Variable heuristic : AgentType -> string -> Outcome Q.
(** The outcome of [_get_quantum_metrics]: metrics and backend name, or
    [(None, None)] on any failure. *)
Variable quantum : option (QuantumMetrics * string).

(** [await agent.process(task, context, conversation_history)] for the
    agent registered under [ty]. *)
Definition invoke (ty : AgentType) (task : string) (context : Context)
    (w : World) : World * Outcome AgentResponse :=
  let a := agents (orch w) ty in
  let answer := complete (calls w) in
  let '(a', res) :=
    match ty with
    | SYNTHESIZER => SynthesizerAgent.process answer task (Some context) a
    | _ => Agents.variant_process heuristic answer task a
    end in
  (observe (Invoked ty (returns res))
     {| orch := set_agent ty a' (orch w); calls := S (calls w);
        events := events w |},
   res).

(** The body of [for agent_type in workflow] (lines 101-132). *)
Definition run_agent (request : AuraRequest)
    (st : World * list AgentResponse) (ty : AgentType)
  : World * list AgentResponse :=
  let '(w, responses) := st in
  if bool_decide (ty ∈ agents_enabled request) then
    let context := _prepare_context (orch w) request responses in
    match invoke ty (prompt request) context w with
    | (w', Returned r) =>
        let agent_message :=
          {| msg_role := AGENT; content := response r;
             msg_agent_id := Some (agent_id r);
             msg_agent_type := Some (agent_type r) |} in
        (map_orch (append_history agent_message) w', responses ++ [r])
    | (w', Raised _) => (w', responses)
    end
  else st.

(** One full pass of the loop, up to the stopping test. *)
Definition run_pass (request : AuraRequest) (workflow : list AgentType)
    (iteration : Z) (st : World * list AgentResponse)
  : World * list AgentResponse :=
  let '(w, responses) := st in
  let w1 := observe (PassStarted iteration) (map_orch bump_iterations w) in
  fold_left (run_agent request) workflow (w1, responses).

(** [for iteration in range(request.max_iterations)] with its [break]
    (lines 97-136); [iterations] is what is left of the range. *)
Fixpoint run_iterations (request : AuraRequest) (workflow : list AgentType)
    (iterations : list Z) (st : World * list AgentResponse)
  : World * list AgentResponse :=
  match iterations with
  | [] => st
  | iteration :: rest =>
      let st1 := run_pass request workflow iteration st in
      if _should_continue (snd st1) iteration (max_iterations request)
      then run_iterations request workflow rest st1
      else st1
  end.

(** [process_request] *)
Definition process_request (request : AuraRequest) (w : World)
  : World * Outcome AuraResponse :=
  let user_message :=
    {| msg_role := USER; content := prompt request;
       msg_agent_id := None; msg_agent_type := None |} in
  let w0 := map_orch (append_history user_message) w in
  let workflow := _determine_workflow request in
  let '(w1, responses) :=
    run_iterations request workflow (Py.range (max_iterations request))
      (w0, []) in
  let synthesis_context :=
    {| original_prompt := prompt request;
       ctx_session_id := None;
       previous_responses := None;
       ctx_agent_responses := Some (map summary responses) |} in
  match invoke SYNTHESIZER
          "Synthesize all agent outputs into final response"
          synthesis_context w1 with
  | (w2, Raised e) => (w2, Raised e)
  | (w2, Returned final) =>
      let responses' := responses ++ [final] in
      let qm := if quantum_enhanced request then quantum else None in
      let o2 := orch w2 in
      let aura_response :=
        {| resp_session_id := session_id o2;
           final_response := response final;
           agent_responses := responses';
           resp_total_iterations := total_iterations o2;
           consciousness_metrics := fst <$> qm;
           quantum_backend_used := snd <$> qm;
           resp_traces :=
             if include_traces request
             then Some (concat (map (fun ty => BaseAgent.traces (agents o2 ty))
                                    all_agent_types))
             else None |} in
      let assistant_message :=
        {| msg_role := ASSISTANT; content := response final;
           msg_agent_id := None; msg_agent_type := None |} in
      (map_orch (append_history assistant_message) w2,
       Returned aura_response)
  end.

End Ports.

(** [_get_agent_position] *)
Definition _get_agent_position (ty : AgentType) : Q * Q * Q :=
  match ty with
  | ARCHITECT => (0.5, 0.0, 0.0)
  | ENGINEER => (0.0, 0.5, 0.0)
  | REVIEWER => (1.0, 0.5, 0.0)
  | DEBUGGER => (0.0, 1.0, 0.0)
  | RESEARCH => (1.0, 1.0, 0.0)
  | SYNTHESIZER => (0.5, 1.5, 0.0)
  end.

(** [_get_agent_connections] *)
Definition _get_agent_connections (o : t) (ty : AgentType) : list string :=
  let connected_types :=
    match ty with
    | ARCHITECT => [ENGINEER; RESEARCH; SYNTHESIZER]
    | ENGINEER => [ARCHITECT; REVIEWER; DEBUGGER]
    | REVIEWER => [ENGINEER; SYNTHESIZER]
    | DEBUGGER => [ENGINEER; RESEARCH]
    | RESEARCH => [ARCHITECT; DEBUGGER; SYNTHESIZER]
    | SYNTHESIZER => [ARCHITECT; REVIEWER; RESEARCH]
    end in
  map (fun ty' => BaseAgent.self_id (agents o ty')) connected_types.

(** The values of [agent.vector.w2_optimization] in the order of
    [self.agents.values()]. *)
Definition scores (o : t) : list Q :=
  map (fun ty => w2_optimization (BaseAgent.vector (agents o ty)))
      all_agent_types.

(** [get_lattice_state] *)
Definition get_lattice_state (o : t) : Outcome AgentLattice :=
  let node ty :=
    let agent := agents o ty in
    {| node_agent_id := BaseAgent.self_id agent;
       node_agent_type := ty;
       node_status := BaseAgent.status agent;
       node_vector := BaseAgent.vector agent;
       position := _get_agent_position ty;
       connections := _get_agent_connections o ty |} in
  let active ty :=
    let s := BaseAgent.status (agents o ty) in
    bool_decide (s = ACTIVE) || bool_decide (s = WORKING) in
  let active_count := Z.of_nat (length (filter active all_agent_types)) in
  let coherence :=
    Py.sum (scores o) / inject_Z (Z.of_nat (length all_agent_types)) in
  new_AgentLattice (session_id o) (map node all_agent_types)
    active_count (total_iterations o) coherence.

(** [reset_session] *)
Definition reset_session (o : t) : t :=
  {| session_id := session_id o;
     agents := fun ty => BaseAgent.reset (agents o ty);
     conversation_history := [];
     total_iterations := 0 |}.

End AuraOrchestrator.


(** ** [api/aura_websocket.py] *)

(** A websocket is identified by its object identity. *)
Definition WebSocket : Type := nat.

(** The outbound frames. *)
Inductive Frame : Type :=
| connected (sid : string)
| pong
| agent_update (sid aid aty st : string)
| lattice_update (sid : string) (lattice : AgentLattice)
| response_chunk (sid aid aty text : string) (is_final : bool)
| quantum_metrics (sid : string) (metrics : QuantumMetrics) (backend : string)
| error_frame (sid err : string)
| status_frame (sid : string) (connection_count : nat).

Module ConnectionManager.

(** The manager's [active_connections] together with the frames that the
    transport has accepted so far, oldest first. *)
Record t : Type := mk {
  active_connections : gmap string (gset WebSocket);
  delivered : list (WebSocket * Frame)
}.

(** [ConnectionManager.__init__] *)
Definition init : t := {| active_connections := ∅; delivered := [] |}.

Definition set_connections (m : gmap string (gset WebSocket)) (mgr : t) : t :=
  {| active_connections := m; delivered := delivered mgr |}.

(** The connections registered for a session:
    [active_connections.get(session_id, set())]. *)
Definition connections_of (mgr : t) (sid : string) : gset WebSocket :=
  default ∅ (active_connections mgr !! sid).

(** [websocket.send_json(message)]; [transport ws] tells whether the send
    to [ws] goes through. *)
Definition send_json (transport : WebSocket -> Outcome unit)
    (ws : WebSocket) (message : Frame) (mgr : t) : Outcome t :=
  bind (transport ws) (fun _ =>
    Returned {| active_connections := active_connections mgr;
                delivered := delivered mgr ++ [(ws, message)] |}).

(** [connect]; [accept] is the outcome of [websocket.accept()]. *)
Definition connect (accept : Outcome unit) (ws : WebSocket) (sid : string)
    (mgr : t) : Outcome t :=
  bind accept (fun _ =>
    let m := active_connections mgr in
    let m1 := match m !! sid with
              | None => <[sid := ∅]> m
              | Some _ => m
              end in
    Returned (set_connections (alter (fun s => s ∪ {[ws]}) sid m1) mgr)).

(** [disconnect] *)
Definition disconnect (ws : WebSocket) (sid : string) (mgr : t) : t :=
  let m := active_connections mgr in
  match m !! sid with
  | None => mgr
  | Some s =>
      let s' := s ∖ {[ws]} in
      let m1 := <[sid := s']> m in
      set_connections (if decide (s' = ∅) then delete sid m1 else m1) mgr
  end.

(** [send_personal_message] *)
Definition send_personal_message (transport : WebSocket -> Outcome unit)
    (message : Frame) (ws : WebSocket) (mgr : t) : Outcome t :=
  try_except (send_json transport ws message mgr)
             (fun _ => Returned mgr).

(** The body of the loop of [broadcast_to_session] (lines 62-67). *)
Definition broadcast_round (transport : WebSocket -> Outcome unit)
    (message : Frame) (sid : string) (connection : WebSocket) (mgr : t)
  : Outcome t :=
  try_except (send_json transport connection message mgr)
             (fun _ => Returned (disconnect connection sid mgr)).

(** [broadcast_to_session] *)
Definition broadcast_to_session (transport : WebSocket -> Outcome unit)
    (message : Frame) (sid : string) (mgr : t) : Outcome t :=
  match active_connections mgr !! sid with
  | None => Returned mgr
  | Some s =>
      let snapshot := elements s in
      for_each (broadcast_round transport message sid) snapshot mgr
  end.

(** [send_lattice_update] *)
Definition send_lattice_update (transport : WebSocket -> Outcome unit)
    (sid : string) (lattice_data : AgentLattice) (mgr : t) : Outcome t :=
  broadcast_to_session transport (lattice_update sid lattice_data) sid mgr.

(** [send_error] *)
Definition send_error (transport : WebSocket -> Outcome unit)
    (sid err : string) (mgr : t) : Outcome t :=
  broadcast_to_session transport (error_frame sid err) sid mgr.

(** [get_connection_count]; an empty [session_id] is falsy and counts
    every session. *)
Definition get_connection_count (sid : option string) (mgr : t) : nat :=
  match sid with
  | Some s =>
      if decide (s = "") then
        map_fold (fun _ conns n => (size conns + n)%nat) 0%nat
                 (active_connections mgr)
      else size (connections_of mgr s)
  | None =>
      map_fold (fun _ conns n => (size conns + n)%nat) 0%nat
               (active_connections mgr)
  end.

(** The operations on the registry, as the endpoint and the typed event
    helpers issue them. *)
Inductive op : Type :=
| Connect (accept : Outcome unit) (ws : WebSocket) (sid : string)
| Disconnect (ws : WebSocket) (sid : string)
| Broadcast (transport : WebSocket -> Outcome unit) (message : Frame)
            (sid : string).

(** One operation; an exception leaves the manager as the raising call
    left it, which for [connect] is untouched. *)
Definition step (mgr : t) (o : op) : t :=
  match o with
  | Connect accept ws sid =>
      match connect accept ws sid mgr with
      | Returned mgr' => mgr'
      | Raised _ => mgr
      end
  | Disconnect ws sid => disconnect ws sid mgr
  | Broadcast transport message sid =>
      match broadcast_to_session transport message sid mgr with
      | Returned mgr' => mgr'
      | Raised _ => mgr
      end
  end.

Definition run (ops : list op) (mgr : t) : t := fold_left step ops mgr.

(** Every registered session has at least one connection. *)
Definition registry_ok (mgr : t) : Prop :=
  ∀ sid s, active_connections mgr !! sid = Some s → s ≠ ∅.

End ConnectionManager.

Module Endpoint.

(** The body of the receive loop of [websocket_endpoint] (lines 215-241)
    for one inbound frame whose ["type"] entry is [msg_type];
    [orchestrators] is the registry [_orchestrators] of [aura_routes]. *)
Definition handle_message (transport : WebSocket -> Outcome unit)
    (orchestrators : gmap string AuraOrchestrator.t)
    (websocket : WebSocket) (session_id : string)
    (msg_type : option string) (mgr : ConnectionManager.t)
  : Outcome ConnectionManager.t :=
  if decide (msg_type = Some "ping") then
    ConnectionManager.send_personal_message transport pong websocket mgr
  else if decide (msg_type = Some "subscribe_lattice") then
    match orchestrators !! session_id with
    | Some orchestrator =>
        bind (AuraOrchestrator.get_lattice_state orchestrator)
          (fun lattice =>
             ConnectionManager.send_lattice_update transport session_id
               lattice mgr)
    | None => Returned mgr
    end
  else if decide (msg_type = Some "get_status") then
    ConnectionManager.send_personal_message transport
      (status_frame session_id
         (ConnectionManager.get_connection_count (Some session_id) mgr))
      websocket mgr
  else Returned mgr.

(** What arrives on the receive side of a connection. *)
Inductive Inbound : Type :=
| Received (msg_type : option string)
| TransportClosed
| Failed (e : string).

(** The receive loop with its two handlers (lines 212-248), run over the
    inbound events of a connection in order. *)
Fixpoint receive_loop (transport : WebSocket -> Outcome unit)
    (orchestrators : gmap string AuraOrchestrator.t)
    (websocket : WebSocket) (session_id : string)
    (inbound : list Inbound) (mgr : ConnectionManager.t)
  : Outcome ConnectionManager.t :=
  let on_exception e mgr' :=
    bind (ConnectionManager.send_error transport session_id e mgr')
         (fun mgr'' =>
            Returned (ConnectionManager.disconnect websocket session_id
                        mgr'')) in
  match inbound with
  | [] => Returned mgr
  | TransportClosed :: _ =>
      Returned (ConnectionManager.disconnect websocket session_id mgr)
  | Failed e :: _ => on_exception e mgr
  | Received msg_type :: rest =>
      match handle_message transport orchestrators websocket session_id
              msg_type mgr with
      | Returned mgr' =>
          receive_loop transport orchestrators websocket session_id rest mgr'
      | Raised e => on_exception e mgr
      end
  end.

(** The frames accepted by the transport during a step from [before] to
    [after]. *)
Definition new_frames (before after : ConnectionManager.t)
  : list (WebSocket * Frame) :=
  drop (length (ConnectionManager.delivered before))
       (ConnectionManager.delivered after).

End Endpoint.


(** ** Vocabulary of the statements *)

(** What [kw in s] means on strings: [kw] occurs in [s] as a contiguous
    block. *)
Definition occurs_in (kw s : string) : Prop :=
  ∃ pre post, s = pre +:+ kw +:+ post.

Definition mentions (kws : list string) (s : string) : Prop :=
  ∃ kw, kw ∈ kws ∧ occurs_in kw s.


(** The arithmetic mean of the six optimisation scores. *)
Definition mean_score (o : AuraOrchestrator.t) : Q :=
  let s ty := w2_optimization (BaseAgent.vector (AuraOrchestrator.agents o ty)) in
  (s ARCHITECT + s ENGINEER + s REVIEWER + s DEBUGGER + s RESEARCH
   + s SYNTHESIZER) / 6.

Definition is_pass (e : AuraOrchestrator.Event) : bool :=
  match e with
  | AuraOrchestrator.PassStarted _ => true
  | AuraOrchestrator.Invoked _ _ => false
  end.

Definition invokes (ty : AgentType) (e : AuraOrchestrator.Event) : bool :=
  match e with
  | AuraOrchestrator.PassStarted _ => false
  | AuraOrchestrator.Invoked ty' _ => bool_decide (ty' = ty)
  end.

(** The number of passes of the loop among some events. *)
Definition passes (es : list AuraOrchestrator.Event) : nat :=
  length (List.filter is_pass es).

(** The number of calls of [process] of the agent [ty] among some events. *)
Definition invocations (ty : AgentType) (es : list AuraOrchestrator.Event)
  : nat :=
  length (List.filter (invokes ty) es).

(** The events observed during a step from [before] to [after]. *)
Definition new_events (before after : AuraOrchestrator.World)
  : list AuraOrchestrator.Event :=
  drop (length (AuraOrchestrator.events before))
       (AuraOrchestrator.events after).

(** The vectors of the six agents are within range. *)
Definition vectors_ok (o : AuraOrchestrator.t) : Prop :=
  ∀ ty, BaseAgent.vector_ok (BaseAgent.vector (AuraOrchestrator.agents o ty)).

(** Whether the request enables the agent. *)
Definition enabled (request : AuraRequest) (ty : AgentType) : bool :=
  bool_decide (ty ∈ agents_enabled request).

(** The orchestrator's iteration counter. *)
Definition total_of (w : AuraOrchestrator.World) : Z :=
  AuraOrchestrator.total_iterations (AuraOrchestrator.orch w).

(** The events of a pass over [workflow] in which every enabled agent is
    called, in workflow order, and raises. *)
Definition failed_pass (request : AuraRequest) (workflow : list AgentType)
    (iteration : Z) : list AuraOrchestrator.Event :=
  AuraOrchestrator.PassStarted iteration ::
  map (fun ty => AuraOrchestrator.Invoked ty false)
      (List.filter (enabled request) workflow).

(** The events of agents that raised, and of passes. *)
Definition raised_only (es : list AuraOrchestrator.Event) : bool :=
  forallb (fun e => match e with
                    | AuraOrchestrator.PassStarted _ => true
                    | AuraOrchestrator.Invoked _ returned => negb returned
                    end) es.

(** The confidence of the most recently collected response. *)
Definition last_confidence (responses : list AgentResponse) : option Q :=
  confidence <$> Py.last_item responses.

(** A completion service that is down. *)
Definition service_down : nat -> Outcome string :=
  fun _ => Raised "service unavailable".

(** A completion service that always answers. *)
Definition service_up : nat -> Outcome string :=
  fun _ => Returned "approve".

(** A confidence heuristic that finds every answer excellent. *)
Definition confident : AgentType -> string -> Outcome Q :=
  fun _ _ => Returned 0.95.

(** A request for five iterations with every agent enabled. *)
Definition example_request : AuraRequest :=
  {| prompt := "please fix this error";
     agents_enabled := all_agent_types;
     max_iterations := 5;
     include_traces := false;
     quantum_enhanced := false |}.

(** A fresh orchestrator before its first request. *)
Definition fresh_world : AuraOrchestrator.World :=
  {| AuraOrchestrator.orch := AuraOrchestrator.init "s" AgentType_value;
     AuraOrchestrator.calls := 0;
     AuraOrchestrator.events := [] |}.

(** Two connects followed by a broadcast that loses connection 2. *)
Definition example_operations : list ConnectionManager.op :=
  [ConnectionManager.Connect (Returned ()) 1%nat "s";
   ConnectionManager.Connect (Returned ()) 2%nat "s";
   ConnectionManager.Broadcast
     (fun ws => if decide (ws = 2%nat) then Raised "connection closed"
                else Returned ())
     pong "s"].

(** Whether a send to [ws] goes through. *)
Definition accepts (transport : WebSocket -> Outcome unit) (ws : WebSocket)
  : bool :=
  returns (transport ws).

(** The frame [message] addressed to each of [targets]. *)
Definition addressed (message : Frame) (targets : list WebSocket)
  : list (WebSocket * Frame) :=
  map (fun ws => (ws, message)) targets.

(** A transport on which every send goes through. *)
Definition reliable : WebSocket -> Outcome unit := fun _ => Returned ().

(** A transport on which the sends to [failed], and only those, fail. *)
Definition failing_for (failed : WebSocket) : WebSocket -> Outcome unit :=
  fun ws => if decide (ws = failed) then Raised "connection closed"
            else Returned ().

(** A manager after the given websockets connected to the session. *)
Definition manager_with (sid : string) (clients : list WebSocket)
  : ConnectionManager.t :=
  ConnectionManager.run
    (map (fun ws => ConnectionManager.Connect (Returned ()) ws sid) clients)
    ConnectionManager.init.

(** The scores 0.2, 0.4, 0.6, 0.8, 1.0 and 0.0 spread over the agents. *)
Definition example_scores (ty : AgentType) : Q :=
  match ty with
  | ARCHITECT => 0.2
  | ENGINEER => 0.4
  | REVIEWER => 0.6
  | DEBUGGER => 0.8
  | RESEARCH => 1.0
  | SYNTHESIZER => 0.0
  end.


(** An orchestrator whose agents carry the given optimisation scores. *)
Definition with_scores (s : AgentType -> Q) : AuraOrchestrator.t :=
  {| AuraOrchestrator.session_id := "s";
     AuraOrchestrator.agents := fun ty =>
       BaseAgent.update_w2_optimization (s ty)
         (BaseAgent.init (AgentType_value ty) ty);
     AuraOrchestrator.conversation_history := [];
     AuraOrchestrator.total_iterations := 0 |}.

(** ** Further builtins and the confidence heuristics of the agents *)

Module PyStr.

(** [c.isspace()] for the code points below 256. *)
Definition is_space (c : ascii) : bool :=
  let n := Ascii.nat_of_ascii c in
  ((Nat.leb 9 n && Nat.leb n 13) || (Nat.leb 28 n && Nat.leb n 32)
   || Nat.eqb n 133 || Nat.eqb n 160)%bool.

(** The loop of [s.split()]: [word] is the word being read, if any. *)
Fixpoint split_from (word : option string) (s : string) : list string :=
  match s with
  | EmptyString => match word with Some w => [w] | None => [] end
  | String c s' =>
      if is_space c then
        match word with
        | Some w => w :: split_from None s'
        | None => split_from None s'
        end
      else
        split_from
          (Some (match word with
                 | Some w => w +:+ String c EmptyString
                 | None => String c EmptyString
                 end)) s'
  end.

(** [s.split()]: the maximal runs of characters that are not whitespace. *)
Definition split (s : string) : list string := split_from None s.

(** The scan of [s.count(sub)]: [skip] characters of the last match are
    still to be jumped over. *)
Fixpoint count_from (skip : nat) (sub s : string) : nat :=
  match s with
  | EmptyString => if Py.startswith sub EmptyString then 1%nat else 0%nat
  | String _ s' =>
      match skip with
      | S k => count_from k sub s'
      | O =>
          if Py.startswith sub s
          then S (count_from (String.length sub - 1) sub s')
          else count_from 0 sub s'
      end
  end.

(** [s.count(sub)]: the occurrences of [sub] in [s] that do not overlap,
    from the left. *)
Definition count (sub s : string) : nat := count_from 0 sub s.

End PyStr.

Module Heuristics.

(** [reviewer_agent.py], "Estimate quality from response". *)
Definition reviewer_quality_score (response_text : string) : Q :=
  if Py.contains "approve" (Py.lower response_text) then 0.9
  else if Py.contains "needs_changes" (Py.lower response_text) then 0.7
  else 0.5.

(** [research_agent.py], "Calculate relevance score based on response
    quality". *)
Definition research_relevance (response_text : string) : Q :=
  if (String.length response_text <? 200)%nat then 0.6
  else if (Py.contains "not found" (Py.lower response_text)
           || Py.contains "unable to" (Py.lower response_text))%bool
  then 0.5
  else 0.85.

(** [engineer_agent.py], "Calculate metrics": the code fences counted. *)
Definition engineer_code_blocks (response_text : string) : nat :=
  PyStr.count "```" response_text.

Definition engineer_w2_score (response_text : string) : Q :=
  Py.min 0.95
    (0.7 + inject_Z (Z.of_nat (engineer_code_blocks response_text)) / 10).

(** The heuristics of Engineer, Reviewer and Research as the source has
    them; [other] stands for those of Architect and Debugger, which parse
    JSON and numbers out of the text. *)
Definition from_source (other : AgentType -> string -> Outcome Q)
    (ty : AgentType) (response_text : string) : Outcome Q :=
  match ty with
  | ENGINEER => Returned (engineer_w2_score response_text)
  | REVIEWER => Returned (reviewer_quality_score response_text)
  | RESEARCH => Returned (research_relevance response_text)
  | _ => other ty response_text
  end.

End Heuristics.

(** ** Further vocabulary *)

(** What [__init__] fixes for the lifetime of an agent. *)
Definition constructed_as (id : string) (ty : AgentType) (a : BaseAgent.t)
  : Prop :=
  BaseAgent.self_id a = id ∧
  BaseAgent.self_type a = ty ∧
  role (BaseAgent.vector a) = ty ∧
  weight (BaseAgent.vector a) = 1.0 ∧
  gamma_resistance (BaseAgent.vector a) = 0.8.

(** The trace that [_add_trace] records for an agent. *)
Definition trace_of (a : BaseAgent.t) (act : string) (err : option string)
  : AgentTrace :=
  {| trace_agent_id := BaseAgent.self_id a;
     trace_agent_type := BaseAgent.self_type a;
     action := act; error := err |}.

Definition is_reset (o : BaseAgent.op) : bool :=
  match o with BaseAgent.Reset => true | _ => false end.

(** Both [process] methods, by the kind of agent. *)
Definition process_of (heuristic : AgentType -> string -> Outcome Q)
    (synthesizer : bool) (answer : Outcome string) (task : string)
    (context : option Context) (a : BaseAgent.t)
  : BaseAgent.t * Outcome AgentResponse :=
  if synthesizer then SynthesizerAgent.process answer task context a
  else Agents.variant_process heuristic answer task a.

(** The messages that [process_request] appends to the conversation. *)
Definition user_message (request : AuraRequest) : Message :=
  {| msg_role := USER; content := prompt request;
     msg_agent_id := None; msg_agent_type := None |}.

Definition agent_message (r : AgentResponse) : Message :=
  {| msg_role := AGENT; content := response r;
     msg_agent_id := Some (agent_id r);
     msg_agent_type := Some (agent_type r) |}.

Definition assistant_message (text : string) : Message :=
  {| msg_role := ASSISTANT; content := text;
     msg_agent_id := None; msg_agent_type := None |}.

(** Every agent of the orchestrator is registered under its own type and
    is as [__init__] fixed it. *)
Definition agents_as_constructed (o : AuraOrchestrator.t) : Prop :=
  ∀ ty, constructed_as
          (BaseAgent.self_id (AuraOrchestrator.agents o ty)) ty
          (AuraOrchestrator.agents o ty).

(** No agent is in the middle of a task. *)
Definition at_rest (o : AuraOrchestrator.t) : Prop :=
  ∀ ty, BaseAgent.status (AuraOrchestrator.agents o ty) ≠ WORKING ∧
        BaseAgent.status (AuraOrchestrator.agents o ty) ≠ ACTIVE.

(** What a session does with its orchestrator: requests, one after the
    other, and resets. *)
Inductive session_op : Type :=
| Ask (request : AuraRequest)
| ResetSession.

Definition session_step (complete : nat -> Outcome string)
    (heuristic : AgentType -> string -> Outcome Q)
    (quantum : option (QuantumMetrics * string))
    (w : AuraOrchestrator.World) (op : session_op) : AuraOrchestrator.World :=
  match op with
  | Ask request =>
      fst (AuraOrchestrator.process_request complete heuristic quantum
             request w)
  | ResetSession =>
      AuraOrchestrator.map_orch AuraOrchestrator.reset_session w
  end.

Definition session_run (complete : nat -> Outcome string)
    (heuristic : AgentType -> string -> Outcome Q)
    (quantum : option (QuantumMetrics * string))
    (ops : list session_op) (w : AuraOrchestrator.World)
  : AuraOrchestrator.World :=
  fold_left (session_step complete heuristic quantum) ops w.

(** The orchestrator of a session that has just been created. *)
Definition new_session (sid : string) (fresh_id : AgentType -> string)
  : AuraOrchestrator.World :=
  {| AuraOrchestrator.orch := AuraOrchestrator.init sid fresh_id;
     AuraOrchestrator.calls := 0;
     AuraOrchestrator.events := [] |}.

Definition is_user (m : Message) : bool :=
  match msg_role m with USER => true | _ => false end.

(** The conversation log of the orchestrator. *)
Definition history_of (w : AuraOrchestrator.World) : list Message :=
  AuraOrchestrator.conversation_history (AuraOrchestrator.orch w).

(** The response [r] was produced by an enabled agent of [workflow], as
    registered in [o]. *)
Definition collected_from (request : AuraRequest) (workflow : list AgentType)
    (o : AuraOrchestrator.t) (r : AgentResponse) : Prop :=
  ∃ ty, ty ∈ workflow ∧ enabled request ty = true ∧
        ∀ id, constructed_as id ty (AuraOrchestrator.agents o ty) →
              agent_id r = id ∧ agent_type r = ty.

(** What the loop of [process_request] may change between two of its
    states: it collects responses, logs one agent message per response,
    and keeps the session, the identity of the agents and their rest. *)
Definition loop_frame (request : AuraRequest) (workflow : list AgentType)
    (st st' : AuraOrchestrator.World * list AgentResponse) : Prop :=
  let o := AuraOrchestrator.orch (fst st) in
  let o' := AuraOrchestrator.orch (fst st') in
  (∃ new, snd st' = snd st ++ new ∧
          history_of (fst st') = history_of (fst st) ++ map agent_message new ∧
          Forall (collected_from request workflow o) new) ∧
  AuraOrchestrator.session_id o' = AuraOrchestrator.session_id o ∧
  (∀ ty id, constructed_as id ty (AuraOrchestrator.agents o ty) →
            constructed_as id ty (AuraOrchestrator.agents o' ty)) ∧
  (at_rest o → at_rest o').

(** What holds of the orchestrator of a session between two of its
    operations. *)
Definition settled (sid : string) (fresh_id : AgentType -> string)
    (w : AuraOrchestrator.World) : Prop :=
  AuraOrchestrator.session_id (AuraOrchestrator.orch w) = sid ∧
  (∀ ty, constructed_as (fresh_id ty) ty
           (AuraOrchestrator.agents (AuraOrchestrator.orch w) ty)) ∧
  at_rest (AuraOrchestrator.orch w) ∧
  vectors_ok (AuraOrchestrator.orch w).

(** ** The ports to the authentication and persistence service *)

(** The user data that [verify_token] returns; only ['id'] is read. *)
Record User : Type := mkUser { user_id : string }.

(** A row of [aura_sessions]; only ['id'], ['user_id'] and ['status'] are
    read. *)
Record SessionRow : Type := mkSessionRow {
  row_id : string;
  row_user_id : string;
  row_status : string
}.

(** ** [api/aura_websocket.py], the whole endpoint *)

Module WebsocketEndpoint.

(** How a call of [websocket_endpoint] ends: the socket was closed before
    it was accepted, or it was served, and the coroutine returned or
    raised. *)
Inductive result : Type :=
| closed (code : Z) (reason : string)
| served (outcome : Outcome ConnectionManager.t).

(** [websocket_endpoint] (lines 156-248). [verify_token] and
    [get_session] are what the two calls of the authentication block
    yield, a [Raised] standing for any exception inside that block;
    [accept] is the outcome of [websocket.accept()]. *)
Definition websocket_endpoint
    (verify_token : Outcome (option User))
    (get_session : Outcome (option SessionRow))
    (accept : Outcome unit)
    (transport : WebSocket -> Outcome unit)
    (orchestrators : gmap string AuraOrchestrator.t)
    (websocket : WebSocket) (session_id : string)
    (inbound : list Endpoint.Inbound) (mgr : ConnectionManager.t) : result :=
  match verify_token with
  | Raised e => closed 1011 ("Authentication error: " +:+ e)
  | Returned None => closed 1008 "Authentication failed"
  | Returned (Some user) =>
      match get_session with
      | Raised e => closed 1011 ("Authentication error: " +:+ e)
      | Returned None => closed 1008 "Unauthorized"
      | Returned (Some session) =>
          if decide (row_user_id session = user_id user) then
            served
              (bind (ConnectionManager.connect accept websocket session_id mgr)
                 (fun mgr1 =>
                    bind (ConnectionManager.send_personal_message transport
                            (connected session_id) websocket mgr1)
                      (fun mgr2 =>
                         Endpoint.receive_loop transport orchestrators
                           websocket session_id inbound mgr2)))
          else closed 1008 "Unauthorized"
      end
  end.

(** An inbound event that ends the receive loop. *)
Definition ends_connection (i : Endpoint.Inbound) : bool :=
  match i with
  | Endpoint.Received _ => false
  | Endpoint.TransportClosed => true
  | Endpoint.Failed _ => true
  end.

End WebsocketEndpoint.

(** ** [api/aura_routes.py] *)

Module Routes.

(** What a route handler does: it returns, raises an [HTTPException], or
    lets another exception escape. *)
Inductive HTTP (A : Type) : Type :=
| Ok (a : A)
| HTTPException (status_code : Z) (detail : string)
| Uncaught (e : string).
Arguments Ok {A} a.
Arguments HTTPException {A} status_code detail.
Arguments Uncaught {A} e.

(** [verify_auth]; [authorization] is the header, [None] when absent, and
    [verify_token] the call of the authentication service. *)
Definition verify_auth (verify_token : string -> Outcome (option User))
    (authorization : option string) : HTTP User :=
  match authorization with
  | None => HTTPException 401 "Authorization header required"
  | Some header =>
      if decide (header = "") then
        HTTPException 401 "Authorization header required"
      else
        match PyStr.split header with
        | [scheme; token] =>
            if decide (Py.lower scheme = "bearer") then
              match verify_token token with
              | Raised e => Uncaught e
              | Returned None =>
                  HTTPException 401 "Invalid or expired token"
              | Returned (Some user) => Ok user
              end
            else HTTPException 401 "Invalid authorization header format"
        | _ => HTTPException 401 "Invalid authorization header format"
        end
  end.

(** A usage record as [get_user_usage] returns it; a key that the row
    lacks is [None]. *)
Record UsageRow : Type := mkUsageRow {
  usage_type : option string;
  quantity : option Z
}.

(** The [stats] dictionary of [get_usage_stats]. *)
Record Stats : Type := mkStats {
  total_agent_calls : Z;
  total_quantum_execs : Z;
  total_messages : Z;
  total_autopilot_steps : Z;
  total_credits_used : Q
}.

Definition no_usage : Stats :=
  {| total_agent_calls := 0; total_quantum_execs := 0; total_messages := 0;
     total_autopilot_steps := 0; total_credits_used := 0.0 |}.

(** The body of [for record in usage_records] (lines 396-411). *)
Definition add_usage (stats : Stats) (record : UsageRow) : Stats :=
  let kind := default "" (usage_type record) in
  let n := default 0%Z (quantity record) in
  let counted :=
    if decide (kind = "agent_call") then
      {| total_agent_calls := total_agent_calls stats + n;
         total_quantum_execs := total_quantum_execs stats;
         total_messages := total_messages stats;
         total_autopilot_steps := total_autopilot_steps stats;
         total_credits_used := total_credits_used stats |}
    else if decide (kind = "quantum_exec") then
      {| total_agent_calls := total_agent_calls stats;
         total_quantum_execs := total_quantum_execs stats + n;
         total_messages := total_messages stats;
         total_autopilot_steps := total_autopilot_steps stats;
         total_credits_used := total_credits_used stats |}
    else if decide (kind = "message") then
      {| total_agent_calls := total_agent_calls stats;
         total_quantum_execs := total_quantum_execs stats;
         total_messages := total_messages stats + n;
         total_autopilot_steps := total_autopilot_steps stats;
         total_credits_used := total_credits_used stats |}
    else if decide (kind = "autopilot_step") then
      {| total_agent_calls := total_agent_calls stats;
         total_quantum_execs := total_quantum_execs stats;
         total_messages := total_messages stats;
         total_autopilot_steps := total_autopilot_steps stats + n;
         total_credits_used := total_credits_used stats |}
    else stats in
  let cost := inject_Z n * 0.01 in
  {| total_agent_calls := total_agent_calls counted;
     total_quantum_execs := total_quantum_execs counted;
     total_messages := total_messages counted;
     total_autopilot_steps := total_autopilot_steps counted;
     total_credits_used := total_credits_used counted + cost |}.

(** "Aggregate statistics" of [get_usage_stats]. *)
Definition aggregate_usage (usage_records : list UsageRow) : Stats :=
  fold_left add_usage usage_records no_usage.

(** The registry [_orchestrators] with the state of the completion service
    that its orchestrators share. *)
Record state : Type := mkState {
  orchestrators : gmap string AuraOrchestrator.t;
  llm_calls : nat;
  observed : list AuraOrchestrator.Event
}.

(** What the persistence service does during one call of a handler. *)
Record Ports : Type := mkPorts {
  clients : Outcome unit;
  get_session : string -> option SessionRow;
  create_session : Outcome (option SessionRow);
  end_session_port : Outcome unit;
  save_user_message : Outcome unit;
  save_assistant_message : Outcome unit;
  log_usage : Outcome unit
}.

(** The ownership check shared by the handlers: 404 for an unknown
    session, 403 for a session of another user. *)
Definition owned_session (ports : Ports) (forbidden : string)
    (session_id : string) (user : User) : HTTP SessionRow :=
  match get_session ports session_id with
  | None => HTTPException 404 "Session not found"
  | Some session =>
      if decide (row_user_id session = user_id user) then Ok session
      else HTTPException 403 forbidden
  end.

Definition world_of (o : AuraOrchestrator.t) (st : state)
  : AuraOrchestrator.World :=
  {| AuraOrchestrator.orch := o;
     AuraOrchestrator.calls := llm_calls st;
     AuraOrchestrator.events := observed st |}.

Definition store (session_id : string) (w : AuraOrchestrator.World)
    (st : state) : state :=
  {| orchestrators := <[session_id := AuraOrchestrator.orch w]>
                        (orchestrators st);
     llm_calls := AuraOrchestrator.calls w;
     observed := AuraOrchestrator.events w |}.

Definition with_session_id (session_id : string) (r : AuraResponse)
  : AuraResponse :=
  {| resp_session_id := session_id;
     final_response := final_response r;
     agent_responses := agent_responses r;
     resp_total_iterations := resp_total_iterations r;
     consciousness_metrics := consciousness_metrics r;
     quantum_backend_used := quantum_backend_used r;
     resp_traces := resp_traces r |}.

(** [aura_chat] (lines 206-280). [session_id] is [request.session_id];
    [fresh_id] names the agents of an orchestrator created by this call. *)
Definition aura_chat (ports : Ports)
    (complete : nat -> Outcome string)
    (heuristic : AgentType -> string -> Outcome Q)
    (quantum : option (QuantumMetrics * string))
    (fresh_id : AgentType -> string)
    (request : AuraRequest) (session_id : option string) (user : User)
    (st : state) : state * HTTP AuraResponse :=
  let failed e := HTTPException 500 ("AURA chat failed: " +:+ e) in
  match clients ports with
  | Raised e => (st, failed e)
  | Returned _ =>
      let resolved : HTTP string :=
        match session_id with
        | Some sid =>
            if decide (sid = "") then
              match create_session ports with
              | Raised e => HTTPException 500 ("AURA chat failed: " +:+ e)
              | Returned None =>
                  HTTPException 500
                    ("AURA chat failed: "
                     +:+ "'NoneType' object is not subscriptable")
              | Returned (Some session) => Ok (row_id session)
              end
            else
              match owned_session ports "Unauthorized" sid user with
              | Ok _ => Ok sid
              | HTTPException code detail => HTTPException code detail
              | Uncaught e => HTTPException 500 ("AURA chat failed: " +:+ e)
              end
        | None =>
            match create_session ports with
            | Raised e => HTTPException 500 ("AURA chat failed: " +:+ e)
            | Returned None =>
                HTTPException 500
                  ("AURA chat failed: "
                   +:+ "'NoneType' object is not subscriptable")
            | Returned (Some session) => Ok (row_id session)
            end
        end in
      match resolved with
      | HTTPException code detail => (st, HTTPException code detail)
      | Uncaught e => (st, failed e)
      | Ok sid =>
          let orchestrator :=
            match orchestrators st !! sid with
            | Some o => o
            | None => AuraOrchestrator.init sid fresh_id
            end in
          let '(w, outcome) :=
            AuraOrchestrator.process_request complete heuristic quantum
              request (world_of orchestrator st) in
          let st' := store sid w st in
          match outcome with
          | Raised e => (st', failed e)
          | Returned response =>
              match save_user_message ports with
              | Raised e => (st', failed e)
              | Returned _ =>
                  match save_assistant_message ports with
                  | Raised e => (st', failed e)
                  | Returned _ =>
                      match log_usage ports with
                      | Raised e => (st', failed e)
                      | Returned _ => (st', Ok (with_session_id sid response))
                      end
                  end
              end
          end
      end
  end.

(** [end_session] (lines 165-198). *)
Definition end_session (ports : Ports) (session_id : string) (user : User)
    (st : state) : state * HTTP string :=
  let failed e := HTTPException 500 ("Failed to end session: " +:+ e) in
  match clients ports with
  | Raised e => (st, failed e)
  | Returned _ =>
      match owned_session ports "Unauthorized" session_id user with
      | HTTPException code detail => (st, HTTPException code detail)
      | Uncaught e => (st, failed e)
      | Ok _ =>
          match end_session_port ports with
          | Raised e => (st, failed e)
          | Returned _ =>
              ({| orchestrators := delete session_id (orchestrators st);
                  llm_calls := llm_calls st;
                  observed := observed st |},
               Ok session_id)
          end
      end
  end.

(** [get_agent_lattice] (lines 288-319). *)
Definition get_agent_lattice (ports : Ports) (session_id : string)
    (user : User) (st : state) : HTTP AgentLattice :=
  let failed e := HTTPException 500 ("Failed to get lattice: " +:+ e) in
  match clients ports with
  | Raised e => failed e
  | Returned _ =>
      match owned_session ports "Unauthorized" session_id user with
      | HTTPException code detail => HTTPException code detail
      | Uncaught e => failed e
      | Ok _ =>
          match orchestrators st !! session_id with
          | None =>
              HTTPException 404 "No active orchestrator for this session"
          | Some orchestrator =>
              match AuraOrchestrator.get_lattice_state orchestrator with
              | Raised e => failed e
              | Returned lattice => Ok lattice
              end
          end
      end
  end.

End Routes.

(** ** Vocabulary for the endpoint and the routes *)

(** No character of the string is whitespace. *)
Fixpoint no_space (s : string) : bool :=
  match s with
  | EmptyString => true
  | String c s' => (negb (PyStr.is_space c) && no_space s')%bool
  end.

(** Every character of the string is whitespace. *)
Fixpoint all_space (s : string) : bool :=
  match s with
  | EmptyString => true
  | String c s' => (PyStr.is_space c && all_space s')%bool
  end.

(** The quantities of the rows whose type is [kind]. *)
Definition quantities_of (kind : string) (rows : list Routes.UsageRow)
  : list Z :=
  map (fun r => default 0%Z (Routes.quantity r))
      (List.filter
         (fun r => bool_decide (default "" (Routes.usage_type r) = kind))
         rows).

Definition sum_Z (l : list Z) : Z := foldr Z.add 0%Z l.

(** The connections counted over all sessions. *)
Definition all_connections (mgr : ConnectionManager.t) : nat :=
  ConnectionManager.get_connection_count None mgr.

(** * Properties *)

(** ** Python builtins *)

Lemma last_n_length {A} (n : nat) (l : list A) :
  length (Py.last_n n l) = Nat.min n (length l).
Proof. unfold Py.last_n. rewrite length_drop. lia. Qed.

Lemma last_n_app_last_n {A} (n : nat) (xs ys : list A) :
  Py.last_n n (Py.last_n n xs ++ ys) = Py.last_n n (xs ++ ys).
Proof.
  unfold Py.last_n.
  rewrite <- (drop_app_le xs ys (length xs - n)) by lia.
  rewrite drop_drop. f_equal.
  rewrite length_drop, !length_app. lia.
Qed.

Lemma last_n_suffix {A} (n : nat) (l : list A) :
  l = take (length l - n) l ++ Py.last_n n l.
Proof. unfold Py.last_n. by rewrite take_drop. Qed.

Lemma py_min_spec (a b : Q) : Py.min a b == Qmin a b.
Proof.
  unfold Py.min, Py.ltb.
  destruct (Qle_bool a b) eqn:E; simpl.
  - apply Qle_bool_iff in E. symmetry. by apply Q.min_l.
  - assert (~ a <= b) by (intros H; apply Qle_bool_iff in H; congruence).
    symmetry. apply Q.min_r. lra.
Qed.

Lemma py_max_spec (a b : Q) : Py.max a b == Qmax a b.
Proof.
  unfold Py.max, Py.ltb.
  destruct (Qle_bool b a) eqn:E; simpl.
  - apply Qle_bool_iff in E. symmetry. by apply Q.max_l.
  - assert (~ b <= a) by (intros H; apply Qle_bool_iff in H; congruence).
    symmetry. apply Q.max_r. lra.
Qed.

Lemma ltb_true (a b : Q) : Py.ltb a b = true <-> a < b.
Proof.
  unfold Py.ltb. rewrite negb_true_iff.
  destruct (Qle_bool b a) eqn:E.
  - apply Qle_bool_iff in E. split; [done | lra].
  - split; [intros _ | done].
    destruct (Qlt_le_dec a b) as [?|H]; [done |].
    apply Qle_bool_iff in H. congruence.
Qed.

Lemma ltb_false (a b : Q) : Py.ltb a b = false <-> b <= a.
Proof.
  destruct (Py.ltb a b) eqn:E.
  - apply ltb_true in E. split; [done | lra].
  - split; [intros _ | done].
    destruct (Qlt_le_dec a b) as [H|?]; [| done].
    apply ltb_true in H. congruence.
Qed.

(** Turns the outcomes of float comparisons into inequalities. *)
Ltac compare_floats :=
  repeat match goal with
         | H : Py.ltb _ _ = true |- _ => apply ltb_true in H
         | H : Py.ltb _ _ = false |- _ => apply ltb_false in H
         end.

Lemma clamp_in_unit (score : Q) :
  0 <= Py.max 0.0 (Py.min score 1.0) <= 1.
Proof.
  unfold Py.max, Py.min.
  destruct (Py.ltb 1.0 score) eqn:E1;
    destruct (Py.ltb 0.0 _) eqn:E2;
    compare_floats; lra.
Qed.

(** ** Agent memory and vector *)

Section AgentInvariants.

Implicit Types (a : BaseAgent.t) (o : BaseAgent.op) (ops : list BaseAgent.op).

Lemma step_short_term a o (acc : list string) :
  short_term (BaseAgent.memory a) = Py.last_n 10 acc →
  short_term (BaseAgent.memory (BaseAgent.step a o))
  = Py.last_n 10 (BaseAgent.appended [o] acc).
Proof.
  intros Ha. destruct o as [st lt wc | | | |]; simpl; try done.
  destruct st as [new|], lt, wc; simpl; rewrite ?Ha;
    by rewrite ?last_n_app_last_n.
Qed.

Lemma appended_cons o ops (acc : list string) :
  BaseAgent.appended (o :: ops) acc
  = BaseAgent.appended ops (BaseAgent.appended [o] acc).
Proof. destruct o as [[?|] ? ? | | | |]; done. Qed.

Lemma run_short_term ops : ∀ a (acc : list string),
  short_term (BaseAgent.memory a) = Py.last_n 10 acc →
  short_term (BaseAgent.memory (BaseAgent.run ops a))
  = Py.last_n 10 (BaseAgent.appended ops acc).
Proof.
  induction ops as [|o ops IH]; intros a acc Ha; [done |].
  rewrite appended_cons. apply IH. by apply step_short_term.
Qed.

Lemma step_vector_ok a o :
  BaseAgent.vector_ok (BaseAgent.vector a) →
  BaseAgent.vector_ok (BaseAgent.vector (BaseAgent.step a o)).
Proof.
  intros (Hw & Hg & Hs).
  destruct o as [st lt wc | score | | |]; simpl.
  all: repeat split; try apply Hw; try apply Hg; try apply Hs.
  all: try apply clamp_in_unit.
  all: unfold Qle; simpl; lia.
Qed.

Lemma run_vector_ok ops : ∀ a,
  BaseAgent.vector_ok (BaseAgent.vector a) →
  BaseAgent.vector_ok (BaseAgent.vector (BaseAgent.run ops a)).
Proof.
  induction ops as [|o ops IH]; intros a Ha; [done |].
  apply IH. by apply step_vector_ok.
Qed.

Lemma init_vector_ok (id : string) (ty : AgentType) :
  BaseAgent.vector_ok (BaseAgent.vector (BaseAgent.init id ty)).
Proof. repeat split; unfold Qle; simpl; lia. Qed.

Lemma complete_task_memory (done_action error_action : string)
    (quality : string -> Outcome Q) (answer : Outcome string) a :
  BaseAgent.memory
    (fst (Agents.complete_task done_action error_action quality answer a))
  = BaseAgent.memory a.
Proof.
  unfold Agents.complete_task, Agents._call_claude, Agents.on_error,
    new_AgentResponse.
  destruct answer as [text|e]; [| done].
  destruct (quality text) as [q|e]; [| done].
  by destruct (field_in_unit q).
Qed.

Lemma complete_task_vector_ok (done_action error_action : string)
    (quality : string -> Outcome Q) (answer : Outcome string) a :
  BaseAgent.vector_ok (BaseAgent.vector a) →
  BaseAgent.vector_ok
    (BaseAgent.vector
       (fst (Agents.complete_task done_action error_action quality answer a))).
Proof.
  intros Ha.
  pose proof (λ q, step_vector_ok a (BaseAgent.UpdateW2 q) Ha) as Hq.
  unfold Agents.complete_task, Agents._call_claude, Agents.on_error,
    new_AgentResponse.
  destruct answer as [text|e]; [| done].
  destruct (quality text) as [q|e]; [| done].
  destruct (field_in_unit q); apply Hq.
Qed.

(** What a call of [process] does to the memory and the vector, for the
    five workflow variants and for the synthesizer. *)
Lemma variant_process_short_term (heuristic : AgentType -> string -> Outcome Q)
    (answer : Outcome string) (task : string) a :
  short_term
    (BaseAgent.memory (fst (Agents.variant_process heuristic answer task a)))
  = Py.last_n 10
      (short_term (BaseAgent.memory a)
       ++ [Agents.memory_label (BaseAgent.self_type a)
           +:+ Py.str_take 100 task]).
Proof. unfold Agents.variant_process. by rewrite complete_task_memory. Qed.

Lemma synthesizer_process_short_term (answer : Outcome string)
    (task : string) (context : option Context) a :
  short_term
    (BaseAgent.memory (fst (SynthesizerAgent.process answer task context a)))
  = Py.last_n 10
      (short_term (BaseAgent.memory a)
       ++ ["Synthesizing: "
           +:+ pretty (length (SynthesizerAgent.agent_outputs context))
           +:+ " agent outputs"]).
Proof. unfold SynthesizerAgent.process. by rewrite complete_task_memory. Qed.

Lemma variant_process_vector_ok (heuristic : AgentType -> string -> Outcome Q)
    (answer : Outcome string) (task : string) a :
  BaseAgent.vector_ok (BaseAgent.vector a) →
  BaseAgent.vector_ok
    (BaseAgent.vector (fst (Agents.variant_process heuristic answer task a))).
Proof. intros Ha. by apply complete_task_vector_ok. Qed.

Lemma synthesizer_process_vector_ok (answer : Outcome string)
    (task : string) (context : option Context) a :
  BaseAgent.vector_ok (BaseAgent.vector a) →
  BaseAgent.vector_ok
    (BaseAgent.vector (fst (SynthesizerAgent.process answer task context a))).
Proof. intros Ha. by apply complete_task_vector_ok. Qed.

(** C7. Whatever an agent has gone through since its construction, its
    [short_term] memory holds at most 10 entries, and they are the last 10
    of everything handed to [update_memory] since the last reset, in
    insertion order: what is dropped is a prefix, the oldest entries. A
    call of [process] appends its one entry under the same cap. *)
Theorem short_term_keeps_ten_most_recent (id : string) (ty : AgentType) ops
    (heuristic : AgentType -> string -> Outcome Q) (answer : Outcome string)
    (task : string) (context : option Context) :
  let a := BaseAgent.run ops (BaseAgent.init id ty) in
  let history := BaseAgent.appended ops [] in
  let kept := short_term (BaseAgent.memory a) in
  let after_variant :=
    short_term
      (BaseAgent.memory (fst (Agents.variant_process heuristic answer task a)))
  in
  let after_synthesis :=
    short_term
      (BaseAgent.memory
         (fst (SynthesizerAgent.process answer task context a))) in
  (length kept ≤ 10)%nat ∧
  length kept = Nat.min 10 (length history) ∧
  kept = Py.last_n 10 history ∧
  history = take (length history - 10) history ++ kept ∧
  (length after_variant ≤ 10)%nat ∧
  after_variant
  = Py.last_n 10
      (history ++ [Agents.memory_label (BaseAgent.self_type a)
                   +:+ Py.str_take 100 task]) ∧
  (length after_synthesis ≤ 10)%nat ∧
  after_synthesis
  = Py.last_n 10
      (history ++ ["Synthesizing: "
                   +:+ pretty (length (SynthesizerAgent.agent_outputs context))
                   +:+ " agent outputs"]).
Proof.
  intros a history kept after_variant after_synthesis.
  assert (Hk : kept = Py.last_n 10 history).
  { subst a history kept. by apply run_short_term. }
  assert (Hv : after_variant
               = Py.last_n 10
                   (history ++ [Agents.memory_label (BaseAgent.self_type a)
                                +:+ Py.str_take 100 task])).
  { subst after_variant. rewrite variant_process_short_term. fold kept.
    by rewrite Hk, last_n_app_last_n. }
  assert (Hs : after_synthesis
               = Py.last_n 10
                   (history
                    ++ ["Synthesizing: "
                        +:+ pretty
                              (length (SynthesizerAgent.agent_outputs context))
                        +:+ " agent outputs"])).
  { subst after_synthesis. rewrite synthesizer_process_short_term. fold kept.
    by rewrite Hk, last_n_app_last_n. }
  rewrite Hv, Hs, Hk, !last_n_length.
  repeat split; try lia. apply last_n_suffix.
Qed.

(** C8. Whatever an agent has gone through since its construction, the
    weight, the gamma resistance and the optimisation score of its vector
    lie in [0,1], also after a further call of [process]; after
    [update_w2_optimization score], for any rational [score], the stored
    score is [score] clamped to [0,1], so [-5] is stored as [0] and [5]
    as [1]. *)
Theorem vector_stays_in_unit_interval (id : string) (ty : AgentType) ops
    (score : Q) (heuristic : AgentType -> string -> Outcome Q)
    (answer : Outcome string) (task : string) (context : option Context) :
  let a := BaseAgent.run ops (BaseAgent.init id ty) in
  let stored s :=
    w2_optimization (BaseAgent.vector (BaseAgent.update_w2_optimization s a)) in
  BaseAgent.vector_ok (BaseAgent.vector a) ∧
  BaseAgent.vector_ok
    (BaseAgent.vector (BaseAgent.update_w2_optimization score a)) ∧
  BaseAgent.vector_ok
    (BaseAgent.vector (fst (Agents.variant_process heuristic answer task a))) ∧
  BaseAgent.vector_ok
    (BaseAgent.vector
       (fst (SynthesizerAgent.process answer task context a))) ∧
  stored score == Qmax 0 (Qmin score 1) ∧
  stored (-5) == 0 ∧
  stored 5 == 1.
Proof.
  intros a stored.
  assert (Ha : BaseAgent.vector_ok (BaseAgent.vector a))
    by apply run_vector_ok, init_vector_ok.
  split; [done |]. split.
  { by apply (step_vector_ok a (BaseAgent.UpdateW2 score)). }
  split; [by apply variant_process_vector_ok |].
  split; [by apply synthesizer_process_vector_ok |].
  subst stored. simpl. split; [| done].
  rewrite py_max_spec, py_min_spec.
  apply Q.max_compat; [done | apply Q.min_compat; done].
Qed.

End AgentInvariants.

(** ** Synthesizer confidence *)

Section SynthesizerConfidence.

Lemma quality_bounds (n : nat) :
  0 <= SynthesizerAgent.quality n /\ SynthesizerAgent.quality n <= 0.95.
Proof.
  unfold SynthesizerAgent.quality.
  destruct (0 <? n)%nat; [| split; done].
  assert (0 <= inject_Z (Z.of_nat n)).
  { change 0 with (inject_Z 0). rewrite <- Zle_Qle. lia. }
  generalize dependent (inject_Z (Z.of_nat n)). intros x Hx.
  unfold Py.min. destruct (Py.ltb _ _) eqn:E;
    compare_floats; split; lra.
Qed.


Lemma quality_valid (n : nat) :
  field_in_unit (SynthesizerAgent.quality n) = true.
Proof.
  destruct (quality_bounds n).
  unfold field_in_unit. apply andb_true_iff.
  split; apply Qle_bool_iff; lra.
Qed.

(** A synthesizer invocation whose completion call answers returns a
    response whose confidence is the quality of the number of outputs. *)
Lemma synthesizer_returns (text task : string) (c : option Context)
    (a : BaseAgent.t) :
  ∃ b r,
    SynthesizerAgent.process (Returned text) task c a = (b, Returned r) ∧
    confidence r
    = SynthesizerAgent.quality (length (SynthesizerAgent.agent_outputs c)).
Proof.
  unfold SynthesizerAgent.process, Agents.complete_task, new_AgentResponse.
  simpl. rewrite quality_valid. eauto.
Qed.




End SynthesizerConfidence.

(** ** Lattice coherence *)

Section LatticeCoherence.

Lemma fold_left_Qplus (xs : list Q) : ∀ a,
  fold_left Qplus xs a == a + fold_right Qplus 0 xs.
Proof.
  induction xs as [|x xs IH]; intros a; simpl; [lra |].
  rewrite IH. lra.
Qed.

Lemma sum_fold_right (xs : list Q) : Py.sum xs == fold_right Qplus 0 xs.
Proof. unfold Py.sum. rewrite fold_left_Qplus. lra. Qed.




Lemma coherence_is_mean (o : AuraOrchestrator.t) :
  Py.sum (AuraOrchestrator.scores o)
  / inject_Z (Z.of_nat (length all_agent_types)) == mean_score o.
Proof. rewrite sum_fold_right. unfold mean_score. simpl. field. Qed.

Lemma coherence_valid (o : AuraOrchestrator.t) :
  vectors_ok o →
  field_in_unit
    (Py.sum (AuraOrchestrator.scores o)
     / inject_Z (Z.of_nat (length all_agent_types))) = true.
Proof.
  intros Hok. unfold field_in_unit. apply andb_true_iff.
  rewrite !Qle_bool_iff, coherence_is_mean. unfold mean_score. cbv zeta.
  pose proof (Hok ARCHITECT) as (_ & _ & ?).
  pose proof (Hok ENGINEER) as (_ & _ & ?).
  pose proof (Hok REVIEWER) as (_ & _ & ?).
  pose proof (Hok DEBUGGER) as (_ & _ & ?).
  pose proof (Hok RESEARCH) as (_ & _ & ?).
  pose proof (Hok SYNTHESIZER) as (_ & _ & ?).
  unfold BaseAgent.unit_interval in *.
  split; [apply Qle_shift_div_l | apply Qle_shift_div_r]; lra.
Qed.

Lemma get_lattice_state_returns (o : AuraOrchestrator.t) :
  vectors_ok o →
  ∃ l, AuraOrchestrator.get_lattice_state o = Returned l.
Proof.
  intros Hok.
  unfold AuraOrchestrator.get_lattice_state, new_AgentLattice.
  rewrite coherence_valid by done. eauto.
Qed.




End LatticeCoherence.

(** ** Workflow classification *)

Section WorkflowClassification.

Lemma startswith_spec (kw : string) : ∀ s,
  Py.startswith kw s = true ↔ ∃ post, s = kw +:+ post.
Proof.
  induction kw as [|a kw IH]; intros s; simpl.
  - split; [intros _; by exists s | done].
  - destruct s as [|b s]; simpl.
    + split; [done | intros (post & H); discriminate].
    + destruct (Ascii.eqb_spec a b) as [->|Hne].
      * rewrite IH. split; intros (post & H); exists post.
        -- by rewrite H.
        -- by injection H.
      * split; [done | intros (post & H)]. injection H as ??. by subst.
Qed.

Lemma contains_spec (kw : string) : ∀ s,
  Py.contains kw s = true ↔ occurs_in kw s.
Proof.
  induction s as [|c s IH]; simpl; rewrite orb_true_iff, startswith_spec.
  - split.
    + intros [(post & H)|?]; [| done]. by exists "", post.
    + intros (pre & post & H). left. exists post.
      destruct pre; [done | discriminate].
  - rewrite IH. split.
    + intros [(post & H)|(pre & post & H)].
      * by exists "", post.
      * exists (String c pre), post. simpl. by rewrite H.
    + intros (pre & post & H). destruct pre as [|c' pre]; simpl in H.
      * left. by exists post.
      * right. injection H as ??. by exists pre, post.
Qed.

Lemma any_in_spec (kws : list string) (s : string) :
  Py.any_in kws s = true ↔ mentions kws s.
Proof.
  unfold Py.any_in, mentions. rewrite existsb_exists.
  split; intros (kw & Hin & H); exists kw.
  - by rewrite list_elem_of_In, <- contains_spec.
  - by rewrite <- list_elem_of_In, contains_spec.
Qed.

Lemma any_in_false (kws : list string) (s : string) :
  Py.any_in kws s = false ↔ ¬ mentions kws s.
Proof.
  rewrite <- any_in_spec. by destruct (Py.any_in kws s).
Qed.

(** C4. The workflow is decided by the lowercased prompt alone, through
    four cases tried in order: a debugging keyword gives
    [Debugger, Engineer, Reviewer]; else a review keyword gives
    [Reviewer, Engineer]; else a research keyword gives
    [Research, Architect]; else the default [Architect, Engineer, Reviewer].
    In particular a prompt with both a debugging and a review keyword gets
    the debugging workflow. *)
Theorem workflow_is_priority_ordered (request : AuraRequest) :
  let text := Py.lower (prompt request) in
  let workflow := AuraOrchestrator._determine_workflow request in
  let debugging := ["error"; "bug"; "debug"; "fix"; "broken"; "failing"] in
  let review := ["review"; "check"; "audit"; "improve"] in
  let research := ["how to"; "what is"; "explain"; "research"; "find"] in
  ((mentions debugging text ∧
    workflow = [DEBUGGER; ENGINEER; REVIEWER]) ∨
   (¬ mentions debugging text ∧ mentions review text ∧
    workflow = [REVIEWER; ENGINEER]) ∨
   (¬ mentions debugging text ∧ ¬ mentions review text ∧
    mentions research text ∧
    workflow = [RESEARCH; ARCHITECT]) ∨
   (¬ mentions debugging text ∧ ¬ mentions review text ∧
    ¬ mentions research text ∧
    workflow = [ARCHITECT; ENGINEER; REVIEWER])) ∧
  (mentions debugging text → mentions review text →
   workflow = [DEBUGGER; ENGINEER; REVIEWER]).
Proof.
  intros text workflow debugging review research.
  subst workflow. unfold AuraOrchestrator._determine_workflow.
  fold text.
  change AuraOrchestrator.debugging_keywords with debugging.
  change AuraOrchestrator.review_keywords with review.
  change AuraOrchestrator.research_keywords with research.
  destruct (Py.any_in debugging text) eqn:Ed;
    [apply any_in_spec in Ed | apply any_in_false in Ed].
  { split; [left |]; done. }
  split; [right | done].
  destruct (Py.any_in review text) eqn:Ev;
    [apply any_in_spec in Ev | apply any_in_false in Ev].
  { left; done. }
  right.
  destruct (Py.any_in research text) eqn:Er;
    [apply any_in_spec in Er | apply any_in_false in Er]; [left | right]; done.
Qed.

(** The priority rule at a prompt with "fix", "error" and "review". *)
Lemma workflow_is_priority_ordered_witness :
  mentions ["error"; "bug"; "debug"; "fix"; "broken"; "failing"]
    (Py.lower "Please FIX this error and review it") ∧
  mentions ["review"; "check"; "audit"; "improve"]
    (Py.lower "Please FIX this error and review it") ∧
  AuraOrchestrator._determine_workflow
    (mkAuraRequest "Please FIX this error and review it" all_agent_types 5
       false true)
  = [DEBUGGER; ENGINEER; REVIEWER].
Proof.
  assert (Hd : mentions ["error"; "bug"; "debug"; "fix"; "broken"; "failing"]
                 (Py.lower "Please FIX this error and review it"))
    by (apply any_in_spec; reflexivity).
  assert (Hr : mentions ["review"; "check"; "audit"; "improve"]
                 (Py.lower "Please FIX this error and review it"))
    by (apply any_in_spec; reflexivity).
  split; [exact Hd | split; [exact Hr |]].
  exact (proj2 (workflow_is_priority_ordered
                  (mkAuraRequest "Please FIX this error and review it"
                     all_agent_types 5 false true)) Hd Hr).
Defined.

Example workflow_examples :
  let request p := mkAuraRequest p all_agent_types 5 false true in
  AuraOrchestrator._determine_workflow (request "please fix this error")
  = [DEBUGGER; ENGINEER; REVIEWER] ∧
  AuraOrchestrator._determine_workflow (request "can you review my code")
  = [REVIEWER; ENGINEER] ∧
  AuraOrchestrator._determine_workflow (request "what is a qubit")
  = [RESEARCH; ARCHITECT] ∧
  AuraOrchestrator._determine_workflow (request "build me a login page")
  = [ARCHITECT; ENGINEER; REVIEWER].
Proof. repeat split. Qed.

End WorkflowClassification.

(** ** Connection manager *)

#[local] Close Scope Q_scope.

Section Registry.

Implicit Types (mgr : ConnectionManager.t) (ws : WebSocket) (sid : string).

Lemma disconnect_delivered ws sid mgr :
  ConnectionManager.delivered (ConnectionManager.disconnect ws sid mgr)
  = ConnectionManager.delivered mgr.
Proof.
  unfold ConnectionManager.disconnect.
  by destruct (ConnectionManager.active_connections mgr !! sid).
Qed.

Lemma disconnect_other_session ws sid mgr (sid' : string) :
  sid' ≠ sid →
  ConnectionManager.active_connections
    (ConnectionManager.disconnect ws sid mgr) !! sid'
  = ConnectionManager.active_connections mgr !! sid'.
Proof.
  intros Hne. unfold ConnectionManager.disconnect.
  destruct (ConnectionManager.active_connections mgr !! sid) eqn:E; [| done].
  simpl. case_decide.
  - by rewrite lookup_delete_ne, lookup_insert_ne.
  - by rewrite lookup_insert_ne.
Qed.

Lemma disconnect_same_session ws sid mgr :
  ConnectionManager.connections_of (ConnectionManager.disconnect ws sid mgr) sid
  = ConnectionManager.connections_of mgr sid ∖ {[ws]}.
Proof.
  unfold ConnectionManager.connections_of, ConnectionManager.disconnect.
  destruct (ConnectionManager.active_connections mgr !! sid) as [s|] eqn:E.
  - simpl. case_decide as Hs.
    + rewrite lookup_delete_eq. simpl. by rewrite Hs.
    + by rewrite lookup_insert_eq.
  - rewrite E. simpl. by rewrite empty_difference_L.
Qed.

Lemma disconnect_registry_ok ws sid mgr :
  ConnectionManager.registry_ok mgr →
  ConnectionManager.registry_ok (ConnectionManager.disconnect ws sid mgr).
Proof.
  intros Hok sid' s' Hs'.
  destruct (decide (sid' = sid)) as [->|Hne].
  - unfold ConnectionManager.disconnect in Hs'.
    destruct (ConnectionManager.active_connections mgr !! sid) as [s|] eqn:E.
    + simpl in Hs'. case_decide as Hs.
      * by rewrite lookup_delete_eq in Hs'.
      * rewrite lookup_insert_eq in Hs'. by injection Hs' as <-.
    + by rewrite E in Hs'.
  - rewrite disconnect_other_session in Hs' by done. by eapply Hok.
Qed.

Lemma disconnect_absent ws sid mgr :
  ConnectionManager.registry_ok mgr →
  ws ∉ ConnectionManager.connections_of mgr sid →
  ConnectionManager.disconnect ws sid mgr = mgr.
Proof.
  intros Hok Hws.
  unfold ConnectionManager.disconnect, ConnectionManager.connections_of in *.
  destruct (ConnectionManager.active_connections mgr !! sid) as [s|] eqn:E;
    [| done].
  simpl in Hws.
  assert (Hs : s ∖ {[ws]} = s)
    by by apply difference_disjoint_L, disjoint_singleton_r.
  rewrite Hs. rewrite decide_False by by eapply Hok.
  rewrite insert_id by done. by destruct mgr.
Qed.

Lemma connect_registry_ok (accept : Outcome unit) ws sid mgr mgr' :
  ConnectionManager.registry_ok mgr →
  ConnectionManager.connect accept ws sid mgr = Returned mgr' →
  ConnectionManager.registry_ok mgr'.
Proof.
  intros Hok. unfold ConnectionManager.connect.
  destruct accept as [[]|e]; simpl; [| done].
  intros [= <-] sid' s' Hs'. simpl in Hs'.
  destruct (decide (sid' = sid)) as [->|Hne].
  - rewrite lookup_alter_eq in Hs'.
    destruct (ConnectionManager.active_connections mgr !! sid) as [s|] eqn:E.
    + rewrite E in Hs'. simpl in Hs'. injection Hs' as <-. set_solver.
    + rewrite lookup_insert_eq in Hs'. simpl in Hs'. injection Hs' as <-.
      set_solver.
  - rewrite lookup_alter_ne in Hs' by done.
    destruct (ConnectionManager.active_connections mgr !! sid) as [s|] eqn:E.
    + by eapply Hok.
    + rewrite lookup_insert_ne in Hs' by done. by eapply Hok.
Qed.

Lemma connect_registers ws sid mgr :
  ∃ mgr',
    ConnectionManager.connect (Returned ()) ws sid mgr = Returned mgr' ∧
    ConnectionManager.connections_of mgr' sid
    = ConnectionManager.connections_of mgr sid ∪ {[ws]}.
Proof.
  eexists. split; [done |].
  unfold ConnectionManager.connections_of. simpl.
  rewrite lookup_alter_eq.
  destruct (ConnectionManager.active_connections mgr !! sid) as [s|] eqn:E.
  - by rewrite E.
  - by rewrite lookup_insert_eq.
Qed.

End Registry.

Lemma filter_cons_pass {A} (f : A -> bool) (x : A) (l : list A) :
  f x = true →
  filter (λ y, f y) (x :: l) = x :: filter (λ y, f y) l ∧
  filter (λ y, ¬ f y) (x :: l) = filter (λ y, ¬ f y) l.
Proof.
  intros E. split.
  - rewrite filter_cons_True; [done |]. by rewrite E.
  - rewrite filter_cons_False; [done |]. rewrite E. simpl. tauto.
Qed.

Lemma filter_cons_fail {A} (f : A -> bool) (x : A) (l : list A) :
  f x = false →
  filter (λ y, f y) (x :: l) = filter (λ y, f y) l ∧
  filter (λ y, ¬ f y) (x :: l) = x :: filter (λ y, ¬ f y) l.
Proof.
  intros E. split.
  - rewrite filter_cons_False; [done |]. rewrite E. simpl. tauto.
  - rewrite filter_cons_True; [done |]. rewrite E. simpl. tauto.
Qed.

Section Broadcast.

Variable transport : WebSocket -> Outcome unit.
Variable message : Frame.
Variable sid : string.

Implicit Types (mgr : ConnectionManager.t) (ws : WebSocket).

Lemma round_accepted ws mgr :
  accepts transport ws = true →
  ConnectionManager.broadcast_round transport message sid ws mgr
  = Returned {| ConnectionManager.active_connections :=
                  ConnectionManager.active_connections mgr;
                ConnectionManager.delivered :=
                  ConnectionManager.delivered mgr ++ [(ws, message)] |}.
Proof.
  unfold accepts, ConnectionManager.broadcast_round,
    ConnectionManager.send_json.
  by destruct (transport ws) as [[]|e].
Qed.

Lemma round_refused ws mgr :
  accepts transport ws = false →
  ConnectionManager.broadcast_round transport message sid ws mgr
  = Returned (ConnectionManager.disconnect ws sid mgr).
Proof.
  unfold accepts, ConnectionManager.broadcast_round,
    ConnectionManager.send_json.
  by destruct (transport ws) as [[]|e].
Qed.

(** The loop never raises; it delivers to the targets that accept, in
    order, and removes from the session the targets that refuse. *)
Lemma rounds_spec (targets : list WebSocket) : ∀ mgr,
  ∃ mgr',
    for_each (ConnectionManager.broadcast_round transport message sid)
      targets mgr = Returned mgr' ∧
    ConnectionManager.delivered mgr'
    = ConnectionManager.delivered mgr
      ++ addressed message (filter (λ ws, accepts transport ws) targets) ∧
    ConnectionManager.connections_of mgr' sid
    = ConnectionManager.connections_of mgr sid
      ∖ list_to_set (filter (λ ws, ¬ accepts transport ws) targets) ∧
    (∀ sid', sid' ≠ sid →
       ConnectionManager.active_connections mgr' !! sid'
       = ConnectionManager.active_connections mgr !! sid') ∧
    (ConnectionManager.registry_ok mgr → ConnectionManager.registry_ok mgr').
Proof.
  induction targets as [|ws targets IH]; intros mgr.
  - exists mgr. simpl. rewrite app_nil_r. repeat split; try done.
    by rewrite difference_empty_L.
  - simpl. destruct (accepts transport ws) eqn:E.
    + rewrite round_accepted by done. simpl.
      edestruct IH as (mgr' & -> & Hd & Hc & Ho & Hok).
      exists mgr'. split; [done |].
      rewrite Hd, Hc. simpl.
      destruct (filter_cons_pass (accepts transport) ws targets E)
        as [-> ->].
      simpl. rewrite <- app_assoc. repeat split; try done.
    + rewrite round_refused by done. simpl.
      edestruct IH as (mgr' & -> & Hd & Hc & Ho & Hok).
      exists mgr'. split; [done |].
      rewrite Hd, Hc, disconnect_delivered, disconnect_same_session.
      destruct (filter_cons_fail (accepts transport) ws targets E)
        as [-> ->].
      repeat split.
      * rewrite list_to_set_cons. apply set_eq. intros x.
        rewrite !elem_of_difference, elem_of_union. tauto.
      * intros sid' Hne. rewrite Ho by done.
        by apply disconnect_other_session.
      * intros H. by apply Hok, disconnect_registry_ok.
Qed.

Lemma broadcast_spec mgr :
  ∃ mgr',
    ConnectionManager.broadcast_to_session transport message sid mgr
    = Returned mgr' ∧
    Endpoint.new_frames mgr mgr'
    = addressed message
        (filter (λ ws, accepts transport ws)
           (elements (ConnectionManager.connections_of mgr sid))) ∧
    ConnectionManager.connections_of mgr' sid
    = filter (λ ws, accepts transport ws)
        (ConnectionManager.connections_of mgr sid) ∧
    (∀ sid', sid' ≠ sid →
       ConnectionManager.active_connections mgr' !! sid'
       = ConnectionManager.active_connections mgr !! sid') ∧
    (ConnectionManager.registry_ok mgr → ConnectionManager.registry_ok mgr').
Proof.
  unfold ConnectionManager.broadcast_to_session, Endpoint.new_frames.
  destruct (ConnectionManager.active_connections mgr !! sid) as [s|] eqn:E.
  - assert (Hs : ConnectionManager.connections_of mgr sid = s)
      by (unfold ConnectionManager.connections_of; by rewrite E).
    rewrite Hs in *.
    destruct (rounds_spec (elements s) mgr) as (mgr' & H & Hd & Hc & Ho & Hok).
    exists mgr'. split; [exact H |].
    rewrite Hd, drop_app_length. split; [done |].
    split; [| done]. rewrite Hc, Hs.
    apply set_eq. intros x.
    rewrite elem_of_difference, elem_of_filter, elem_of_list_to_set,
      list_elem_of_filter, elem_of_elements.
    destruct (accepts transport x); simpl; tauto.
  - assert (Hs : ConnectionManager.connections_of mgr sid = ∅)
      by (unfold ConnectionManager.connections_of; by rewrite E).
    rewrite Hs.
    exists mgr. rewrite drop_all, elements_empty. repeat split; done.
Qed.

End Broadcast.

Section ConnectionManagerClaims.

Implicit Types (mgr : ConnectionManager.t) (ws : WebSocket) (sid : string).

Lemma accepting_all_but_one (transport : WebSocket -> Outcome unit)
    (s : gset WebSocket) (failed : WebSocket) :
  failed ∈ s →
  accepts transport failed = false →
  (∀ ws, ws ∈ s → ws ≠ failed → accepts transport ws = true) →
  filter (λ ws, accepts transport ws) s = s ∖ {[failed]} ∧
  filter (λ ws, accepts transport ws) (elements s)
  ≡ₚ elements (s ∖ {[failed]}).
Proof.
  intros Hin Hfail Hrest.
  assert (Hmem : ∀ x, (accepts transport x ∧ x ∈ s) ↔ x ∈ s ∖ {[failed]}).
  { intros x. rewrite elem_of_difference, elem_of_singleton. split.
    - intros [Hx ?]. split; [done |]. intros ->. by rewrite Hfail in Hx.
    - intros [? ?]. split; [| done]. by rewrite Hrest. }
  split.
  - apply set_eq. intros x. by rewrite elem_of_filter.
  - apply NoDup_Permutation.
    + apply NoDup_filter, NoDup_elements.
    + apply NoDup_elements.
    + intros x. by rewrite list_elem_of_filter, !elem_of_elements.
Qed.

(** C6. A broadcast to a session in which the send to exactly one
    registered connection fails returns normally; the frame reaches each of
    the other connections once, the session's set loses the failed
    connection and nothing else, and the other sessions are untouched. *)
Theorem broadcast_survives_one_failed_send
    (transport : WebSocket -> Outcome unit) (message : Frame) sid mgr
    (failed : WebSocket) :
  let registered := ConnectionManager.connections_of mgr sid in
  failed ∈ registered →
  accepts transport failed = false →
  (∀ ws, ws ∈ registered → ws ≠ failed → accepts transport ws = true) →
  ∃ mgr',
    ConnectionManager.broadcast_to_session transport message sid mgr
    = Returned mgr' ∧
    Endpoint.new_frames mgr mgr'
    ≡ₚ addressed message (elements (registered ∖ {[failed]})) ∧
    length (Endpoint.new_frames mgr mgr') = (size registered - 1)%nat ∧
    ConnectionManager.connections_of mgr' sid = registered ∖ {[failed]} ∧
    (∀ sid', sid' ≠ sid →
       ConnectionManager.active_connections mgr' !! sid'
       = ConnectionManager.active_connections mgr !! sid').
Proof.
  intros registered Hin Hfail Hrest.
  destruct (accepting_all_but_one transport registered failed)
    as [Hset Hperm]; try done.
  destruct (broadcast_spec transport message sid mgr)
    as (mgr' & Hret & Hnew & Hconn & Hother & _).
  fold registered in Hnew, Hconn.
  assert (Hframes : Endpoint.new_frames mgr mgr'
                    ≡ₚ addressed message (elements (registered ∖ {[failed]}))).
  { rewrite Hnew. unfold addressed. by apply Permutation_map. }
  exists mgr'. repeat split; try done.
  - rewrite Hframes. unfold addressed. rewrite length_map.
    change (length (elements ?X)) with (size X).
    rewrite size_difference by by apply singleton_subseteq_l.
    by rewrite size_singleton.
  - by rewrite Hconn.
Qed.

Lemma run_registry_ok (ops : list ConnectionManager.op) : ∀ mgr,
  ConnectionManager.registry_ok mgr →
  ConnectionManager.registry_ok (ConnectionManager.run ops mgr).
Proof.
  induction ops as [|o ops IH]; intros mgr Hok; [done |].
  apply IH. destruct o as [accept ws sid | ws sid | transport message sid];
    simpl.
  - destruct (ConnectionManager.connect accept ws sid mgr) eqn:E; [| done].
    by eapply connect_registry_ok.
  - by apply disconnect_registry_ok.
  - destruct (broadcast_spec transport message sid mgr)
      as (mgr' & -> & _ & _ & _ & H). by apply H.
Qed.

(** C10. After any sequence of [connect], [disconnect] and
    [broadcast_to_session] on a fresh manager, no session is registered
    with an empty connection set; a [disconnect] that takes the last
    connection of a session drops the session's entry, and a [disconnect]
    of a connection that is not registered under the session changes
    nothing. *)
Theorem registered_sessions_are_never_empty
    (ops : list ConnectionManager.op) ws sid :
  let mgr := ConnectionManager.run ops ConnectionManager.init in
  ConnectionManager.registry_ok mgr ∧
  ConnectionManager.registry_ok (ConnectionManager.disconnect ws sid mgr) ∧
  (ConnectionManager.connections_of mgr sid ∖ {[ws]} = ∅ →
   ConnectionManager.active_connections
     (ConnectionManager.disconnect ws sid mgr) !! sid = None) ∧
  (ws ∉ ConnectionManager.connections_of mgr sid →
   ConnectionManager.disconnect ws sid mgr = mgr).
Proof.
  intros mgr.
  assert (Hok : ConnectionManager.registry_ok mgr).
  { apply run_registry_ok. intros sid' s'. simpl. by rewrite lookup_empty. }
  split; [done |]. split; [by apply disconnect_registry_ok |]. split.
  - intros Hlast.
    pose proof (disconnect_registry_ok ws sid mgr Hok) as Hok'.
    pose proof (disconnect_same_session ws sid mgr) as Hconn.
    rewrite Hlast in Hconn.
    unfold ConnectionManager.connections_of in Hconn at 1.
    destruct (ConnectionManager.active_connections
                (ConnectionManager.disconnect ws sid mgr) !! sid)
      as [s|] eqn:E; [| done].
    simpl in Hconn. by destruct (Hok' sid s).
  - by apply disconnect_absent.
Qed.


(** One failed send among three connections. *)
Lemma broadcast_survives_one_failed_send_witness :
  2 ∈ ConnectionManager.connections_of (manager_with "s" [1; 2; 3]) "s" ∧
  accepts (failing_for 2) 2 = false ∧
  (∀ ws, ws ∈ ConnectionManager.connections_of
                (manager_with "s" [1; 2; 3]) "s" →
         ws ≠ 2 → accepts (failing_for 2) ws = true) ∧
  ∃ mgr',
    ConnectionManager.broadcast_to_session (failing_for 2) pong "s"
      (manager_with "s" [1; 2; 3]) = Returned mgr' ∧
    Endpoint.new_frames (manager_with "s" [1; 2; 3]) mgr'
    ≡ₚ addressed pong
         (elements
            (ConnectionManager.connections_of
               (manager_with "s" [1; 2; 3]) "s" ∖ {[2]})) ∧
    length (Endpoint.new_frames (manager_with "s" [1; 2; 3]) mgr')
    = (size (ConnectionManager.connections_of
               (manager_with "s" [1; 2; 3]) "s") - 1)%nat ∧
    ConnectionManager.connections_of mgr' "s"
    = ConnectionManager.connections_of (manager_with "s" [1; 2; 3]) "s"
      ∖ {[2]} ∧
    (∀ sid', sid' ≠ "s" →
       ConnectionManager.active_connections mgr' !! sid'
       = ConnectionManager.active_connections
           (manager_with "s" [1; 2; 3]) !! sid').
Proof.
  assert (H1 : 2 ∈ ConnectionManager.connections_of
                     (manager_with "s" [1; 2; 3]) "s") by by vm_compute.
  assert (H2 : accepts (failing_for 2) 2 = false) by reflexivity.
  assert (H3 : ∀ ws, ws ∈ ConnectionManager.connections_of
                            (manager_with "s" [1; 2; 3]) "s" →
                     ws ≠ 2 → accepts (failing_for 2) ws = true).
  { intros ws _ Hne. unfold accepts, failing_for. by rewrite decide_False. }
  split; [exact H1 | split; [exact H2 | split; [exact H3 |]]].
  exact (broadcast_survives_one_failed_send (failing_for 2) pong "s"
           (manager_with "s" [1; 2; 3]) 2 H1 H2 H3).
Defined.

(** After two connects and a broadcast that loses connection 2, taking
    connection 1 away drops the session, and taking an unknown connection
    away changes nothing. *)
Lemma registered_sessions_are_never_empty_witness :
  ConnectionManager.connections_of
    (ConnectionManager.run example_operations ConnectionManager.init) "s"
    ∖ {[1]} = ∅ ∧
  ConnectionManager.active_connections
    (ConnectionManager.disconnect 1 "s"
       (ConnectionManager.run example_operations ConnectionManager.init))
    !! "s" = None ∧
  (7 ∉ ConnectionManager.connections_of
         (ConnectionManager.run example_operations ConnectionManager.init)
         "s") ∧
  ConnectionManager.disconnect 7 "s"
    (ConnectionManager.run example_operations ConnectionManager.init)
  = ConnectionManager.run example_operations ConnectionManager.init.
Proof.
  assert (H1 : ConnectionManager.connections_of
                 (ConnectionManager.run example_operations
                    ConnectionManager.init) "s" ∖ {[1]} = ∅)
    by reflexivity.
  assert (H7 : 7 ∉ ConnectionManager.connections_of
                     (ConnectionManager.run example_operations
                        ConnectionManager.init) "s")
    by by vm_compute.
  split; [exact H1 | split; [| split; [exact H7 |]]].
  - exact (proj1 (proj2 (proj2
             (registered_sessions_are_never_empty example_operations 1 "s")))
             H1).
  - exact (proj2 (proj2 (proj2
             (registered_sessions_are_never_empty example_operations 7 "s")))
             H7).
Defined.



End ConnectionManagerClaims.

(** ** Orchestration loop *)

#[local] Open Scope Q_scope.

Section OrchestrationLoop.

Variable complete : nat -> Outcome string.
Variable heuristic : AgentType -> string -> Outcome Q.
Variable quantum : option (QuantumMetrics * string).
Variable request : AuraRequest.

Implicit Types (w : AuraOrchestrator.World) (ty : AgentType)
  (st : AuraOrchestrator.World * list AgentResponse)
  (es : list AuraOrchestrator.Event).

Lemma passes_app es1 es2 : passes (es1 ++ es2) = (passes es1 + passes es2)%nat.
Proof. unfold passes. by rewrite List.filter_app, length_app. Qed.

Lemma invocations_app ty es1 es2 :
  invocations ty (es1 ++ es2)
  = (invocations ty es1 + invocations ty es2)%nat.
Proof. unfold invocations. by rewrite List.filter_app, length_app. Qed.

Lemma raised_only_app es1 es2 :
  raised_only (es1 ++ es2) = true ↔
  raised_only es1 = true ∧ raised_only es2 = true.
Proof. unfold raised_only. by rewrite forallb_app, andb_true_iff. Qed.

Lemma invoke_spec ty (task : string) (context : Context) w :
  let result := AuraOrchestrator.invoke complete heuristic ty task context w in
  AuraOrchestrator.events (fst result)
  = AuraOrchestrator.events w
    ++ [AuraOrchestrator.Invoked ty (returns (snd result))] ∧
  total_of (fst result) = total_of w ∧
  AuraOrchestrator.calls (fst result) = S (AuraOrchestrator.calls w).
Proof.
  unfold AuraOrchestrator.invoke.
  destruct (match ty with SYNTHESIZER => _ | _ => _ end) as [a' res].
  done.
Qed.

Lemma run_agent_spec st ty :
  let st' := AuraOrchestrator.run_agent complete heuristic request st ty in
  ∃ returned : bool,
    AuraOrchestrator.events (fst st')
    = AuraOrchestrator.events (fst st)
      ++ (if enabled request ty then [AuraOrchestrator.Invoked ty returned] else []) ∧
    total_of (fst st') = total_of (fst st) ∧
    ((enabled request ty = true → returned = false) → snd st' = snd st).
Proof.
  destruct st as [w responses]. unfold AuraOrchestrator.run_agent.
  fold (enabled request ty). destruct (enabled request ty).
  - destruct (invoke_spec ty (prompt request)
                (AuraOrchestrator._prepare_context (AuraOrchestrator.orch w)
                   request responses) w) as (He & Ht & _).
    unfold total_of in *.
    destruct (AuraOrchestrator.invoke _ _ _ _ _ _) as [w' [r|e]];
      simpl in *; [exists true | exists false]; rewrite He, Ht;
      repeat split; try done.
    intros H. by specialize (H eq_refl).
  - exists false. simpl. by rewrite app_nil_r.
Qed.

Lemma run_agents_spec (workflow : list AgentType) : ∀ st,
  let st' :=
    fold_left (AuraOrchestrator.run_agent complete heuristic request)
      workflow st in
  ∃ es,
    AuraOrchestrator.events (fst st') = AuraOrchestrator.events (fst st) ++ es ∧
    total_of (fst st') = total_of (fst st) ∧
    passes es = 0%nat ∧
    (∀ ty, ty ∉ workflow → invocations ty es = 0%nat) ∧
    (raised_only es = true →
     es = map (fun ty => AuraOrchestrator.Invoked ty false)
              (List.filter (enabled request) workflow) ∧
     snd st' = snd st).
Proof.
  induction workflow as [|ty workflow IH]; intros st; simpl.
  - exists []. by rewrite app_nil_r.
  - destruct (run_agent_spec st ty) as (b & He1 & Ht1 & Hr1).
    destruct (IH (AuraOrchestrator.run_agent complete heuristic request st ty))
      as (es & He & Ht & Hp & Hi & Hr).
    eexists (_ ++ es). rewrite He, He1, <- app_assoc. split; [done |].
    split; [by rewrite Ht |].
    cbn [List.filter]. destruct (enabled request ty) eqn:E; simpl.
    + split; [done |]. split.
      * intros ty' Hty'. apply not_elem_of_cons in Hty' as [Hne H].
        specialize (Hi ty' H). unfold invocations in *. simpl.
        by rewrite bool_decide_eq_false_2 by done.
      * intros [Hb Hes]%andb_true_iff. apply negb_true_iff in Hb as ->.
        destruct (Hr Hes) as [-> ->].
        split; [done | by apply Hr1].
    + split; [done |]. split.
      * intros ty' Hty'. apply not_elem_of_cons in Hty' as [Hne ?].
        by apply Hi.
      * intros Hes. destruct (Hr Hes) as [-> ->].
        split; [done | by apply Hr1].
Qed.

Lemma run_pass_spec (workflow : list AgentType) (iteration : Z) st :
  let st' :=
    AuraOrchestrator.run_pass complete heuristic request workflow iteration
      st in
  ∃ es,
    AuraOrchestrator.events (fst st')
    = AuraOrchestrator.events (fst st)
      ++ AuraOrchestrator.PassStarted iteration :: es ∧
    total_of (fst st') = (total_of (fst st) + 1)%Z ∧
    passes es = 0%nat ∧
    (∀ ty, ty ∉ workflow → invocations ty es = 0%nat) ∧
    (raised_only es = true →
     AuraOrchestrator.PassStarted iteration :: es
     = failed_pass request workflow iteration ∧
     snd st' = snd st).
Proof.
  destruct st as [w responses]. unfold AuraOrchestrator.run_pass.
  destruct (run_agents_spec workflow
              (AuraOrchestrator.observe
                 (AuraOrchestrator.PassStarted iteration)
                 (AuraOrchestrator.map_orch
                    AuraOrchestrator.bump_iterations w), responses))
    as (es & He & Ht & Hp & Hi & Hr).
  exists es. simpl in *. rewrite He, Ht, <- app_assoc.
  repeat split; try done.
  - by destruct (Hr H) as [-> _].
  - by destruct (Hr H) as [_ ->].
Qed.

Lemma invoke_vectors_ok ty (task : string) (context : Context) w :
  vectors_ok (AuraOrchestrator.orch w) →
  vectors_ok
    (AuraOrchestrator.orch
       (fst (AuraOrchestrator.invoke complete heuristic ty task context w))).
Proof.
  intros Hw ty'. unfold AuraOrchestrator.invoke.
  pose proof (variant_process_vector_ok heuristic
                (complete (AuraOrchestrator.calls w)) task
                (AuraOrchestrator.agents (AuraOrchestrator.orch w) ty)
                (Hw ty)) as Hv.
  pose proof (synthesizer_process_vector_ok
                (complete (AuraOrchestrator.calls w)) task (Some context)
                (AuraOrchestrator.agents (AuraOrchestrator.orch w) ty)
                (Hw ty)) as Hs.
  destruct ty;
    match goal with
    | |- context [let '(_, _) := ?p in _] => destruct p as [a' res]
    end; simpl in *; case_decide; subst; done.
Qed.

Lemma run_agent_vectors_ok st ty :
  vectors_ok (AuraOrchestrator.orch (fst st)) →
  vectors_ok
    (AuraOrchestrator.orch
       (fst (AuraOrchestrator.run_agent complete heuristic request st ty))).
Proof.
  destruct st as [w responses]. intros Hw.
  unfold AuraOrchestrator.run_agent. case_bool_decide; [| done].
  pose proof (invoke_vectors_ok ty (prompt request)
                (AuraOrchestrator._prepare_context (AuraOrchestrator.orch w)
                   request responses) w Hw) as H'.
  by destruct (AuraOrchestrator.invoke _ _ _ _ _ _) as [w' [r|e]].
Qed.

Lemma run_agents_vectors_ok (workflow : list AgentType) : ∀ st,
  vectors_ok (AuraOrchestrator.orch (fst st)) →
  vectors_ok
    (AuraOrchestrator.orch
       (fst (fold_left (AuraOrchestrator.run_agent complete heuristic request)
               workflow st))).
Proof.
  induction workflow as [|ty workflow IH]; intros st Hst; [done |].
  simpl. by apply IH, run_agent_vectors_ok.
Qed.

Lemma run_pass_vectors_ok (workflow : list AgentType) (iteration : Z) st :
  vectors_ok (AuraOrchestrator.orch (fst st)) →
  vectors_ok
    (AuraOrchestrator.orch
       (fst (AuraOrchestrator.run_pass complete heuristic request workflow
               iteration st))).
Proof.
  destruct st as [w responses]. intros Hw. unfold AuraOrchestrator.run_pass.
  by apply run_agents_vectors_ok.
Qed.

Lemma run_iterations_vectors_ok (workflow : list AgentType)
    (iterations : list Z) : ∀ st,
  vectors_ok (AuraOrchestrator.orch (fst st)) →
  vectors_ok
    (AuraOrchestrator.orch
       (fst (AuraOrchestrator.run_iterations complete heuristic request
               workflow iterations st))).
Proof.
  induction iterations as [|iteration rest IH]; intros st Hst; [done |].
  simpl. pose proof (run_pass_vectors_ok workflow iteration st Hst).
  destruct (AuraOrchestrator._should_continue _ _ _); [by apply IH | done].
Qed.

(** A request leaves the vectors of all agents within range; so does a
    reset, and a fresh orchestrator starts within range. *)
Lemma process_request_vectors_ok w :
  vectors_ok (AuraOrchestrator.orch w) →
  vectors_ok
    (AuraOrchestrator.orch
       (fst (AuraOrchestrator.process_request complete heuristic quantum
               request w))).
Proof.
  intros Hw. unfold AuraOrchestrator.process_request.
  match goal with
  | |- context [AuraOrchestrator.run_iterations ?c ?h ?r ?wf ?its ?st] =>
      pose proof (run_iterations_vectors_ok wf its st Hw) as H1;
      destruct (AuraOrchestrator.run_iterations c h r wf its st)
        as [w1 responses]
  end.
  match goal with
  | |- context [AuraOrchestrator.invoke ?c ?h ?ty ?task ?ctx ?w1] =>
      pose proof (invoke_vectors_ok ty task ctx w1 H1) as H2;
      destruct (AuraOrchestrator.invoke c h ty task ctx w1) as [w2 [final|e]]
  end; done.
Qed.

Lemma should_continue_false (responses : list AgentResponse)
    (iteration max : Z) :
  AuraOrchestrator._should_continue responses iteration max = false ↔
  (max - 1 <= iteration)%Z ∨
  ∃ c, last_confidence responses = Some c ∧ 0.9 <= c.
Proof.
  unfold AuraOrchestrator._should_continue, last_confidence, Py.geb.
  destruct (Z.leb_spec (max - 1) iteration) as [Hlast|Hmore].
  - split; [by left | done].
  - destruct (Py.last_item responses) as [r|]; simpl.
    + destruct (Qle_bool 0.9 (confidence r)) eqn:E.
      * apply Qle_bool_iff in E. split; [| done]. right. by exists (confidence r).
      * split; [done |]. intros [? | (c & [= <-] & Hc)]; [lia |].
        apply Qle_bool_iff in Hc. congruence.
    + split; [done |]. intros [? | (c & ? & _)]; [lia | done].
Qed.

Lemma run_iterations_spec (workflow : list AgentType) (n : nat) : ∀ a st,
  Z.of_nat (a + n) = max_iterations request →
  let st' :=
    AuraOrchestrator.run_iterations complete heuristic request workflow
      (map Z.of_nat (seq a n)) st in
  ∃ es,
    AuraOrchestrator.events (fst st') = AuraOrchestrator.events (fst st) ++ es ∧
    total_of (fst st') = (total_of (fst st) + Z.of_nat (passes es))%Z ∧
    (passes es ≤ n)%nat ∧
    ((1 ≤ n)%nat → (1 ≤ passes es)%nat) ∧
    (∀ ty, ty ∉ workflow → invocations ty es = 0%nat) ∧
    (raised_only es = true → snd st = [] →
     es = concat (map (failed_pass request workflow) (map Z.of_nat (seq a n)))).
Proof.
  induction n as [|n IH]; intros a st Hmax.
  - exists []. simpl. rewrite app_nil_r.
    change (passes []) with 0%nat.
    repeat split; try done; try lia.
  - cbn [seq map AuraOrchestrator.run_iterations].
    destruct (run_pass_spec workflow (Z.of_nat a) st)
      as (es1 & He1 & Ht1 & Hp1 & Hi1 & Hr1).
    set (st1 := AuraOrchestrator.run_pass complete heuristic request workflow
                  (Z.of_nat a) st) in *.
    destruct (AuraOrchestrator._should_continue (snd st1) (Z.of_nat a)
                (max_iterations request)) eqn:Hcont.
    + destruct (IH (S a) st1) as (es2 & He2 & Ht2 & Hp2 & _ & Hi2 & Hr2);
        [lia |].
      exists ((AuraOrchestrator.PassStarted (Z.of_nat a) :: es1) ++ es2).
      rewrite He2, He1, Ht2, Ht1, <- app_assoc.
      rewrite passes_app.
      change (passes (AuraOrchestrator.PassStarted (Z.of_nat a) :: es1))
        with (S (passes es1)).
      rewrite Hp1. repeat split; try done; try lia.
      * intros ty Hty. rewrite invocations_app, (Hi2 ty Hty).
        change (invocations ty
                  (AuraOrchestrator.PassStarted (Z.of_nat a) :: es1))
          with (invocations ty es1).
        by rewrite (Hi1 ty Hty).
      * intros [H1 H2]%raised_only_app Hnil.
        destruct (Hr1 H1) as [Hes1 Hsnd]. cbn [concat].
        rewrite <- Hes1. f_equal. apply Hr2; [done |]. by rewrite Hsnd.
    + exists (AuraOrchestrator.PassStarted (Z.of_nat a) :: es1).
      rewrite He1, Ht1.
      change (passes (AuraOrchestrator.PassStarted (Z.of_nat a) :: es1))
        with (S (passes es1)).
      rewrite Hp1. repeat split; try done; try lia.
      intros H1 Hnil. destruct (Hr1 H1) as [Hes1 Hsnd].
      rewrite Hsnd, Hnil in Hcont.
      apply should_continue_false in Hcont as [Hlast | (c & ? & _)];
        [| done].
      assert (n = 0%nat) as -> by lia.
      cbn [seq map concat]. by rewrite app_nil_r.
Qed.

Lemma workflow_without_synthesizer :
  SYNTHESIZER ∉ AuraOrchestrator._determine_workflow request.
Proof.
  unfold AuraOrchestrator._determine_workflow.
  repeat match goal with |- context [if ?b then _ else _] => destruct b end;
    rewrite !not_elem_of_cons; repeat split; try done; apply not_elem_of_nil.
Qed.

Lemma range_as_seq (n : Z) : Py.range n = map Z.of_nat (seq 0 (Z.to_nat n)).
Proof. done. Qed.


(** C5. A request with [max_iterations] in [1,20] makes at least one and
    at most [max_iterations] passes of the loop, counted by
    [total_iterations]; the synthesizer's [process] is called exactly once,
    as the last agent call and after every pass, whether or not it
    returns. If every agent call of the loop raised, the loop still made
    all [max_iterations] passes and called every enabled agent of the
    workflow in each of them. *)
Theorem synthesizer_runs_once_after_bounded_loop
    (w : AuraOrchestrator.World) :
  valid_request request →
  let result :=
    AuraOrchestrator.process_request complete heuristic quantum request w in
  let observed := new_events w (fst result) in
  let loop := removelast observed in
  AuraOrchestrator.events (fst result)
  = AuraOrchestrator.events w ++ observed ∧
  observed
  = loop ++ [AuraOrchestrator.Invoked SYNTHESIZER (returns (snd result))] ∧
  (1 ≤ passes loop ≤ Z.to_nat (max_iterations request))%nat ∧
  passes observed = passes loop ∧
  total_of (fst result) = (total_of w + Z.of_nat (passes loop))%Z ∧
  invocations SYNTHESIZER loop = 0%nat ∧
  invocations SYNTHESIZER observed = 1%nat ∧
  (raised_only loop = true →
   loop = concat (map (failed_pass request
                             (AuraOrchestrator._determine_workflow request))
                      (Py.range (max_iterations request)))).
Proof.
  intros [Hlo Hhi] result observed loop.
  pose (user_message := {| msg_role := USER; content := prompt request;
                           msg_agent_id := None; msg_agent_type := None |}).
  pose (w0 := AuraOrchestrator.map_orch
                (AuraOrchestrator.append_history user_message) w).
  destruct (run_iterations_spec (AuraOrchestrator._determine_workflow request)
              (Z.to_nat (max_iterations request)) 0 (w0, []))
    as (es & He & Ht & Hp & Hp1 & Hi & Hr); [simpl; lia |].
  rewrite <- range_as_seq in *.
  assert (Hobs : AuraOrchestrator.events (fst result)
                 = AuraOrchestrator.events w
                   ++ es ++ [AuraOrchestrator.Invoked SYNTHESIZER
                               (returns (snd result))]
                 ∧ total_of (fst result) = (total_of w + Z.of_nat (passes es))%Z).
  { subst result. unfold AuraOrchestrator.process_request.
    fold user_message. fold w0.
    destruct (AuraOrchestrator.run_iterations _ _ _ _ _ _)
      as [w1 responses]. simpl in He, Ht.
    match goal with
    | |- context [AuraOrchestrator.invoke ?c ?h ?ty ?task ?ctx ?w1] =>
        destruct (invoke_spec ty task ctx w1) as (Hev & Htot & _);
        destruct (AuraOrchestrator.invoke c h ty task ctx w1)
          as [w2 [final|e]]
    end; simpl in *; rewrite Hev, He, <- app_assoc; unfold total_of in *;
      simpl in *; by rewrite Htot, Ht. }
  destruct Hobs as [Hev Htot].
  assert (Hobserved : observed
                      = es ++ [AuraOrchestrator.Invoked SYNTHESIZER
                                 (returns (snd result))]).
  { subst observed. unfold new_events. by rewrite Hev, drop_app_length. }
  assert (Hloop : loop = es).
  { subst loop. by rewrite Hobserved, removelast_last. }
  rewrite Hloop, Hobserved.
  pose proof (Hi SYNTHESIZER workflow_without_synthesizer) as Hsyn.
  repeat split; try done; try lia.
  - rewrite passes_app. change (passes [_]) with 0%nat. lia.
  - by rewrite invocations_app, Hsyn.
  - intros Hraised. by apply Hr.
Qed.

End OrchestrationLoop.

Lemma init_vectors_ok (sid : string) (fresh_id : AgentType -> string) :
  vectors_ok (AuraOrchestrator.init sid fresh_id).
Proof. intros ty. apply init_vector_ok. Qed.

Lemma reset_session_vectors_ok (o : AuraOrchestrator.t) :
  vectors_ok o → vectors_ok (AuraOrchestrator.reset_session o).
Proof. intros Ho ty. by apply (step_vector_ok _ BaseAgent.Reset). Qed.


(** With the completion service down, a request for five iterations makes
    five passes in which each of the three workflow agents is called and
    raises, and then calls the synthesizer once. *)
Lemma synthesizer_runs_once_after_bounded_loop_witness :
  valid_request example_request ∧
  raised_only
    (removelast
       (new_events fresh_world
          (fst (AuraOrchestrator.process_request service_down confident None
                  example_request fresh_world)))) = true ∧
  invocations SYNTHESIZER
    (new_events fresh_world
       (fst (AuraOrchestrator.process_request service_down confident None
               example_request fresh_world))) = 1%nat ∧
  removelast
    (new_events fresh_world
       (fst (AuraOrchestrator.process_request service_down confident None
               example_request fresh_world)))
  = concat (map (failed_pass example_request [DEBUGGER; ENGINEER; REVIEWER])
                [0; 1; 2; 3; 4]%Z).
Proof.
  assert (Hv : valid_request example_request)
    by (unfold valid_request; simpl; lia).
  assert (Hr : raised_only
                 (removelast
                    (new_events fresh_world
                       (fst (AuraOrchestrator.process_request service_down
                               confident None example_request fresh_world))))
               = true) by reflexivity.
  split; [exact Hv | split; [exact Hr |]].
  pose proof (synthesizer_runs_once_after_bounded_loop service_down confident
                None example_request fresh_world Hv)
    as (_ & _ & _ & _ & _ & _ & Honce & Hall).
  split; [exact Honce | exact (Hall Hr)].
Defined.

(** * Further properties *)

(** ** The agent's own state *)

#[local] Open Scope Q_scope.

Section AgentLifecycle.

Implicit Types (a : BaseAgent.t) (o : BaseAgent.op) (ops : list BaseAgent.op).

Lemma init_constructed (id : string) (ty : AgentType) :
  constructed_as id ty (BaseAgent.init id ty).
Proof. done. Qed.

Lemma step_constructed (id : string) (ty : AgentType) a o :
  constructed_as id ty a → constructed_as id ty (BaseAgent.step a o).
Proof. intros (?&?&?&?&?). by destruct o as [[?|] [?|] [?|] | | | |]. Qed.


Lemma complete_task_constructed (id : string) (ty : AgentType)
    (done_action error_action : string) (quality : string -> Outcome Q)
    (answer : Outcome string) a :
  constructed_as id ty a →
  constructed_as id ty
    (fst (Agents.complete_task done_action error_action quality answer a)).
Proof.
  intros (?&?&?&?&?).
  unfold Agents.complete_task, Agents._call_claude, Agents.on_error,
    new_AgentResponse.
  destruct answer as [text|e]; [| done].
  destruct (quality text) as [q|e]; [| done].
  by destruct (field_in_unit q).
Qed.

Lemma variant_process_constructed (id : string) (ty : AgentType)
    (heuristic : AgentType -> string -> Outcome Q) (answer : Outcome string)
    (task : string) a :
  constructed_as id ty a →
  constructed_as id ty (fst (Agents.variant_process heuristic answer task a)).
Proof.
  intros Ha. apply complete_task_constructed.
  by apply (step_constructed id ty _ (BaseAgent.AddTrace _ None)),
    (step_constructed id ty _ (BaseAgent.UpdateMemory (Some _) None (Some _))),
    (step_constructed id ty _ (BaseAgent.SetStatus WORKING)).
Qed.

Lemma synthesizer_process_constructed (id : string) (ty : AgentType)
    (answer : Outcome string) (task : string) (context : option Context) a :
  constructed_as id ty a →
  constructed_as id ty (fst (SynthesizerAgent.process answer task context a)).
Proof.
  intros Ha. apply complete_task_constructed.
  by apply (step_constructed id ty _ (BaseAgent.AddTrace _ None)),
    (step_constructed id ty _ (BaseAgent.UpdateMemory (Some _) None (Some _))),
    (step_constructed id ty _ (BaseAgent.SetStatus WORKING)).
Qed.



Lemma step_traces_own (id : string) (ty : AgentType) a o :
  constructed_as id ty a →
  Forall (λ t, trace_agent_id t = id ∧ trace_agent_type t = ty)
         (BaseAgent.traces a) →
  Forall (λ t, trace_agent_id t = id ∧ trace_agent_type t = ty)
         (BaseAgent.traces (BaseAgent.step a o)).
Proof.
  intros (Hid & Hty & _) Ht.
  destruct o as [[?|] [?|] [?|] | | | |]; simpl; try done.
  apply Forall_app. split; [done |]. by repeat constructor.
Qed.

Lemma run_traces_own (id : string) (ty : AgentType) ops : ∀ a,
  constructed_as id ty a →
  Forall (λ t, trace_agent_id t = id ∧ trace_agent_type t = ty)
         (BaseAgent.traces a) →
  Forall (λ t, trace_agent_id t = id ∧ trace_agent_type t = ty)
         (BaseAgent.traces (BaseAgent.run ops a)).
Proof.
  induction ops as [|o ops IH]; intros a Ha Ht; [done |].
  apply IH; [by apply step_constructed | by apply step_traces_own].
Qed.

Lemma step_traces_grow a o :
  is_reset o = false →
  BaseAgent.traces a `prefix_of` BaseAgent.traces (BaseAgent.step a o).
Proof.
  intros Ho. destruct o as [[?|] [?|] [?|] | | | |]; simpl; try done.
  by apply prefix_app_r.
Qed.

Lemma run_traces_grow ops : ∀ a,
  forallb (λ o, negb (is_reset o)) ops = true →
  BaseAgent.traces a `prefix_of` BaseAgent.traces (BaseAgent.run ops a).
Proof.
  induction ops as [|o ops IH]; intros a Hops; [done |].
  simpl in Hops. apply andb_true_iff in Hops as [Ho Hops].
  apply negb_true_iff in Ho.
  etrans; [by apply step_traces_grow | by apply IH].
Qed.

(** X2. Every trace an agent holds bears the agent's own identifier and
    type, and as long as the agent is not reset its trace log only grows:
    the traces it had remain, in order, at the front of the log. *)
Theorem traces_are_own_and_append_only (id : string) (ty : AgentType)
    ops (later : list BaseAgent.op) :
  let a := BaseAgent.run ops (BaseAgent.init id ty) in
  Forall (λ t, trace_agent_id t = id ∧ trace_agent_type t = ty)
         (BaseAgent.traces a) ∧
  (forallb (λ o, negb (is_reset o)) later = true →
   BaseAgent.traces a `prefix_of` BaseAgent.traces (BaseAgent.run later a)).
Proof.
  intros a. split.
  - apply run_traces_own; [apply init_constructed | constructor].
  - apply run_traces_grow.
Qed.

(** The trace log after one start trace, a long-term update and a status
    change still begins with that start trace. *)
Lemma traces_are_own_and_append_only_witness :
  forallb (λ o, negb (is_reset o))
    [BaseAgent.UpdateMemory None (Some {["k" := "v"]}) None;
     BaseAgent.SetStatus COMPLETED;
     BaseAgent.AddTrace "done" None] = true ∧
  BaseAgent.traces
    (BaseAgent.run [BaseAgent.AddTrace "start" None]
       (BaseAgent.init "engineer_1" ENGINEER))
  `prefix_of`
  BaseAgent.traces
    (BaseAgent.run
       [BaseAgent.UpdateMemory None (Some {["k" := "v"]}) None;
        BaseAgent.SetStatus COMPLETED;
        BaseAgent.AddTrace "done" None]
       (BaseAgent.run [BaseAgent.AddTrace "start" None]
          (BaseAgent.init "engineer_1" ENGINEER))).
Proof.
  assert (H : forallb (λ o, negb (is_reset o))
                [BaseAgent.UpdateMemory None (Some {["k" := "v"]}) None;
                 BaseAgent.SetStatus COMPLETED;
                 BaseAgent.AddTrace "done" None] = true) by reflexivity.
  split; [exact H |].
  exact (proj2 (traces_are_own_and_append_only "engineer_1" ENGINEER
                  [BaseAgent.AddTrace "start" None]
                  [BaseAgent.UpdateMemory None (Some {["k" := "v"]}) None;
                   BaseAgent.SetStatus COMPLETED;
                   BaseAgent.AddTrace "done" None]) H).
Defined.

(** X3. Merging into [long_term] overrides the keys it brings, keeps every
    other key with its value, and leaves [short_term] alone; no operation
    other than a reset ever removes a key. *)
Theorem long_term_merge_keeps_old_keys a (st : option (list string))
    (kv : gmap string Any) (wc : option string) (k : string) o :
  let a' := BaseAgent.update_memory st (Some kv) wc a in
  long_term (BaseAgent.memory a') !! k
  = (match kv !! k with
     | Some v => Some v
     | None => long_term (BaseAgent.memory a) !! k
     end) ∧
  dom (long_term (BaseAgent.memory a)) ⊆ dom (long_term (BaseAgent.memory a')) ∧
  short_term (BaseAgent.memory a')
  = short_term (BaseAgent.memory (BaseAgent.update_memory st None wc a)) ∧
  (is_reset o = false →
   dom (long_term (BaseAgent.memory a))
   ⊆ dom (long_term (BaseAgent.memory (BaseAgent.step a o)))).
Proof.
  intros a'. subst a'. repeat split.
  - destruct st, wc; simpl; rewrite lookup_union;
      destruct (kv !! k), (long_term (BaseAgent.memory a) !! k); done.
  - destruct st, wc; simpl; rewrite dom_union_L; set_solver.
  - by destruct st, wc.
  - intros Ho. destruct o as [[?|] [?|] [?|] | | | |]; simpl; try done;
      rewrite dom_union_L; set_solver.
Qed.

(** A merge that overrides one key and adds another. *)
Lemma long_term_merge_keeps_old_keys_witness :
  is_reset (BaseAgent.UpdateMemory None (Some {["b" := "2"]}) None) = false ∧
  dom (long_term
         (BaseAgent.memory
            (BaseAgent.update_memory None (Some {["a" := "1"]}) None
               (BaseAgent.init "engineer_1" ENGINEER))))
  ⊆ dom (long_term
           (BaseAgent.memory
              (BaseAgent.step
                 (BaseAgent.update_memory None (Some {["a" := "1"]}) None
                    (BaseAgent.init "engineer_1" ENGINEER))
                 (BaseAgent.UpdateMemory None (Some {["b" := "2"]}) None)))).
Proof.
  assert (H : is_reset (BaseAgent.UpdateMemory None (Some {["b" := "2"]}) None)
              = false) by reflexivity.
  split; [exact H |].
  exact (proj2 (proj2 (proj2
           (long_term_merge_keeps_old_keys
              (BaseAgent.update_memory None (Some {["a" := "1"]}) None
                 (BaseAgent.init "engineer_1" ENGINEER))
              None ∅ None "a"
              (BaseAgent.UpdateMemory None (Some {["b" := "2"]}) None)))) H).
Defined.

End AgentLifecycle.

(** ** What a call of [process] does *)

Section ProcessEffects.

Implicit Types (a : BaseAgent.t) (heuristic : AgentType -> string -> Outcome Q).

Lemma complete_task_status (done_action error_action : string)
    (quality : string -> Outcome Q) (answer : Outcome string) a :
  let result :=
    Agents.complete_task done_action error_action quality answer a in
  BaseAgent.status (fst result)
  = if returns (snd result) then COMPLETED else ERROR.
Proof.
  unfold Agents.complete_task, Agents._call_claude, Agents.on_error,
    new_AgentResponse.
  destruct answer as [text|e]; [| done].
  destruct (quality text) as [q|e]; [| done].
  by destruct (field_in_unit q).
Qed.

Lemma process_status_of heuristic (answer : Outcome string)
    (task : string) (context : option Context) a :
  BaseAgent.status (fst (Agents.variant_process heuristic answer task a))
  = (if returns (snd (Agents.variant_process heuristic answer task a))
     then COMPLETED else ERROR) ∧
  BaseAgent.status (fst (SynthesizerAgent.process answer task context a))
  = (if returns (snd (SynthesizerAgent.process answer task context a))
     then COMPLETED else ERROR).
Proof. split; apply complete_task_status. Qed.

(** X4. A call of [process], of a workflow agent or of the synthesizer,
    leaves the agent [COMPLETED] exactly when it returns a response and
    [ERROR] exactly when it raises, whatever failed; in both cases the
    task has become the agent's working context. *)
Theorem process_status_tells_outcome heuristic (answer : Outcome string)
    (task : string) (context : option Context) a :
  let variant := Agents.variant_process heuristic answer task a in
  let synthesis := SynthesizerAgent.process answer task context a in
  BaseAgent.status (fst variant)
  = (if returns (snd variant) then COMPLETED else ERROR) ∧
  BaseAgent.status (fst synthesis)
  = (if returns (snd synthesis) then COMPLETED else ERROR) ∧
  working_context (BaseAgent.memory (fst variant)) = Some task ∧
  working_context (BaseAgent.memory (fst synthesis)) = Some task.
Proof.
  intros variant synthesis. subst variant synthesis.
  unfold Agents.variant_process, SynthesizerAgent.process.
  rewrite !complete_task_memory.
  repeat split; try done; apply complete_task_status.
Qed.


Lemma in_unit_valid (q : Q) : 0 <= q <= 1 → field_in_unit q = true.
Proof.
  intros [? ?]. unfold field_in_unit.
  apply andb_true_iff. by rewrite !Qle_bool_iff.
Qed.

Lemma variant_process_returns heuristic (text task : string) (q : Q) a :
  heuristic (BaseAgent.self_type a) text = Returned q →
  0 <= q <= 1 →
  ∃ a' r,
    Agents.variant_process heuristic (Returned text) task a
    = (a', Returned r) ∧
    BaseAgent.status a' = COMPLETED ∧
    response r = text ∧
    confidence r = q.
Proof.
  intros Hq Hunit.
  unfold Agents.variant_process, Agents.complete_task, new_AgentResponse.
  simpl. rewrite Hq, (in_unit_valid q Hunit). by eexists _, _.
Qed.



(** X6. When the completion service fails with an error, [process] raises
    that same error: the agent keeps its vector, has nevertheless recorded
    the task in its memory, and its log gains three traces - the start,
    the failed completion call and the agent's error action, the last two
    with the error. The synthesizer fails the same way. *)
Theorem process_failure_effects heuristic (e task : string)
    (context : option Context) a :
  let variant := Agents.variant_process heuristic (Raised e) task a in
  let synthesis := SynthesizerAgent.process (Raised e) task context a in
  let ty := BaseAgent.self_type a in
  snd variant = Raised e ∧
  BaseAgent.vector (fst variant) = BaseAgent.vector a ∧
  BaseAgent.traces (fst variant)
  = BaseAgent.traces a
    ++ [trace_of a (Agents.start_action ty) None;
        trace_of a "call_claude" (Some e);
        trace_of a (Agents.error_action ty) (Some e)] ∧
  short_term (BaseAgent.memory (fst variant))
  = Py.last_n 10
      (short_term (BaseAgent.memory a)
       ++ [Agents.memory_label ty +:+ Py.str_take 100 task]) ∧
  snd synthesis = Raised e ∧
  BaseAgent.vector (fst synthesis) = BaseAgent.vector a ∧
  BaseAgent.traces (fst synthesis)
  = BaseAgent.traces a
    ++ [trace_of a "start_synthesis" None;
        trace_of a "call_claude" (Some e);
        trace_of a "synthesis_error" (Some e)].
Proof.
  intros variant synthesis ty. subst variant synthesis ty.
  unfold Agents.variant_process, SynthesizerAgent.process,
    Agents.complete_task. simpl.
  rewrite <- !app_assoc. destruct a as [? ? ? [? ? ? ?] ? ?]. done.
Qed.

End ProcessEffects.

(** ** The confidence heuristics *)

Section SourceHeuristics.

Lemma startswith_length (sub s : string) :
  Py.startswith sub s = true → (String.length sub ≤ String.length s)%nat.
Proof.
  revert s. induction sub as [|a sub IH]; intros s; simpl; [lia |].
  destruct s as [|b s]; [done |]. simpl.
  destruct (Ascii.eqb a b); [| done]. intros H. apply IH in H. lia.
Qed.

Lemma count_from_bound (sub : string) (s : string) : ∀ skip,
  (1 ≤ String.length sub)%nat →
  (String.length sub * PyStr.count_from skip sub s
   ≤ String.length s - skip)%nat.
Proof.
  induction s as [|c s IH]; intros skip Hsub.
  - simpl. destruct sub; simpl in *; lia.
  - destruct skip as [|k].
    + cbn [PyStr.count_from].
      destruct (Py.startswith sub (String c s)) eqn:E.
      * apply startswith_length in E. simpl in E.
        specialize (IH (String.length sub - 1)%nat Hsub). simpl. nia.
      * specialize (IH 0%nat Hsub). simpl. lia.
    + cbn [PyStr.count_from]. specialize (IH k Hsub). simpl. lia.
Qed.

Lemma count_zero_iff (sub : string) (s : string) :
  (1 ≤ String.length sub)%nat →
  PyStr.count sub s = 0%nat ↔ Py.contains sub s = false.
Proof.
  intros Hsub. unfold PyStr.count.
  induction s as [|c s IH].
  - simpl. destruct sub; simpl in *; [lia | done].
  - cbn [PyStr.count_from Py.contains].
    destruct (Py.startswith sub (String c s)); simpl; [done |].
    exact IH.
Qed.

Lemma tenths_positive (n : nat) :
  (1 ≤ n)%nat → 0.1 <= inject_Z (Z.of_nat n) / 10.
Proof.
  intros Hn. apply Qle_shift_div_l; [done |].
  assert (inject_Z 1 <= inject_Z (Z.of_nat n)) by (rewrite <- Zle_Qle; lia).
  assert (0.1 * 10 == inject_Z 1) by done. lra.
Qed.

Lemma tenths_monotone (m n : nat) :
  (m ≤ n)%nat → inject_Z (Z.of_nat m) / 10 <= inject_Z (Z.of_nat n) / 10.
Proof.
  intros Hmn. unfold Qdiv. apply Qmult_le_compat_r; [| done].
  rewrite <- Zle_Qle. lia.
Qed.

Lemma engineer_score_bounds (text : string) :
  0.7 <= Heuristics.engineer_w2_score text <= 0.95.
Proof.
  unfold Heuristics.engineer_w2_score.
  assert (0 <= inject_Z (Z.of_nat (Heuristics.engineer_code_blocks text)) / 10).
  { apply Qle_shift_div_l; [done |]. rewrite Qmult_0_l.
    change 0 with (inject_Z 0). rewrite <- Zle_Qle. lia. }
  generalize dependent
    (inject_Z (Z.of_nat (Heuristics.engineer_code_blocks text)) / 10).
  intros x Hx. unfold Py.min.
  destruct (Py.ltb (0.7 + x) 0.95) eqn:E; compare_floats; split; lra.
Qed.

Lemma reviewer_score_cases (text : string) :
  Heuristics.reviewer_quality_score text = 0.9 ∨
  Heuristics.reviewer_quality_score text = 0.7 ∨
  Heuristics.reviewer_quality_score text = 0.5.
Proof.
  unfold Heuristics.reviewer_quality_score.
  destruct (Py.contains "approve" _); [by left |].
  destruct (Py.contains "needs_changes" _); [right; by left | right; by right].
Qed.

Lemma research_score_cases (text : string) :
  Heuristics.research_relevance text = 0.6 ∨
  Heuristics.research_relevance text = 0.5 ∨
  Heuristics.research_relevance text = 0.85.
Proof.
  unfold Heuristics.research_relevance.
  destruct (String.length text <? 200)%nat; [by left |].
  destruct (_ || _)%bool; [right; by left | right; by right].
Qed.

Lemma from_source_in_range (other : AgentType -> string -> Outcome Q)
    (ty : AgentType) (text : string) :
  ty ∈ [ENGINEER; REVIEWER; RESEARCH] →
  ∃ q, Heuristics.from_source other ty text = Returned q ∧
       0.5 <= q <= 0.95.
Proof.
  rewrite !elem_of_cons, elem_of_nil. intros [-> | [-> | [-> | []]]]; simpl.
  - eexists. split; [done |]. pose proof (engineer_score_bounds text). lra.
  - eexists. split; [done |].
    destruct (reviewer_score_cases text) as [-> | [-> | ->]];
      split; unfold Qle; simpl; lia.
  - eexists. split; [done |].
    destruct (research_score_cases text) as [-> | [-> | ->]];
      split; unfold Qle; simpl; lia.
Qed.

(** X7. The heuristics of Engineer, Reviewer and Research never raise and
    always yield a confidence between 0.5 and 0.95, so for these three
    agents [process] returns whenever the completion service answers, and
    leaves the agent [COMPLETED]. *)
Theorem source_heuristics_never_fail
    (other : AgentType -> string -> Outcome Q) (text task : string)
    (a : BaseAgent.t) :
  BaseAgent.self_type a ∈ [ENGINEER; REVIEWER; RESEARCH] →
  ∃ a' r,
    Agents.variant_process (Heuristics.from_source other) (Returned text)
      task a = (a', Returned r) ∧
    BaseAgent.status a' = COMPLETED ∧
    response r = text ∧
    0.5 <= confidence r <= 0.95.
Proof.
  intros Hty.
  destruct (from_source_in_range other _ text Hty) as (q & Hq & Hlo & Hhi).
  destruct (variant_process_returns (Heuristics.from_source other) text
              task q a Hq) as (a' & r & E & Hst & Hr & Hc); [lra |].
  exists a', r. rewrite Hc. by repeat split.
Qed.

(** A Reviewer that answers always returns. *)
Lemma source_heuristics_never_fail_witness :
  BaseAgent.self_type (BaseAgent.init "reviewer_1" REVIEWER)
  ∈ [ENGINEER; REVIEWER; RESEARCH] ∧
  ∃ a' r,
    Agents.variant_process (Heuristics.from_source (λ _ _, Raised "no"))
      (Returned "I approve") "task" (BaseAgent.init "reviewer_1" REVIEWER)
    = (a', Returned r) ∧
    BaseAgent.status a' = COMPLETED ∧
    response r = "I approve" ∧
    0.5 <= confidence r <= 0.95.
Proof.
  assert (H : BaseAgent.self_type (BaseAgent.init "reviewer_1" REVIEWER)
              ∈ [ENGINEER; REVIEWER; RESEARCH])
    by (simpl; rewrite !elem_of_cons; tauto).
  split; [exact H |].
  exact (source_heuristics_never_fail (λ _ _, Raised "no") "I approve" "task"
           (BaseAgent.init "reviewer_1" REVIEWER) H).
Defined.

(** X8. The Reviewer's confidence is decided by two keywords looked for in
    the lowercased answer, in order: "approve" anywhere - also inside a
    longer word - gives 0.9 whatever else the answer says; otherwise
    "needs_changes" gives 0.7; otherwise 0.5. *)
Theorem reviewer_score_is_keyword_ordered (text : string) :
  let low := Py.lower text in
  let score := Heuristics.reviewer_quality_score text in
  (occurs_in "approve" low ∧ score = 0.9) ∨
  (¬ occurs_in "approve" low ∧ occurs_in "needs_changes" low ∧ score = 0.7) ∨
  (¬ occurs_in "approve" low ∧ ¬ occurs_in "needs_changes" low ∧ score = 0.5).
Proof.
  intros low score. subst score. unfold Heuristics.reviewer_quality_score.
  fold low.
  destruct (Py.contains "approve" low) eqn:E1.
  { left. split; [by apply contains_spec | done]. }
  assert (¬ occurs_in "approve" low)
    by (rewrite <- contains_spec; congruence).
  right. destruct (Py.contains "needs_changes" low) eqn:E2.
  { left. split; [done |]. split; [by apply contains_spec | done]. }
  right. split; [done |]. split; [| done].
  rewrite <- contains_spec. congruence.
Qed.

(** X9. The Engineer's confidence is 0.7 plus a tenth per code fence of
    the answer, capped at 0.95: it lies between 0.7 and 0.95, never falls
    when the answer has more fences, and is 0.7 exactly when the answer has
    no fence. The fences counted do not overlap, so three times their
    number is at most the length of the answer. *)
Theorem engineer_score_grows_with_code_fences (text other_text : string) :
  let fences := Heuristics.engineer_code_blocks text in
  0.7 <= Heuristics.engineer_w2_score text <= 0.95 ∧
  (3 * fences ≤ String.length text)%nat ∧
  (fences = 0%nat ↔ ¬ occurs_in "```" text) ∧
  (Heuristics.engineer_w2_score text == 0.7 ↔ fences = 0%nat) ∧
  ((fences ≤ Heuristics.engineer_code_blocks other_text)%nat →
   Heuristics.engineer_w2_score text
   <= Heuristics.engineer_w2_score other_text).
Proof.
  intros fences. split; [apply engineer_score_bounds |]. split.
  { pose proof (count_from_bound "```" text 0) as H. simpl in H.
    subst fences. unfold Heuristics.engineer_code_blocks, PyStr.count. lia. }
  split.
  { subst fences. unfold Heuristics.engineer_code_blocks.
    rewrite count_zero_iff by (simpl; lia). rewrite <- contains_spec.
    by destruct (Py.contains "```" text). }
  split.
  - unfold Heuristics.engineer_w2_score. fold fences. split.
    + intros H. destruct fences as [|n]; [done |]. exfalso.
      pose proof (tenths_positive (S n) ltac:(lia)) as Hy.
      generalize dependent (inject_Z (Z.of_nat (S n)) / 10). intros y H Hy.
      unfold Py.min in H.
      destruct (Py.ltb (0.7 + y) 0.95) eqn:E; compare_floats; lra.
    + intros ->. done.
  - intros Hle. unfold Heuristics.engineer_w2_score. fold fences.
    pose proof (tenths_monotone _ _ Hle) as Hy.
    generalize dependent (inject_Z (Z.of_nat fences) / 10). intros x.
    generalize dependent
      (inject_Z (Z.of_nat (Heuristics.engineer_code_blocks other_text)) / 10).
    intros y Hxy. unfold Py.min.
    destruct (Py.ltb (0.7 + x) 0.95) eqn:E1;
      destruct (Py.ltb (0.7 + y) 0.95) eqn:E2; compare_floats; lra.
Qed.

(** More fences, at least the same confidence. *)
Lemma engineer_score_grows_with_code_fences_witness :
  (Heuristics.engineer_code_blocks "no code"
   ≤ Heuristics.engineer_code_blocks "```py```")%nat ∧
  Heuristics.engineer_w2_score "no code"
  <= Heuristics.engineer_w2_score "```py```".
Proof.
  assert (H : (Heuristics.engineer_code_blocks "no code"
               ≤ Heuristics.engineer_code_blocks "```py```")%nat)
    by (vm_compute; lia).
  split; [exact H |].
  exact (proj2 (proj2 (proj2 (proj2
           (engineer_score_grows_with_code_fences "no code" "```py```")))) H).
Defined.

End SourceHeuristics.

(** ** One request, seen from the conversation log *)

Section RequestEffects.

Variable complete : nat -> Outcome string.
Variable heuristic : AgentType -> string -> Outcome Q.
Variable quantum : option (QuantumMetrics * string).
Variable request : AuraRequest.

Implicit Types (w : AuraOrchestrator.World) (ty : AgentType)
  (st : AuraOrchestrator.World * list AgentResponse).

Lemma complete_task_response (done_action error_action : string)
    (quality : string -> Outcome Q) (answer : Outcome string)
    (a a' : BaseAgent.t) (r : AgentResponse) :
  Agents.complete_task done_action error_action quality answer a
  = (a', Returned r) →
  agent_id r = BaseAgent.self_id a ∧
  agent_type r = BaseAgent.self_type a ∧
  ∃ text, answer = Returned text ∧ response r = text ∧
          quality text = Returned (confidence r).
Proof.
  unfold Agents.complete_task, Agents._call_claude, Agents.on_error,
    new_AgentResponse.
  destruct answer as [text|e]; [| done].
  destruct (quality text) as [q|e] eqn:Hq; [| done].
  destruct (field_in_unit q); [| done].
  intros [= <- <-]. simpl. repeat split; try done. by exists text.
Qed.

Lemma process_of_facts (synthesizer : bool) (answer : Outcome string)
    (task : string) (context : option Context) (a : BaseAgent.t) :
  let p := process_of heuristic synthesizer answer task context a in
  (∀ id ty, constructed_as id ty a → constructed_as id ty (fst p)) ∧
  BaseAgent.status (fst p) = (if returns (snd p) then COMPLETED else ERROR) ∧
  (∀ r, snd p = Returned r →
        agent_id r = BaseAgent.self_id a ∧
        agent_type r = BaseAgent.self_type a) ∧
  (BaseAgent.vector_ok (BaseAgent.vector a) →
   BaseAgent.vector_ok (BaseAgent.vector (fst p))).
Proof.
  pose proof (process_status_of heuristic answer task context a)
    as (Hs1 & Hs2).
  assert (Hr : ∀ done_action error_action quality b a' res r,
            Agents.complete_task done_action error_action quality answer b
            = (a', res) →
            res = Returned r →
            agent_id r = BaseAgent.self_id b ∧
            agent_type r = BaseAgent.self_type b).
  { intros ??????? E ->. by apply complete_task_response in E as (? & ? & _). }
  unfold process_of. destruct synthesizer.
  - split; [intros id ty; apply synthesizer_process_constructed |].
    split; [done |].
    split; [| apply synthesizer_process_vector_ok].
    intros r Hres. unfold SynthesizerAgent.process in *.
    destruct (Agents.complete_task _ _ _ _ _) as [a' res] eqn:E.
    by apply (Hr _ _ _ _ _ _ _ E Hres).
  - split; [intros id ty; apply variant_process_constructed |].
    split; [done |].
    split; [| apply variant_process_vector_ok].
    intros r Hres. unfold Agents.variant_process in *.
    destruct (Agents.complete_task _ _ _ _ _) as [a' res] eqn:E.
    by apply (Hr _ _ _ _ _ _ _ E Hres).
Qed.

(** [invoke] runs the [process] of the agent's kind and stores the agent
    back. *)
Lemma invoke_unfold ty (task : string) (context : Context) w :
  AuraOrchestrator.invoke complete heuristic ty task context w
  = let p := process_of heuristic (bool_decide (ty = SYNTHESIZER))
               (complete (AuraOrchestrator.calls w)) task (Some context)
               (AuraOrchestrator.agents (AuraOrchestrator.orch w) ty) in
    (AuraOrchestrator.observe
       (AuraOrchestrator.Invoked ty (returns (snd p)))
       {| AuraOrchestrator.orch :=
            AuraOrchestrator.set_agent ty (fst p) (AuraOrchestrator.orch w);
          AuraOrchestrator.calls := S (AuraOrchestrator.calls w);
          AuraOrchestrator.events := AuraOrchestrator.events w |},
     snd p).
Proof.
  unfold AuraOrchestrator.invoke, process_of.
  destruct ty; simpl;
    match goal with
    | |- (let '(_, _) := ?p in _) = _ => by destruct p
    end.
Qed.

(** What a call of an agent leaves behind in the orchestrator. *)
Lemma invoke_frame ty (task : string) (context : Context) w :
  let result := AuraOrchestrator.invoke complete heuristic ty task context w in
  let o := AuraOrchestrator.orch w in
  let o' := AuraOrchestrator.orch (fst result) in
  AuraOrchestrator.conversation_history o'
  = AuraOrchestrator.conversation_history o ∧
  AuraOrchestrator.session_id o' = AuraOrchestrator.session_id o ∧
  (∀ ty', ty' ≠ ty →
     AuraOrchestrator.agents o' ty' = AuraOrchestrator.agents o ty') ∧
  (∀ id, constructed_as id ty (AuraOrchestrator.agents o ty) →
         constructed_as id ty (AuraOrchestrator.agents o' ty)) ∧
  BaseAgent.status (AuraOrchestrator.agents o' ty) ≠ WORKING ∧
  BaseAgent.status (AuraOrchestrator.agents o' ty) ≠ ACTIVE ∧
  (∀ r, snd result = Returned r →
        agent_id r = BaseAgent.self_id (AuraOrchestrator.agents o ty) ∧
        agent_type r = BaseAgent.self_type (AuraOrchestrator.agents o ty)).
Proof.
  rewrite invoke_unfold.
  pose proof (process_of_facts (bool_decide (ty = SYNTHESIZER))
                (complete (AuraOrchestrator.calls w)) task (Some context)
                (AuraOrchestrator.agents (AuraOrchestrator.orch w) ty))
    as (Hc & Hs & Hr & _).
  cbv zeta in *. simpl. rewrite decide_True by done.
  split; [done |]. split; [done |]. split.
  { intros ty' Hne. by rewrite decide_False. }
  split; [intros id; apply Hc |].
  rewrite Hs. split; [by destruct (returns _) |].
  split; [by destruct (returns _) | exact Hr].
Qed.

Lemma run_agent_frame st ty :
  let st' := AuraOrchestrator.run_agent complete heuristic request st ty in
  let o := AuraOrchestrator.orch (fst st) in
  let o' := AuraOrchestrator.orch (fst st') in
  (∃ new, snd st' = snd st ++ new ∧
          history_of (fst st') = history_of (fst st) ++ map agent_message new ∧
          Forall (λ r, enabled request ty = true ∧
                       agent_id r
                       = BaseAgent.self_id (AuraOrchestrator.agents o ty) ∧
                       agent_type r
                       = BaseAgent.self_type (AuraOrchestrator.agents o ty))
                 new) ∧
  AuraOrchestrator.session_id o' = AuraOrchestrator.session_id o ∧
  (∀ ty', ty' ≠ ty →
     AuraOrchestrator.agents o' ty' = AuraOrchestrator.agents o ty') ∧
  (∀ id, constructed_as id ty (AuraOrchestrator.agents o ty) →
         constructed_as id ty (AuraOrchestrator.agents o' ty)) ∧
  (BaseAgent.status (AuraOrchestrator.agents o ty) ≠ WORKING ∧
   BaseAgent.status (AuraOrchestrator.agents o ty) ≠ ACTIVE →
   BaseAgent.status (AuraOrchestrator.agents o' ty) ≠ WORKING ∧
   BaseAgent.status (AuraOrchestrator.agents o' ty) ≠ ACTIVE) ∧
  (enabled request ty = false → st' = st).
Proof.
  destruct st as [w responses]. unfold AuraOrchestrator.run_agent.
  fold (enabled request ty). destruct (enabled request ty) eqn:E.
  - pose proof (invoke_frame ty (prompt request)
                  (AuraOrchestrator._prepare_context (AuraOrchestrator.orch w)
                     request responses) w)
      as (Hh & Hsid & Hother & Hc & Hw & Ha & Hr).
    unfold history_of.
    destruct (AuraOrchestrator.invoke _ _ _ _ _ _) as [w' [r|e]];
      simpl in *; split_and!; try done.
    + exists [r]. rewrite Hh. split_and!; try done.
      constructor; [| constructor]. split; [done |]. by apply Hr.
    + exists []. rewrite Hh, !app_nil_r. by split_and!.
  - unfold history_of. simpl. split_and!; try done.
    exists []. rewrite !app_nil_r. by split_and!.
Qed.

Lemma loop_frame_refl (workflow : list AgentType) st :
  loop_frame request workflow st st.
Proof.
  split_and!; try done. exists []. rewrite !app_nil_r. by split_and!.
Qed.

Lemma loop_frame_trans (workflow : list AgentType) st1 st2 st3 :
  loop_frame request workflow st1 st2 →
  loop_frame request workflow st2 st3 →
  loop_frame request workflow st1 st3.
Proof.
  intros ((new1 & Hr1 & Hh1 & Hf1) & Hs1 & Hc1 & Ha1)
         ((new2 & Hr2 & Hh2 & Hf2) & Hs2 & Hc2 & Ha2).
  split_and!.
  - exists (new1 ++ new2).
    rewrite Hr2, Hr1, Hh2, Hh1, map_app, <- !app_assoc. split_and!; try done.
    apply Forall_app. split; [done |].
    eapply Forall_impl; [exact Hf2 |].
    intros r (ty & Hty & Hen & Hid). exists ty. split_and!; try done.
    intros id Hcon. by apply Hid, Hc1.
  - by rewrite Hs2.
  - intros ty id H. by apply Hc2, Hc1.
  - intros H. by apply Ha2, Ha1.
Qed.

Lemma run_agent_loop_frame (workflow : list AgentType) st ty :
  ty ∈ workflow →
  loop_frame request workflow st
    (AuraOrchestrator.run_agent complete heuristic request st ty).
Proof.
  intros Hty.
  destruct (run_agent_frame st ty)
    as ((new & Hr & Hh & Hf) & Hsid & Hother & Hc & Hrest & _).
  split_and!; try done.
  - exists new. split_and!; try done.
    eapply Forall_impl; [exact Hf |].
    intros r (Hen & Hid & Htype). exists ty. split_and!; try done.
    intros id (Hid' & Hty' & _). by rewrite Hid, Htype.
  - intros ty' id H. destruct (decide (ty' = ty)) as [->|Hne].
    + by apply Hc.
    + by rewrite Hother.
  - intros Hat ty'. destruct (decide (ty' = ty)) as [->|Hne].
    + by apply Hrest.
    + rewrite Hother by done. apply Hat.
Qed.

Lemma run_agents_loop_frame (workflow agents_left : list AgentType) : ∀ st,
  agents_left ⊆ workflow →
  loop_frame request workflow st
    (fold_left (AuraOrchestrator.run_agent complete heuristic request)
       agents_left st).
Proof.
  induction agents_left as [|ty rest IH]; intros st Hsub.
  - apply loop_frame_refl.
  - simpl. eapply loop_frame_trans.
    + apply run_agent_loop_frame. apply Hsub. by left.
    + apply IH. intros x Hx. apply Hsub. by right.
Qed.

Lemma run_pass_loop_frame (workflow : list AgentType) (iteration : Z) st :
  loop_frame request workflow st
    (AuraOrchestrator.run_pass complete heuristic request workflow iteration
       st).
Proof.
  destruct st as [w responses]. unfold AuraOrchestrator.run_pass.
  eapply loop_frame_trans; [| by apply run_agents_loop_frame].
  split_and!; try done. exists []. rewrite !app_nil_r. by split_and!.
Qed.

Lemma run_iterations_loop_frame (workflow : list AgentType)
    (iterations : list Z) : ∀ st,
  loop_frame request workflow st
    (AuraOrchestrator.run_iterations complete heuristic request workflow
       iterations st).
Proof.
  induction iterations as [|iteration rest IH]; intros st.
  - apply loop_frame_refl.
  - simpl. pose proof (run_pass_loop_frame workflow iteration st) as Hpass.
    destruct (AuraOrchestrator._should_continue _ _ _); [| done].
    eapply loop_frame_trans; [exact Hpass | apply IH].
Qed.

(** [process_request], taken apart: the loop, then the synthesizer, then
    the assistant message. *)
Lemma process_request_frame w :
  let result :=
    AuraOrchestrator.process_request complete heuristic quantum request w in
  let workflow := AuraOrchestrator._determine_workflow request in
  let o := AuraOrchestrator.orch w in
  let o' := AuraOrchestrator.orch (fst result) in
  ∃ loop_responses,
    Forall (collected_from request workflow o) loop_responses ∧
    history_of (fst result)
    = history_of w ++ [user_message request]
      ++ map agent_message loop_responses
      ++ (match snd result with
          | Returned resp => [assistant_message (final_response resp)]
          | Raised _ => []
          end) ∧
    (∀ resp, snd result = Returned resp →
       ∃ final,
         agent_responses resp = loop_responses ++ [final] ∧
         final_response resp = response final ∧
         resp_session_id resp = AuraOrchestrator.session_id o ∧
         resp_total_iterations resp = AuraOrchestrator.total_iterations o' ∧
         consciousness_metrics resp
         = (if quantum_enhanced request then fst <$> quantum else None) ∧
         quantum_backend_used resp
         = (if quantum_enhanced request then snd <$> quantum else None) ∧
         (∀ id, constructed_as id SYNTHESIZER
                  (AuraOrchestrator.agents o SYNTHESIZER) →
                agent_id final = id ∧ agent_type final = SYNTHESIZER) ∧
         confidence final
         = SynthesizerAgent.quality (length loop_responses)) ∧
    AuraOrchestrator.session_id o' = AuraOrchestrator.session_id o ∧
    (∀ ty id, constructed_as id ty (AuraOrchestrator.agents o ty) →
              constructed_as id ty (AuraOrchestrator.agents o' ty)) ∧
    (at_rest o → at_rest o').
Proof.
  unfold AuraOrchestrator.process_request.
  fold (user_message request).
  set (w0 := AuraOrchestrator.map_orch
               (AuraOrchestrator.append_history (user_message request)) w).
  pose proof (run_iterations_loop_frame
                (AuraOrchestrator._determine_workflow request)
                (Py.range (max_iterations request)) (w0, []))
    as ((new & Hr & Hh & Hf) & Hsid & Hc & Hrest).
  destruct (AuraOrchestrator.run_iterations _ _ _ _ _ _) as [w1 responses].
  simpl in Hr, Hh, Hf, Hsid, Hc, Hrest. subst responses.
  set (context := {| original_prompt := prompt request;
                     ctx_session_id := None;
                     previous_responses := None;
                     ctx_agent_responses :=
                       Some (map AuraOrchestrator.summary new) |}).
  pose proof (invoke_frame SYNTHESIZER
                "Synthesize all agent outputs into final response" context w1)
    as (Hh2 & Hsid2 & Hother2 & Hc2 & Hw2 & Ha2 & Hr2).
  pose proof (invoke_unfold SYNTHESIZER
                "Synthesize all agent outputs into final response" context w1)
    as Hinv.
  destruct (AuraOrchestrator.invoke _ _ _ _ _ _) as [w2 res] eqn:E.
  simpl in Hh2, Hsid2, Hother2, Hc2, Hw2, Ha2, Hr2.
  assert (Hkeep : ∀ ty id,
            constructed_as id ty
              (AuraOrchestrator.agents (AuraOrchestrator.orch w) ty) →
            constructed_as id ty
              (AuraOrchestrator.agents (AuraOrchestrator.orch w2) ty)).
  { intros ty id H. destruct (decide (ty = SYNTHESIZER)) as [->|Hne].
    - by apply Hc2, Hc.
    - rewrite Hother2 by done. by apply Hc. }
  assert (Hat : at_rest (AuraOrchestrator.orch w) →
                at_rest (AuraOrchestrator.orch w2)).
  { intros H ty. destruct (decide (ty = SYNTHESIZER)) as [->|Hne].
    - done.
    - rewrite Hother2 by done. by apply Hrest. }
  exists new. destruct res as [final|e]; simpl.
  - split_and!; try done.
    + unfold history_of in *. simpl in *. rewrite Hh2, Hh.
      by rewrite <- !app_assoc.
    + intros resp [= <-]. exists final. simpl. split_and!; try done.
      * by rewrite Hsid2, Hsid.
      * by destruct (quantum_enhanced request).
      * by destruct (quantum_enhanced request).
      * intros id H. destruct (Hr2 final eq_refl) as [Hid Hty].
        apply Hc in H as (Hid' & Hty' & _). by rewrite Hid, Hty.
      * injection Hinv as _ Hres. unfold process_of in Hres. simpl in Hres.
        unfold SynthesizerAgent.process in Hres.
        destruct (Agents.complete_task _ _ _ _ _) as [a' res'] eqn:Ect.
        simpl in Hres. subst res'.
        apply complete_task_response in Ect as (_ & _ & text & _ & _ & Hq).
        injection Hq as <-. simpl. by rewrite length_map.
    + by rewrite Hsid2, Hsid.
  - split_and!; try done.
    + unfold history_of in *. simpl in *. rewrite Hh2, Hh.
      by rewrite <- !app_assoc, app_nil_r.
    + by rewrite Hsid2, Hsid.
Qed.

(** X10. One request writes the conversation log in order: the user's
    prompt first, then one agent message per response the loop collected,
    in the order collected, then - only if the synthesizer returned - the
    assistant message with the final text. What the caller gets back is
    those same loop responses followed by the synthesizer's, whose text is
    the final response; when the synthesizer raises, the log keeps the
    user and agent messages all the same. *)
Theorem conversation_log_is_ordered w :
  let result :=
    AuraOrchestrator.process_request complete heuristic quantum request w in
  ∃ loop_responses,
    history_of (fst result)
    = history_of w ++ [user_message request]
      ++ map agent_message loop_responses
      ++ (match snd result with
          | Returned resp => [assistant_message (final_response resp)]
          | Raised _ => []
          end) ∧
    match snd result with
    | Returned resp =>
        ∃ final, agent_responses resp = loop_responses ++ [final] ∧
                 final_response resp = response final
    | Raised _ => True
    end.
Proof.
  intros result.
  destruct (process_request_frame w) as (loop & _ & Hh & Hresp & _).
  fold result in Hh, Hresp. exists loop. split; [exact Hh |].
  destruct (snd result) as [resp|e]; [| done].
  destruct (Hresp resp eq_refl) as (final & ? & ? & _). by exists final.
Qed.

(** X11. In a returned response every entry but the last comes from an
    agent of the selected workflow that the request enables, under that
    agent's own identifier, and none of them from the synthesizer; the last
    entry is the synthesizer's, and its confidence is the synthesis quality
    for the number of entries before it. The response reports the session
    of the orchestrator and its iteration counter, and carries quantum
    metrics only if the request asked for them. *)
Theorem responses_come_from_enabled_workflow_agents w
    (resp : AuraResponse) :
  let o := AuraOrchestrator.orch w in
  let result :=
    AuraOrchestrator.process_request complete heuristic quantum request w in
  agents_as_constructed o →
  snd result = Returned resp →
  ∃ loop_responses final,
    agent_responses resp = loop_responses ++ [final] ∧
    Forall (λ r, agent_type r ∈ AuraOrchestrator._determine_workflow request ∧
                 agent_type r ∈ agents_enabled request ∧
                 agent_type r ≠ SYNTHESIZER ∧
                 agent_id r
                 = BaseAgent.self_id
                     (AuraOrchestrator.agents o (agent_type r)))
           loop_responses ∧
    agent_type final = SYNTHESIZER ∧
    agent_id final
    = BaseAgent.self_id (AuraOrchestrator.agents o SYNTHESIZER) ∧
    confidence final = SynthesizerAgent.quality (length loop_responses) ∧
    final_response resp = response final ∧
    resp_session_id resp = AuraOrchestrator.session_id o ∧
    resp_total_iterations resp
    = AuraOrchestrator.total_iterations
        (AuraOrchestrator.orch (fst result)) ∧
    (quantum_enhanced request = false → consciousness_metrics resp = None).
Proof.
  intros o result Hcon Hret.
  destruct (process_request_frame w) as (loop & Hf & _ & Hresp & _).
  destruct (Hresp resp Hret)
    as (final & Hall & Hfin & Hsid & Htot & Hqm & _ & Hsyn & Hconf).
  destruct (Hsyn _ (Hcon SYNTHESIZER)) as [Hid Hty].
  exists loop, final. split_and!; try done.
  - eapply Forall_impl; [exact Hf |].
    intros r (ty & Hty' & Hen & Hr).
    destruct (Hr _ (Hcon ty)) as [Hrid ->].
    split_and!; try done.
    + by apply bool_decide_eq_true_1 in Hen.
    + intros ->. by apply (workflow_without_synthesizer request).
  - intros Hq. by rewrite Hqm, Hq.
Qed.

End RequestEffects.

(** ** When the loop runs to its bound *)

Section FullLoop.

Variable complete : nat -> Outcome string.
Variable heuristic : AgentType -> string -> Outcome Q.
Variable quantum : option (QuantumMetrics * string).
Variable request : AuraRequest.

Implicit Types (w : AuraOrchestrator.World) (ty : AgentType)
  (st : AuraOrchestrator.World * list AgentResponse).

(** A property of the loop state that every pass keeps, and under which
    the latest confidence stays below the stopping threshold, makes the
    loop use every iteration it was given. *)
Lemma run_iterations_to_the_bound (workflow : list AgentType)
    (I : AuraOrchestrator.World * list AgentResponse → Prop) :
  (∀ st iteration,
     I st →
     I (AuraOrchestrator.run_pass complete heuristic request workflow
          iteration st)) →
  (∀ st c, I st → last_confidence (snd st) = Some c → c < 0.9) →
  ∀ (n a : nat) st,
    Z.of_nat (a + n) = max_iterations request →
    I st →
    let st' :=
      AuraOrchestrator.run_iterations complete heuristic request workflow
        (map Z.of_nat (seq a n)) st in
    I st' ∧ total_of (fst st') = (total_of (fst st) + Z.of_nat n)%Z.
Proof.
  intros Hpass Hlow. induction n as [|n IH]; intros a st Hmax HI.
  - simpl. split; [done | lia].
  - cbn [seq map AuraOrchestrator.run_iterations].
    pose proof (Hpass st (Z.of_nat a) HI) as HI1.
    destruct (run_pass_spec complete heuristic request workflow
                (Z.of_nat a) st) as (es & _ & Ht & _).
    set (st1 := AuraOrchestrator.run_pass complete heuristic request
                  workflow (Z.of_nat a) st) in *.
    destruct (AuraOrchestrator._should_continue (snd st1) (Z.of_nat a)
                (max_iterations request)) eqn:Hcont.
    + destruct (IH (S a) st1) as [HI' Ht']; [lia | done |].
      split; [done |]. rewrite Ht', Ht. lia.
    + apply should_continue_false in Hcont as [Hlast | (c & Hc & Hge)].
      * assert (n = 0%nat) as -> by lia. split; [done |]. rewrite Ht. lia.
      * pose proof (Hlow st1 c HI1 Hc). lra.
Qed.

Lemma process_request_total w :
  total_of
    (fst (AuraOrchestrator.process_request complete heuristic quantum
            request w))
  = total_of
      (fst (AuraOrchestrator.run_iterations complete heuristic request
              (AuraOrchestrator._determine_workflow request)
              (Py.range (max_iterations request))
              (AuraOrchestrator.map_orch
                 (AuraOrchestrator.append_history (user_message request)) w,
               []))).
Proof.
  unfold AuraOrchestrator.process_request. fold (user_message request).
  destruct (AuraOrchestrator.run_iterations _ _ _ _ _ _) as [w1 responses].
  match goal with
  | |- context [AuraOrchestrator.invoke ?c ?h ?ty ?task ?ctx ?w1] =>
      destruct (invoke_spec c h ty task ctx w1) as (_ & Htot & _);
      destruct (AuraOrchestrator.invoke c h ty task ctx w1)
        as [w2 [final|e]]
  end; simpl in *; unfold total_of in *; simpl; by rewrite Htot.
Qed.

Lemma low_confidences (responses : list AgentResponse) (c : Q) :
  Forall (λ r, confidence r < 0.9) responses →
  last_confidence responses = Some c → c < 0.9.
Proof.
  intros Hall. unfold last_confidence, Py.last_item.
  destruct (last responses) as [r|] eqn:E; [| done].
  intros [= <-]. apply last_Some in E as (l' & ->).
  by apply Forall_app in Hall as [_ [? _]%Forall_cons].
Qed.

Lemma run_agent_low (workflow : list AgentType) st ty :
  SYNTHESIZER ∉ workflow →
  ty ∈ workflow →
  (∀ ty' text q, ty' ∈ workflow → enabled request ty' = true →
                 heuristic ty' text = Returned q → q < 0.9) →
  agents_as_constructed (AuraOrchestrator.orch (fst st)) →
  Forall (λ r, confidence r < 0.9) (snd st) →
  Forall (λ r, confidence r < 0.9)
    (snd (AuraOrchestrator.run_agent complete heuristic request st ty)).
Proof.
  intros Hsyn Hty Hlow Hcon Hall. destruct st as [w responses].
  unfold AuraOrchestrator.run_agent. fold (enabled request ty).
  destruct (enabled request ty) eqn:E; [| done].
  rewrite invoke_unfold. cbv zeta.
  rewrite bool_decide_eq_false_2 by (intros ->; done).
  unfold process_of. simpl in *.
  destruct (Agents.variant_process heuristic _ _ _) as [a' [r|e]] eqn:Ep;
    simpl; [| done].
  apply Forall_app. split; [done |]. constructor; [| constructor].
  unfold Agents.variant_process in Ep.
  apply complete_task_response in Ep as (_ & _ & text & _ & _ & Hq).
  simpl in Hq. destruct (Hcon ty) as (_ & Htype & _).
  rewrite Htype in Hq. by eapply Hlow.
Qed.

Lemma run_agents_low (workflow agents_left : list AgentType) : ∀ st,
  SYNTHESIZER ∉ workflow →
  agents_left ⊆ workflow →
  (∀ ty' text q, ty' ∈ workflow → enabled request ty' = true →
                 heuristic ty' text = Returned q → q < 0.9) →
  agents_as_constructed (AuraOrchestrator.orch (fst st)) ∧
  Forall (λ r, confidence r < 0.9) (snd st) →
  let st' :=
    fold_left (AuraOrchestrator.run_agent complete heuristic request)
      agents_left st in
  agents_as_constructed (AuraOrchestrator.orch (fst st')) ∧
  Forall (λ r, confidence r < 0.9) (snd st').
Proof.
  induction agents_left as [|ty rest IH]; intros st Hsyn Hsub Hlow [Hc Hf];
    [done |].
  simpl. assert (Hty : ty ∈ workflow) by (apply Hsub; by left).
  apply IH; try done; [intros x Hx; apply Hsub; by right |]. split.
  - intros ty'.
    destruct (run_agent_loop_frame complete heuristic request workflow
                st ty Hty) as (_ & _ & Hk & _).
    destruct (Hc ty') as (_ & H2 & H3 & H4 & H5).
    destruct (Hk ty' _ (Hc ty')) as (H1' & H2' & H3' & H4' & H5').
    by split_and!.
  - by apply (run_agent_low workflow).
Qed.

(** X12. The loop stops early only on a confidence of at least 0.9: if
    the heuristics of the enabled workflow agents never reach 0.9, a
    request runs all [max_iterations] passes, whatever the completion
    service answers or fails to answer. *)
Theorem loop_runs_all_passes_below_threshold w :
  valid_request request →
  agents_as_constructed (AuraOrchestrator.orch w) →
  (∀ ty text q,
     ty ∈ AuraOrchestrator._determine_workflow request →
     enabled request ty = true →
     heuristic ty text = Returned q → q < 0.9) →
  total_of
    (fst (AuraOrchestrator.process_request complete heuristic quantum
            request w))
  = (total_of w + max_iterations request)%Z.
Proof.
  intros [Hlo Hhi] Hcon Hlow. rewrite process_request_total.
  set (workflow := AuraOrchestrator._determine_workflow request) in *.
  pose (I := λ st : AuraOrchestrator.World * list AgentResponse,
          agents_as_constructed (AuraOrchestrator.orch (fst st)) ∧
          Forall (λ r, confidence r < 0.9) (snd st)).
  destruct (run_iterations_to_the_bound workflow I) with
    (n := Z.to_nat (max_iterations request)) (a := 0%nat)
    (st := (AuraOrchestrator.map_orch
              (AuraOrchestrator.append_history (user_message request)) w,
            @nil AgentResponse)) as [_ Ht].
  - intros st iteration HI. destruct st as [w' responses].
    unfold AuraOrchestrator.run_pass.
    apply (run_agents_low workflow workflow); try done.
    apply workflow_without_synthesizer.
  - intros st c [_ Hf]. by apply low_confidences.
  - simpl. lia.
  - split; [done | constructor].
  - rewrite <- range_as_seq in Ht. rewrite Ht.
    unfold total_of. simpl. lia.
Qed.

Lemma run_agents_disabled (agents_left : list AgentType) : ∀ st,
  (∀ ty, ty ∈ agents_left → enabled request ty = false) →
  fold_left (AuraOrchestrator.run_agent complete heuristic request)
    agents_left st = st.
Proof.
  induction agents_left as [|ty rest IH]; intros st Hoff; [done |].
  simpl. destruct (run_agent_frame complete heuristic request st ty)
    as (_ & _ & _ & _ & _ & Hsame).
  rewrite Hsame by (apply Hoff; by left).
  apply IH. intros x Hx. apply Hoff. by right.
Qed.

(** X13. A request that enables none of the agents of its workflow still
    makes all [max_iterations] passes, calling nobody, and then lets the
    synthesizer answer alone: the response holds the synthesizer's entry
    only, with the default confidence 0.9, and the log gains the user
    message and the assistant message. *)
Theorem request_without_enabled_agents w (text : string) :
  valid_request request →
  (∀ ty, ty ∈ AuraOrchestrator._determine_workflow request →
         ty ∉ agents_enabled request) →
  complete (AuraOrchestrator.calls w) = Returned text →
  let result :=
    AuraOrchestrator.process_request complete heuristic quantum request w in
  ∃ resp final,
    snd result = Returned resp ∧
    agent_responses resp = [final] ∧
    response final = text ∧
    final_response resp = text ∧
    confidence final = 0.9 ∧
    AuraOrchestrator.calls (fst result) = S (AuraOrchestrator.calls w) ∧
    total_of (fst result) = (total_of w + max_iterations request)%Z ∧
    history_of (fst result)
    = history_of w ++ [user_message request; assistant_message text].
Proof.
  intros [Hlo Hhi] Hoff Hanswer result.
  set (workflow := AuraOrchestrator._determine_workflow request) in *.
  set (w0 := AuraOrchestrator.map_orch
               (AuraOrchestrator.append_history (user_message request)) w).
  assert (Hoff' : ∀ ty, ty ∈ workflow → enabled request ty = false).
  { intros ty Hty. apply bool_decide_eq_false_2. by apply Hoff. }
  pose (I := λ st : AuraOrchestrator.World * list AgentResponse,
          snd st = [] ∧
          AuraOrchestrator.calls (fst st) = AuraOrchestrator.calls w ∧
          history_of (fst st) = history_of w0).
  destruct (run_iterations_to_the_bound workflow I) with
    (n := Z.to_nat (max_iterations request)) (a := 0%nat)
    (st := (w0, @nil AgentResponse)) as [(Hnil & Hcalls & Hhist) Ht].
  - intros [w' responses] iteration HI.
    unfold AuraOrchestrator.run_pass. by rewrite run_agents_disabled.
  - intros st c (Hnil & _) Hc. by rewrite Hnil in Hc.
  - simpl. lia.
  - done.
  - rewrite <- range_as_seq in Hnil, Hcalls, Hhist, Ht.
    subst result. unfold AuraOrchestrator.process_request.
    fold (user_message request). fold w0. fold workflow.
    destruct (AuraOrchestrator.run_iterations _ _ _ _ _ _) as [w1 responses].
    simpl in Hnil, Hcalls, Hhist, Ht. subst responses.
    rewrite invoke_unfold. cbv zeta. unfold process_of. simpl.
    rewrite Hcalls, Hanswer.
    match goal with
    | |- context [SynthesizerAgent.process _ ?task ?ctx ?a] =>
        destruct (synthesizer_returns text task ctx a) as (b & r & E & Hconf);
        pose proof E as E'; unfold SynthesizerAgent.process in E';
        apply complete_task_response in E' as (_ & _ & t' & [= <-] & Hr & _)
    end.
    rewrite E. simpl. eexists _, r. split; [reflexivity |]. simpl.
    split_and!; try done.
    + unfold total_of in *. simpl in *. rewrite Ht. lia.
    + unfold history_of in *. simpl in *. rewrite Hhist, Hr.
      by rewrite <- app_assoc.
Qed.

End FullLoop.

(** A review prompt with only the Research agent enabled: the workflow is
    Reviewer then Engineer, nobody is enabled. *)
Lemma request_without_enabled_agents_witness :
  valid_request
    (mkAuraRequest "can you review my code" [RESEARCH] 3 false false) ∧
  (∀ ty, ty ∈ AuraOrchestrator._determine_workflow
                (mkAuraRequest "can you review my code" [RESEARCH] 3 false
                   false) →
         ty ∉ agents_enabled
                (mkAuraRequest "can you review my code" [RESEARCH] 3 false
                   false)) ∧
  service_up (AuraOrchestrator.calls fresh_world) = Returned "approve" ∧
  ∃ resp final,
    snd (AuraOrchestrator.process_request service_up confident None
           (mkAuraRequest "can you review my code" [RESEARCH] 3 false false)
           fresh_world) = Returned resp ∧
    agent_responses resp = [final] ∧
    confidence final = 0.9 ∧
    total_of
      (fst (AuraOrchestrator.process_request service_up confident None
              (mkAuraRequest "can you review my code" [RESEARCH] 3 false
                 false) fresh_world)) = (total_of fresh_world + 3)%Z.
Proof.
  assert (Hv : valid_request
                 (mkAuraRequest "can you review my code" [RESEARCH] 3 false
                    false)) by (unfold valid_request; simpl; lia).
  assert (Hoff : ∀ ty,
            ty ∈ AuraOrchestrator._determine_workflow
                   (mkAuraRequest "can you review my code" [RESEARCH] 3 false
                      false) →
            ty ∉ agents_enabled
                   (mkAuraRequest "can you review my code" [RESEARCH] 3 false
                      false)).
  { intros ty Hty Hin. simpl in Hin.
    apply list_elem_of_singleton in Hin as ->.
    vm_compute in Hty.
    repeat (apply elem_of_cons in Hty as [? | Hty]; [done |]).
    by apply elem_of_nil in Hty. }
  assert (Hup : service_up (AuraOrchestrator.calls fresh_world)
                = Returned "approve") by reflexivity.
  split; [exact Hv | split; [exact Hoff | split; [exact Hup |]]].
  destruct (request_without_enabled_agents service_up confident None
              (mkAuraRequest "can you review my code" [RESEARCH] 3 false
                 false) fresh_world "approve" Hv Hoff Hup)
    as (resp & final & Hret & Hone & _ & _ & Hconf & _ & Htot & _).
  exists resp, final.
  split; [exact Hret | split; [exact Hone | split; [exact Hconf |]]].
  exact Htot.
Defined.

(** A fresh orchestrator, a service that answers and heuristics in range. *)
Lemma responses_come_from_enabled_workflow_agents_witness :
  agents_as_constructed (AuraOrchestrator.orch fresh_world) ∧
  ∃ resp loop_responses final,
    snd (AuraOrchestrator.process_request service_up confident None
           example_request fresh_world) = Returned resp ∧
    agent_responses resp = loop_responses ++ [final] ∧
    Forall (λ r, agent_type r
                 ∈ AuraOrchestrator._determine_workflow example_request)
           loop_responses ∧
    agent_type final = SYNTHESIZER.
Proof.
  assert (Hcon : agents_as_constructed (AuraOrchestrator.orch fresh_world))
    by (intros ty; apply init_constructed).
  split; [exact Hcon |].
  destruct (snd (AuraOrchestrator.process_request service_up confident None
                   example_request fresh_world)) as [resp|e] eqn:Hret;
    [| by vm_compute in Hret].
  destruct (responses_come_from_enabled_workflow_agents service_up confident
              None example_request fresh_world resp Hcon Hret)
    as (loop & final & Hall & Hf & Hty & _).
  exists resp, loop, final.
  split; [reflexivity | split; [exact Hall | split; [| exact Hty]]].
  eapply Forall_impl; [exact Hf |]. by intros r (H & _).
Defined.

(** A research prompt with only the Research agent enabled never stops
    before its fourth pass, whatever the answers. *)
Lemma loop_runs_all_passes_below_threshold_witness :
  valid_request (mkAuraRequest "what is a qubit" [RESEARCH] 4 false false) ∧
  agents_as_constructed (AuraOrchestrator.orch fresh_world) ∧
  (∀ ty text q,
     ty ∈ AuraOrchestrator._determine_workflow
            (mkAuraRequest "what is a qubit" [RESEARCH] 4 false false) →
     enabled (mkAuraRequest "what is a qubit" [RESEARCH] 4 false false) ty
     = true →
     Heuristics.from_source confident ty text = Returned q → q < 0.9) ∧
  total_of
    (fst (AuraOrchestrator.process_request service_up
            (Heuristics.from_source confident) None
            (mkAuraRequest "what is a qubit" [RESEARCH] 4 false false)
            fresh_world))
  = (total_of fresh_world + 4)%Z.
Proof.
  assert (Hv : valid_request
                 (mkAuraRequest "what is a qubit" [RESEARCH] 4 false false))
    by (unfold valid_request; simpl; lia).
  assert (Hcon : agents_as_constructed (AuraOrchestrator.orch fresh_world))
    by (intros ty; apply init_constructed).
  assert (Hlow : ∀ ty text q,
            ty ∈ AuraOrchestrator._determine_workflow
                   (mkAuraRequest "what is a qubit" [RESEARCH] 4 false false) →
            enabled (mkAuraRequest "what is a qubit" [RESEARCH] 4 false false)
              ty = true →
            Heuristics.from_source confident ty text = Returned q →
            q < 0.9).
  { intros ty text q _ Hen Hq.
    apply bool_decide_eq_true_1 in Hen. simpl in Hen.
    apply list_elem_of_singleton in Hen as ->. simpl in Hq.
    injection Hq as <-.
    destruct (research_score_cases text) as [-> | [-> | ->]]; done. }
  split; [exact Hv | split; [exact Hcon | split; [exact Hlow |]]].
  exact (loop_runs_all_passes_below_threshold service_up
           (Heuristics.from_source confident) None
           (mkAuraRequest "what is a qubit" [RESEARCH] 4 false false)
           fresh_world Hv Hcon Hlow).
Defined.


(** ** A session: requests and resets, one after the other *)

Section Session.

Variable complete : nat -> Outcome string.
Variable heuristic : AgentType -> string -> Outcome Q.
Variable quantum : option (QuantumMetrics * string).
Variable sid : string.
Variable fresh_id : AgentType -> string.

Implicit Types (w : AuraOrchestrator.World) (ops : list session_op).

Lemma new_session_settled :
  settled sid fresh_id (new_session sid fresh_id).
Proof.
  by split_and!.
Qed.

Lemma session_step_settled w (op : session_op) :
  settled sid fresh_id w →
  settled sid fresh_id (session_step complete heuristic quantum w op).
Proof.
  intros (Hsid & Hcon & Hrest & Hvec). destruct op as [request|]; simpl.
  - destruct (process_request_frame complete heuristic quantum request w)
      as (loop & _ & _ & _ & Hsid' & Hcon' & Hrest').
    split_and!.
    + by rewrite Hsid'.
    + intros ty. by apply Hcon'.
    + by apply Hrest'.
    + by apply process_request_vectors_ok.
  - split_and!.
    + done.
    + intros ty. by apply (step_constructed _ _ _ BaseAgent.Reset).
    + done.
    + by apply reset_session_vectors_ok.
Qed.

Lemma session_run_settled ops : ∀ w,
  settled sid fresh_id w →
  settled sid fresh_id (session_run complete heuristic quantum ops w).
Proof.
  induction ops as [|op ops IH]; intros w Hw; [done |].
  by apply IH, session_step_settled.
Qed.


Lemma no_active_agent (o : AuraOrchestrator.t) (l : AgentLattice) :
  at_rest o →
  AuraOrchestrator.get_lattice_state o = Returned l →
  active_agents l = 0%Z.
Proof.
  intros Hrest. unfold AuraOrchestrator.get_lattice_state, new_AgentLattice.
  destruct (field_in_unit _); [| done]. intros [= <-]. simpl.
  unfold all_agent_types.
  assert (Hoff : ∀ ty,
            ¬ (bool_decide
                 (BaseAgent.status (AuraOrchestrator.agents o ty) = ACTIVE)
               || bool_decide
                    (BaseAgent.status (AuraOrchestrator.agents o ty)
                     = WORKING))).
  { intros ty. destruct (Hrest ty) as [Hw Ha].
    rewrite !bool_decide_eq_false_2 by done. simpl. tauto. }
  by rewrite !filter_cons_False, filter_nil by apply Hoff.
Qed.

(** X15. Between the requests and resets of a session the lattice view is
    always available: it lists the six agents in the order of the agent
    types, each under its identifier and at its fixed position, reports no
    active agent, the orchestrator's iteration counter as the number of
    interactions, and a coherence within [0,1]. *)
Theorem lattice_view_between_requests ops :
  let o :=
    AuraOrchestrator.orch
      (session_run complete heuristic quantum ops
         (new_session sid fresh_id)) in
  ∃ l,
    AuraOrchestrator.get_lattice_state o = Returned l ∧
    lattice_session_id l = sid ∧
    map node_agent_type (nodes l) = all_agent_types ∧
    map node_agent_id (nodes l) = map fresh_id all_agent_types ∧
    map position (nodes l)
    = map AuraOrchestrator._get_agent_position all_agent_types ∧
    active_agents l = 0%Z ∧
    total_interactions l = AuraOrchestrator.total_iterations o ∧
    0 <= lattice_coherence l <= 1.
Proof.
  intros o.
  destruct (session_run_settled ops _ new_session_settled)
    as (Hsid & Hcon & Hrest & Hvec). fold o in Hsid, Hcon, Hrest, Hvec.
  destruct (get_lattice_state_returns o Hvec) as (l & Hl).
  exists l. split; [exact Hl |].
  pose proof (no_active_agent o l Hrest Hl) as Hactive.
  unfold AuraOrchestrator.get_lattice_state, new_AgentLattice in Hl.
  destruct (field_in_unit _) eqn:Hvalid; [| done].
  injection Hl as <-. simpl in *.
  apply andb_true_iff in Hvalid as [Hlo Hhi].
  apply Qle_bool_iff in Hlo, Hhi.
  split_and!; try done.
  destruct (Hcon ARCHITECT) as (-> & _), (Hcon ENGINEER) as (-> & _),
    (Hcon REVIEWER) as (-> & _), (Hcon DEBUGGER) as (-> & _),
    (Hcon RESEARCH) as (-> & _), (Hcon SYNTHESIZER) as (-> & _).
  done.
Qed.

Lemma user_messages_after_request (request : AuraRequest) w :
  List.filter is_user
    (history_of
       (fst (AuraOrchestrator.process_request complete heuristic quantum
               request w)))
  = List.filter is_user (history_of w) ++ [user_message request].
Proof.
  destruct (process_request_frame complete heuristic quantum request w)
    as (loop & _ & Hh & _).
  rewrite Hh, !List.filter_app. simpl.
  assert (Hagents : List.filter is_user (map agent_message loop) = []).
  { clear. by induction loop. }
  rewrite Hagents. simpl.
  destruct (snd _); simpl; by rewrite ?app_nil_r.
Qed.

(** X16. The conversation log of a session holds exactly one user message
    per request made since it was created, in the order of the requests
    and with their prompts, whether the requests returned or raised. *)
Theorem one_user_message_per_request (requests : list AuraRequest) :
  let w :=
    session_run complete heuristic quantum (map Ask requests)
      (new_session sid fresh_id) in
  List.filter is_user (history_of w) = map user_message requests.
Proof.
  intros w. subst w.
  assert (Hgen : ∀ w0,
            List.filter is_user
              (history_of
                 (session_run complete heuristic quantum (map Ask requests)
                    w0))
            = List.filter is_user (history_of w0)
              ++ map user_message requests).
  { induction requests as [|request rest IH]; intros w0; simpl.
    - by rewrite app_nil_r.
    - unfold session_run in *. rewrite IH, user_messages_after_request.
      by rewrite <- app_assoc. }
  by rewrite Hgen.
Qed.

Lemma process_request_total_bounds (request : AuraRequest) w :
  valid_request request →
  (total_of w + 1
   ≤ total_of
       (fst (AuraOrchestrator.process_request complete heuristic quantum
               request w))
   ≤ total_of w + max_iterations request)%Z.
Proof.
  intros [Hlo Hhi]. rewrite process_request_total.
  destruct (run_iterations_spec complete heuristic request
              (AuraOrchestrator._determine_workflow request)
              (Z.to_nat (max_iterations request)) 0
              (AuraOrchestrator.map_orch
                 (AuraOrchestrator.append_history (user_message request)) w,
               []))
    as (es & _ & Ht & Hp & Hp1 & _); [simpl; lia |].
  rewrite <- range_as_seq in Ht. rewrite Ht.
  assert ((1 ≤ passes es)%nat) by (apply Hp1; lia).
  unfold total_of. simpl. lia.
Qed.

(** X17. The iteration counter of an orchestrator is never reset by a
    request: after a sequence of valid requests on a new session it is at
    least the number of requests and at most the sum of their
    [max_iterations]. *)
Theorem iteration_counter_accumulates (requests : list AuraRequest) :
  Forall valid_request requests →
  let w :=
    session_run complete heuristic quantum (map Ask requests)
      (new_session sid fresh_id) in
  (Z.of_nat (length requests)
   ≤ total_of w
   ≤ foldr (λ request acc, max_iterations request + acc) 0 requests)%Z.
Proof.
  intros Hvalid w. subst w.
  assert (Hgen : ∀ w0,
            (total_of w0 + Z.of_nat (length requests)
             ≤ total_of
                 (session_run complete heuristic quantum (map Ask requests)
                    w0)
             ≤ total_of w0
               + foldr (λ request acc, max_iterations request + acc) 0
                   requests)%Z).
  { induction Hvalid as [|request rest Hv Hrest IH]; intros w0.
    - simpl. lia.
    - pose proof (process_request_total_bounds request w0 Hv) as Hb.
      specialize (IH (fst (AuraOrchestrator.process_request complete
                             heuristic quantum request w0))).
      cbn [map length foldr]. unfold session_run in *.
      cbn [fold_left session_step]. lia. }
  specialize (Hgen (new_session sid fresh_id)).
  unfold total_of in *. simpl in *. lia.
Qed.

End Session.

(** Two valid requests on a new session. *)
Lemma iteration_counter_accumulates_witness :
  Forall valid_request [example_request; example_request] ∧
  (2 ≤ total_of
         (session_run service_up confident None
            (map Ask [example_request; example_request])
            (new_session "s" AgentType_value))
   ≤ 10)%Z.
Proof.
  assert (H : Forall valid_request [example_request; example_request]).
  { repeat constructor; unfold valid_request; simpl; lia. }
  split; [exact H |].
  exact (iteration_counter_accumulates service_up confident None "s"
           AgentType_value [example_request; example_request] H).
Defined.

(** ** The connection registry *)

#[local] Close Scope Q_scope.

Section ConnectionLifecycle.

Implicit Types (mgr : ConnectionManager.t) (ws : WebSocket) (sid : string).
Implicit Types (m : gmap string (gset WebSocket)).

Lemma total_insert m (k : string) (s : gset WebSocket) :
  m !! k = None →
  map_fold (λ _ conns n, size conns + n) 0 (<[k := s]> m)
  = size s + map_fold (λ _ (conns : gset WebSocket) n, size conns + n) 0 m.
Proof.
  intros Hk.
  apply (map_fold_insert_L (λ _ (conns : gset WebSocket) n, size conns + n));
    [| done].
  intros. lia.
Qed.

Lemma total_present m (k : string) (s : gset WebSocket) :
  m !! k = Some s →
  map_fold (λ _ (conns : gset WebSocket) n, size conns + n) 0 m
  = size s
    + map_fold (λ _ (conns : gset WebSocket) n, size conns + n) 0
        (delete k m).
Proof.
  intros Hk. rewrite <- (insert_delete_id m k s) at 1 by done.
  apply total_insert, lookup_delete_eq.
Qed.

Lemma connect_map ws sid mgr :
  ConnectionManager.connect (Returned ()) ws sid mgr
  = Returned
      (ConnectionManager.set_connections
         (<[sid := ConnectionManager.connections_of mgr sid ∪ {[ws]}]>
            (ConnectionManager.active_connections mgr)) mgr).
Proof.
  unfold ConnectionManager.connect, ConnectionManager.connections_of. simpl.
  do 2 f_equal. apply map_eq. intros k.
  destruct (decide (k = sid)) as [->|Hne].
  - rewrite lookup_alter_eq, lookup_insert_eq.
    destruct (ConnectionManager.active_connections mgr !! sid) as [s|] eqn:E.
    + by rewrite E.
    + by rewrite lookup_insert_eq.
  - rewrite lookup_alter_ne, lookup_insert_ne by done.
    destruct (ConnectionManager.active_connections mgr !! sid); [done |].
    by rewrite lookup_insert_ne.
Qed.

Lemma set_connections_same mgr :
  ConnectionManager.set_connections (ConnectionManager.active_connections mgr)
    mgr = mgr.
Proof. by destruct mgr. Qed.

Lemma registered_lookup sid mgr :
  ConnectionManager.registry_ok mgr →
  ConnectionManager.active_connections mgr !! sid
  = if decide (ConnectionManager.connections_of mgr sid = ∅) then None
    else Some (ConnectionManager.connections_of mgr sid).
Proof.
  intros Hok. unfold ConnectionManager.connections_of.
  destruct (ConnectionManager.active_connections mgr !! sid) as [s|] eqn:E;
    simpl.
  - by rewrite decide_False by by eapply Hok.
  - by rewrite decide_True.
Qed.

(** X18. Under the registry invariant, registering a websocket that was
    not in the session and then deregistering it gives back the manager
    exactly as it was: the session entry that [connect] created for the
    first connection of a session is deleted again by [disconnect]. *)
Theorem connect_then_disconnect_round_trip ws sid mgr :
  ConnectionManager.registry_ok mgr →
  ws ∉ ConnectionManager.connections_of mgr sid →
  ∃ mgr1,
    ConnectionManager.connect (Returned ()) ws sid mgr = Returned mgr1 ∧
    ws ∈ ConnectionManager.connections_of mgr1 sid ∧
    ConnectionManager.disconnect ws sid mgr1 = mgr.
Proof.
  intros Hok Hws. eexists. split; [apply connect_map |].
  pose proof (registered_lookup sid mgr Hok) as Hl.
  set (s := ConnectionManager.connections_of mgr sid) in *.
  split.
  - unfold ConnectionManager.connections_of. simpl.
    rewrite lookup_insert_eq. simpl. set_solver.
  - unfold ConnectionManager.disconnect. simpl. rewrite lookup_insert_eq.
    assert (Hs : (s ∪ {[ws]}) ∖ {[ws]} = s).
    { apply set_eq. intros x.
      rewrite elem_of_difference, elem_of_union, elem_of_singleton.
      split; [by intros [[?|?] ?] |].
      intros Hx. split; [by left |]. by intros ->. }
    rewrite Hs. unfold ConnectionManager.set_connections. simpl.
    destruct mgr as [m d]. simpl in *. f_equal.
    case_decide as He.
    + rewrite insert_insert_eq, delete_insert_eq.
      apply delete_id. by rewrite Hl.
    + rewrite insert_insert_eq. by apply insert_id.
Qed.

(** X19. [connect] counts a websocket once: connecting a websocket that
    the session already holds leaves the manager as it was, and connecting
    one that it does not hold raises the number of connections, of the
    session and over all sessions, by exactly one. When [accept] raises,
    nothing is registered. *)
Theorem connect_counts_a_socket_once ws sid mgr :
  (∃ mgr1,
     ConnectionManager.connect (Returned ()) ws sid mgr = Returned mgr1 ∧
     (ws ∈ ConnectionManager.connections_of mgr sid → mgr1 = mgr) ∧
     (ws ∉ ConnectionManager.connections_of mgr sid →
      size (ConnectionManager.connections_of mgr1 sid)
      = S (size (ConnectionManager.connections_of mgr sid)) ∧
      all_connections mgr1 = S (all_connections mgr))) ∧
  (∀ e, ConnectionManager.connect (Raised e) ws sid mgr = Raised e).
Proof.
  split; [| done].
  eexists. split; [apply connect_map |].
  set (s := ConnectionManager.connections_of mgr sid).
  assert (Hone : ws ∉ s → size (s ∪ {[ws]}) = S (size s)).
  { intros Hws. rewrite size_union by set_solver. rewrite size_singleton. lia. }
  split.
  - intros Hws.
    assert (Hl : ConnectionManager.active_connections mgr !! sid = Some s).
    { unfold s, ConnectionManager.connections_of in *.
      destruct (ConnectionManager.active_connections mgr !! sid); [done |].
      simpl in Hws. set_solver. }
    assert (Hs : s ∪ {[ws]} = s)
      by by rewrite union_comm_L; apply subseteq_union_1_L, singleton_subseteq_l.
    rewrite Hs, insert_id by done. apply set_connections_same.
  - intros Hws. split.
    + unfold ConnectionManager.connections_of at 1. simpl.
      rewrite lookup_insert_eq. simpl. by apply Hone.
    + unfold all_connections, ConnectionManager.get_connection_count. simpl.
      destruct (ConnectionManager.active_connections mgr !! sid) as [s0|] eqn:E.
      * assert (s = s0)
          by (unfold s, ConnectionManager.connections_of; by rewrite E).
        subst s0.
        rewrite (total_present _ sid s E).
        rewrite <- insert_delete_eq.
        rewrite total_insert by apply lookup_delete_eq.
        rewrite Hone by done. lia.
      * assert (s = ∅)
          by (unfold s, ConnectionManager.connections_of; by rewrite E).
        rewrite total_insert by done. rewrite Hone by done.
        replace (size s) with 0 by (subst s; by rewrite H, size_empty). lia.
Qed.

Lemma session_within_total m (k : string) (s : gset WebSocket) :
  m !! k = Some s →
  size s ≤ map_fold (λ _ (conns : gset WebSocket) n, size conns + n) 0 m.
Proof. intros Hk. rewrite (total_present m k s Hk). lia. Qed.

Lemma sessions_within_total m :
  (∀ k s, m !! k = Some s → s ≠ ∅) →
  size m ≤ map_fold (λ _ (conns : gset WebSocket) n, size conns + n) 0 m.
Proof.
  induction m as [|k s m Hk IH] using map_ind; intros Hok.
  - by rewrite map_size_empty.
  - rewrite map_size_insert_None, total_insert by done.
    assert (size s ≠ 0).
    { intros Hz. apply size_empty_inv in Hz.
      apply (Hok k s); [by rewrite lookup_insert_eq | by apply leibniz_equiv]. }
    assert (size m ≤ map_fold (λ _ (conns : gset WebSocket) n, size conns + n)
                       0 m).
    { apply IH. intros k' s' Hs'. apply (Hok k' s').
      rewrite lookup_insert_ne; [done |]. intros ->. congruence. }
    lia.
Qed.

(** X20. The counts of the manager are consistent. The count of one
    session never exceeds the count over all sessions, and a session that
    is not registered counts 0; an empty session id, being falsy, is
    answered with the count over all sessions, not with the count of the
    session named by the empty string. Under the registry invariant every
    registered session accounts for at least one connection, so the
    manager never reports fewer connections than it has sessions and
    reports none exactly when no session is registered. *)
Theorem connection_counts_are_consistent sid mgr :
  ConnectionManager.get_connection_count (Some sid) mgr ≤ all_connections mgr ∧
  (sid ≠ "" → ConnectionManager.active_connections mgr !! sid = None →
   ConnectionManager.get_connection_count (Some sid) mgr = 0) ∧
  ConnectionManager.get_connection_count (Some "") mgr = all_connections mgr ∧
  (ConnectionManager.registry_ok mgr →
   size (ConnectionManager.active_connections mgr) ≤ all_connections mgr ∧
   (all_connections mgr = 0
    ↔ ConnectionManager.active_connections mgr = ∅)).
Proof.
  unfold all_connections, ConnectionManager.get_connection_count.
  split_and!.
  - case_decide; [done |]. unfold ConnectionManager.connections_of.
    destruct (ConnectionManager.active_connections mgr !! sid) as [s|] eqn:E.
    + by eapply session_within_total.
    + unfold default. rewrite size_empty. lia.
  - intros Hne Hl. rewrite decide_False by done.
    unfold ConnectionManager.connections_of. rewrite Hl. unfold default.
    by rewrite size_empty.
  - done.
  - intros Hok. pose proof (sessions_within_total _ Hok) as Hle.
    split; [exact Hle |]. split.
    + intros Hz. rewrite Hz in Hle. apply map_size_empty_inv. lia.
    + intros ->. by rewrite map_fold_empty.
Qed.

Lemma personal_message_spec (transport : WebSocket -> Outcome unit)
    (message : Frame) ws mgr :
  ∃ mgr',
    ConnectionManager.send_personal_message transport message ws mgr
    = Returned mgr' ∧
    ConnectionManager.active_connections mgr'
    = ConnectionManager.active_connections mgr ∧
    Endpoint.new_frames mgr mgr'
    = (if accepts transport ws then [(ws, message)] else []).
Proof.
  unfold ConnectionManager.send_personal_message, ConnectionManager.send_json,
    accepts, Endpoint.new_frames.
  destruct (transport ws) as [[]|e]; simpl; eexists; (split; [done |]);
    (split; [done |]); simpl.
  - by rewrite drop_app_length.
  - by rewrite drop_all.
Qed.

(** X21. Whatever the type of an inbound message other than
    ["subscribe_lattice"] - ["ping"], ["get_status"], an unknown type or
    none at all - handling it never raises, never changes the registry,
    not even when the send fails, and sends at most one frame, to the
    requesting websocket only. *)
Theorem replies_are_personal (transport : WebSocket -> Outcome unit)
    (orchestrators : gmap string AuraOrchestrator.t)
    ws sid (msg_type : option string) mgr :
  msg_type ≠ Some "subscribe_lattice" →
  ∃ mgr',
    Endpoint.handle_message transport orchestrators ws sid msg_type mgr
    = Returned mgr' ∧
    ConnectionManager.active_connections mgr'
    = ConnectionManager.active_connections mgr ∧
    length (Endpoint.new_frames mgr mgr') ≤ 1 ∧
    (∀ target frame, (target, frame) ∈ Endpoint.new_frames mgr mgr' →
       target = ws ∧ accepts transport ws = true ∧
       (frame = pong ∧ msg_type = Some "ping" ∨
        frame = status_frame sid
                  (size (ConnectionManager.connections_of mgr sid)) ∧
        msg_type = Some "get_status" ∧ sid ≠ "" ∨
        frame = status_frame sid (all_connections mgr) ∧
        msg_type = Some "get_status" ∧ sid = "")).
Proof.
  intros Hsub. unfold Endpoint.handle_message.
  case_decide as Hping; [| rewrite decide_False by done; case_decide as Hst].
  - destruct (personal_message_spec transport pong ws mgr)
      as (mgr' & -> & Hreg & Hnew).
    exists mgr'. rewrite Hnew. split_and!; [done | done | |].
    + destruct (accepts transport ws); simpl; lia.
    + intros target frame Hin.
      destruct (accepts transport ws); [| by apply elem_of_nil in Hin].
      apply list_elem_of_singleton in Hin. injection Hin as -> ->. auto.
  - destruct (personal_message_spec transport
                (status_frame sid
                   (ConnectionManager.get_connection_count (Some sid) mgr))
                ws mgr) as (mgr' & -> & Hreg & Hnew).
    exists mgr'. rewrite Hnew. split_and!; [done | done | |].
    + destruct (accepts transport ws); simpl; lia.
    + intros target frame Hin.
      destruct (accepts transport ws); [| by apply elem_of_nil in Hin].
      apply list_elem_of_singleton in Hin. injection Hin as -> ->.
      split; [done |]. split; [done |]. right.
      unfold ConnectionManager.get_connection_count, all_connections.
      case_decide; [right | left]; done.
  - exists mgr. unfold Endpoint.new_frames. rewrite drop_all.
    split_and!; [done | done | simpl; lia |].
    intros ? ? Hin. by apply elem_of_nil in Hin.
Qed.

(** X22. Under the registry invariant a broadcast never raises and prunes
    the session to the connections that accepted the frame: they are what
    the session holds afterwards, the session entry is deleted when none
    accepted, every other session is untouched, and when all accepted the
    whole registry is as before. *)
Theorem broadcast_prunes_session_to_accepting_connections
    (transport : WebSocket -> Outcome unit) (message : Frame) sid mgr :
  ConnectionManager.registry_ok mgr →
  let kept :=
    filter (λ ws, accepts transport ws)
      (ConnectionManager.connections_of mgr sid) in
  ∃ mgr',
    ConnectionManager.broadcast_to_session transport message sid mgr
    = Returned mgr' ∧
    ConnectionManager.active_connections mgr' !! sid
    = (if decide (kept = ∅) then None else Some kept) ∧
    (∀ sid', sid' ≠ sid →
       ConnectionManager.active_connections mgr' !! sid'
       = ConnectionManager.active_connections mgr !! sid') ∧
    ((∀ ws, ws ∈ ConnectionManager.connections_of mgr sid →
            accepts transport ws = true) →
     ConnectionManager.active_connections mgr'
     = ConnectionManager.active_connections mgr).
Proof.
  intros Hok kept.
  destruct (broadcast_spec transport message sid mgr)
    as (mgr' & Hb & _ & Hc & Ho & Hok').
  exists mgr'. split; [exact Hb |].
  assert (Hl : ConnectionManager.active_connections mgr' !! sid
               = (if decide (kept = ∅) then None else Some kept)).
  { rewrite (registered_lookup sid mgr') by auto. by rewrite Hc. }
  split; [exact Hl |]. split; [exact Ho |].
  intros Hall. apply map_eq. intros k.
  destruct (decide (k = sid)) as [->|Hne]; [| by apply Ho].
  rewrite Hl, (registered_lookup sid mgr Hok).
  assert (kept = ConnectionManager.connections_of mgr sid) as ->; [| done].
  apply set_eq. intros x. unfold kept. rewrite elem_of_filter.
  split; [tauto |]. intros Hx. split; [| done]. by rewrite Hall.
Qed.

End ConnectionLifecycle.

Lemma manager_with_registry_ok (sid : string) (clients : list WebSocket) :
  ConnectionManager.registry_ok (manager_with sid clients).
Proof.
  apply run_registry_ok. intros k s H. simpl in H.
  by apply lookup_empty_Some in H.
Qed.

Lemma connect_then_disconnect_round_trip_witness :
  ConnectionManager.registry_ok (manager_with "s" [1]) ∧
  (2 ∉ ConnectionManager.connections_of (manager_with "s" [1]) "s") ∧
  ∃ mgr1,
    ConnectionManager.connect (Returned ()) 2 "s" (manager_with "s" [1])
    = Returned mgr1 ∧
    2 ∈ ConnectionManager.connections_of mgr1 "s" ∧
    ConnectionManager.disconnect 2 "s" mgr1 = manager_with "s" [1].
Proof.
  assert (Hok : ConnectionManager.registry_ok (manager_with "s" [1]))
    by apply manager_with_registry_ok.
  assert (Hws : 2 ∉ ConnectionManager.connections_of (manager_with "s" [1])
                      "s") by by vm_compute.
  split; [exact Hok | split; [exact Hws |]].
  exact (connect_then_disconnect_round_trip 2 "s" (manager_with "s" [1])
           Hok Hws).
Defined.

Lemma replies_are_personal_witness :
  Some "ping" ≠ Some "subscribe_lattice" ∧
  ∃ mgr',
    Endpoint.handle_message (failing_for 2) ∅ 1 "s" (Some "ping")
      (manager_with "s" [1; 2])
    = Returned mgr' ∧
    ConnectionManager.active_connections mgr'
    = ConnectionManager.active_connections (manager_with "s" [1; 2]) ∧
    length (Endpoint.new_frames (manager_with "s" [1; 2]) mgr') ≤ 1 ∧
    (∀ target frame,
       (target, frame) ∈ Endpoint.new_frames (manager_with "s" [1; 2]) mgr' →
       target = 1 ∧ accepts (failing_for 2) 1 = true ∧
       (frame = pong ∧ Some "ping" = Some "ping" ∨
        frame = status_frame "s"
                  (size (ConnectionManager.connections_of
                           (manager_with "s" [1; 2]) "s")) ∧
        Some "ping" = Some "get_status" ∧ "s" ≠ "" ∨
        frame = status_frame "s" (all_connections (manager_with "s" [1; 2])) ∧
        Some "ping" = Some "get_status" ∧ "s" = "")).
Proof.
  assert (H : Some "ping" ≠ Some "subscribe_lattice") by discriminate.
  split; [exact H |].
  exact (replies_are_personal (failing_for 2) ∅ 1 "s" (Some "ping")
           (manager_with "s" [1; 2]) H).
Defined.

Lemma broadcast_prunes_session_to_accepting_connections_witness :
  ConnectionManager.registry_ok (manager_with "s" [1; 2]) ∧
  ∃ mgr',
    ConnectionManager.broadcast_to_session (failing_for 2) pong "s"
      (manager_with "s" [1; 2])
    = Returned mgr' ∧
    ConnectionManager.active_connections mgr' !! "s"
    = (if decide (filter (λ ws, accepts (failing_for 2) ws)
                    (ConnectionManager.connections_of
                       (manager_with "s" [1; 2]) "s") = ∅)
       then None
       else Some (filter (λ ws, accepts (failing_for 2) ws)
                    (ConnectionManager.connections_of
                       (manager_with "s" [1; 2]) "s"))) ∧
    (∀ sid', sid' ≠ "s" →
       ConnectionManager.active_connections mgr' !! sid'
       = ConnectionManager.active_connections (manager_with "s" [1; 2])
         !! sid') ∧
    ((∀ ws, ws ∈ ConnectionManager.connections_of
                   (manager_with "s" [1; 2]) "s" →
            accepts (failing_for 2) ws = true) →
     ConnectionManager.active_connections mgr'
     = ConnectionManager.active_connections (manager_with "s" [1; 2])).
Proof.
  assert (Hok : ConnectionManager.registry_ok (manager_with "s" [1; 2]))
    by apply manager_with_registry_ok.
  split; [exact Hok |].
  exact (broadcast_prunes_session_to_accepting_connections (failing_for 2)
           pong "s" (manager_with "s" [1; 2]) Hok).
Defined.

(** ** The websocket endpoint *)

Section EndpointLifetime.

Variable transport : WebSocket -> Outcome unit.
Variable orchestrators : gmap string AuraOrchestrator.t.
Variable ws : WebSocket.
Variable sid : string.

Implicit Types (mgr : ConnectionManager.t).

Lemma same_registry mgr mgr' :
  ConnectionManager.registry_ok mgr →
  ConnectionManager.registry_ok mgr' →
  (∀ k, ConnectionManager.connections_of mgr' k
        = ConnectionManager.connections_of mgr k) →
  ConnectionManager.active_connections mgr'
  = ConnectionManager.active_connections mgr.
Proof.
  intros Hok Hok' Hc. apply map_eq. intros k.
  by rewrite (registered_lookup k mgr Hok), (registered_lookup k mgr' Hok'), Hc.
Qed.

Lemma personal_message_delivered (message : Frame) mgr :
  ∃ mgr',
    ConnectionManager.send_personal_message transport message ws mgr
    = Returned mgr' ∧
    ConnectionManager.active_connections mgr'
    = ConnectionManager.active_connections mgr ∧
    ConnectionManager.delivered mgr'
    = ConnectionManager.delivered mgr
      ++ (if accepts transport ws then [(ws, message)] else []).
Proof.
  unfold ConnectionManager.send_personal_message, ConnectionManager.send_json,
    accepts.
  destruct (transport ws) as [[]|e]; simpl; eexists; (split; [done |]);
    (split; [done |]); simpl; [done |].
  by rewrite app_nil_r.
Qed.

Lemma broadcast_delivered (message : Frame) mgr :
  ∃ mgr',
    ConnectionManager.broadcast_to_session transport message sid mgr
    = Returned mgr' ∧
    ∃ more,
      ConnectionManager.delivered mgr'
      = ConnectionManager.delivered mgr ++ more.
Proof.
  unfold ConnectionManager.broadcast_to_session.
  destruct (ConnectionManager.active_connections mgr !! sid) as [s|].
  - destruct (rounds_spec transport message sid (elements s) mgr)
      as (mgr' & H & Hd & _).
    exists mgr'. split; [exact H |]. eexists. exact Hd.
  - exists mgr. split; [done |]. exists []. by rewrite app_nil_r.
Qed.

(** What the registry and the log of frames may look like after a step of
    the endpoint that started from [mgr]. *)
Lemma broadcast_step (message : Frame) mgr :
  ∃ mgr',
    ConnectionManager.broadcast_to_session transport message sid mgr
    = Returned mgr' ∧
    (ConnectionManager.registry_ok mgr → ConnectionManager.registry_ok mgr') ∧
    (∀ k, k ≠ sid →
       ConnectionManager.active_connections mgr' !! k
       = ConnectionManager.active_connections mgr !! k) ∧
    (∃ more, ConnectionManager.delivered mgr'
             = ConnectionManager.delivered mgr ++ more) ∧
    ConnectionManager.connections_of mgr' sid
    = filter (λ c, accepts transport c)
        (ConnectionManager.connections_of mgr sid).
Proof.
  destruct (broadcast_spec transport message sid mgr)
    as (mgr' & Hb & _ & Hc & Ho & Hok).
  destruct (broadcast_delivered message mgr) as (mgr'' & Hb' & Hd).
  rewrite Hb in Hb'. injection Hb' as <-.
  exists mgr'. by split_and!.
Qed.

Lemma handle_message_spec (msg_type : option string) mgr :
  match Endpoint.handle_message transport orchestrators ws sid msg_type mgr
  with
  | Returned mgr' =>
      (ConnectionManager.registry_ok mgr →
       ConnectionManager.registry_ok mgr') ∧
      (∀ k, k ≠ sid →
         ConnectionManager.active_connections mgr' !! k
         = ConnectionManager.active_connections mgr !! k) ∧
      (∃ more, ConnectionManager.delivered mgr'
               = ConnectionManager.delivered mgr ++ more) ∧
      (ConnectionManager.connections_of mgr' sid
       = ConnectionManager.connections_of mgr sid ∨
       ConnectionManager.connections_of mgr' sid
       = filter (λ c, accepts transport c)
           (ConnectionManager.connections_of mgr sid))
  | Raised _ => True
  end.
Proof.
  assert (Hpersonal : ∀ message,
    match ConnectionManager.send_personal_message transport message ws mgr
    with
    | Returned mgr' =>
        (ConnectionManager.registry_ok mgr →
         ConnectionManager.registry_ok mgr') ∧
        (∀ k, k ≠ sid →
           ConnectionManager.active_connections mgr' !! k
           = ConnectionManager.active_connections mgr !! k) ∧
        (∃ more, ConnectionManager.delivered mgr'
                 = ConnectionManager.delivered mgr ++ more) ∧
        (ConnectionManager.connections_of mgr' sid
         = ConnectionManager.connections_of mgr sid ∨
         ConnectionManager.connections_of mgr' sid
         = filter (λ c, accepts transport c)
             (ConnectionManager.connections_of mgr sid))
    | Raised _ => True
    end).
  { intros message.
    destruct (personal_message_delivered message mgr)
      as (mgr' & -> & Hreg & Hd).
    split_and!.
    - intros Hok k s. rewrite Hreg. apply Hok.
    - intros k _. by rewrite Hreg.
    - eexists. exact Hd.
    - left. unfold ConnectionManager.connections_of. by rewrite Hreg. }
  unfold Endpoint.handle_message.
  repeat case_decide; try apply Hpersonal.
  - destruct (orchestrators !! sid) as [o|].
    + destruct (AuraOrchestrator.get_lattice_state o) as [lattice|e];
        [| done].
      simpl. unfold ConnectionManager.send_lattice_update.
      destruct (broadcast_step (lattice_update sid lattice) mgr)
        as (mgr' & -> & Hok & Ho & Hd & Hc).
      split_and!; auto.
    + split_and!; auto. exists []. by rewrite app_nil_r.
  - split_and!; auto. exists []. by rewrite app_nil_r.
Qed.

Lemma exception_handler_spec (e : string) mgr :
  ∃ mgr',
    bind (ConnectionManager.send_error transport sid e mgr)
      (fun mgr'' => Returned (ConnectionManager.disconnect ws sid mgr''))
    = Returned mgr' ∧
    Endpoint.new_frames mgr mgr'
    = addressed (error_frame sid e)
        (filter (λ c, accepts transport c)
           (elements (ConnectionManager.connections_of mgr sid))) ∧
    (∃ more, ConnectionManager.delivered mgr'
             = ConnectionManager.delivered mgr ++ more) ∧
    ConnectionManager.connections_of mgr' sid
    = filter (λ c, accepts transport c)
        (ConnectionManager.connections_of mgr sid) ∖ {[ws]} ∧
    (∀ k, k ≠ sid →
       ConnectionManager.active_connections mgr' !! k
       = ConnectionManager.active_connections mgr !! k) ∧
    (ConnectionManager.registry_ok mgr → ConnectionManager.registry_ok mgr').
Proof.
  unfold ConnectionManager.send_error.
  destruct (broadcast_spec transport (error_frame sid e) sid mgr)
    as (mgr1 & Hb & Hnew & Hc & Ho & Hok).
  destruct (broadcast_delivered (error_frame sid e) mgr)
    as (mgr1' & Hb' & Hd).
  rewrite Hb in Hb'. injection Hb' as <-.
  rewrite Hb. simpl. eexists. split; [done |]. split_and!.
  - unfold Endpoint.new_frames in *. by rewrite disconnect_delivered.
  - by rewrite disconnect_delivered.
  - by rewrite disconnect_same_session, Hc.
  - intros k Hne. rewrite disconnect_other_session by done. by apply Ho.
  - intros H. by apply disconnect_registry_ok, Hok.
Qed.

Lemma not_in_difference (s : gset WebSocket) : ws ∉ s ∖ {[ws]}.
Proof. rewrite elem_of_difference, elem_of_singleton. tauto. Qed.

(** X23. The receive loop never raises, whatever arrives and whatever
    the transport does, and it keeps the registry invariant. Once the
    inbound side has delivered a disconnect or an error, the websocket is
    no longer registered under its session - also when the loop ended
    earlier, on an exception of a handler. *)
Theorem receive_loop_ends_deregistered (inbound : list Endpoint.Inbound) :
  ∀ mgr,
    ∃ mgr',
      Endpoint.receive_loop transport orchestrators ws sid inbound mgr
      = Returned mgr' ∧
      (ConnectionManager.registry_ok mgr →
       ConnectionManager.registry_ok mgr') ∧
      (existsb WebsocketEndpoint.ends_connection inbound = true →
       ws ∉ ConnectionManager.connections_of mgr' sid).
Proof.
  induction inbound as [|i inbound IH]; intros mgr.
  - exists mgr. by split_and!.
  - destruct i as [msg_type | | e].
    + simpl.
      pose proof (handle_message_spec msg_type mgr) as Hh.
      destruct (Endpoint.handle_message transport orchestrators ws sid
                  msg_type mgr) as [mgr1|e].
      * destruct Hh as (Hok & _).
        destruct (IH mgr1) as (mgr' & -> & Hok' & Hout).
        exists mgr'. split_and!; auto.
      * destruct (exception_handler_spec e mgr)
          as (mgr' & -> & _ & _ & Hc & _ & Hok).
        exists mgr'. split_and!; [done | done |].
        intros _. rewrite Hc. apply not_in_difference.
    + simpl. eexists. split_and!; [done | |].
      * apply disconnect_registry_ok.
      * intros _. rewrite disconnect_same_session. apply not_in_difference.
    + destruct (exception_handler_spec e mgr)
        as (mgr' & H & _ & _ & Hc & _ & Hok).
      exists mgr'. split_and!; [exact H | done |].
      intros _. rewrite Hc. apply not_in_difference.
Qed.

(** X24. When receiving fails with an error other than a disconnect, the
    error frame goes to every connection of the session that accepts it,
    the peers of the failing websocket included, and to nobody else; the
    session then holds the connections that accepted the frame, without
    the failing websocket. What arrives after the failure is not
    handled. *)
Theorem failure_is_announced_to_the_session (e : string)
    (rest : list Endpoint.Inbound) mgr :
  ∃ mgr',
    Endpoint.receive_loop transport orchestrators ws sid
      (Endpoint.Failed e :: rest) mgr
    = Returned mgr' ∧
    Endpoint.new_frames mgr mgr'
    = addressed (error_frame sid e)
        (filter (λ c, accepts transport c)
           (elements (ConnectionManager.connections_of mgr sid))) ∧
    ConnectionManager.connections_of mgr' sid
    = filter (λ c, accepts transport c)
        (ConnectionManager.connections_of mgr sid) ∖ {[ws]} ∧
    (∀ peer, peer ∈ ConnectionManager.connections_of mgr sid →
             accepts transport peer = true →
             (peer, error_frame sid e) ∈ Endpoint.new_frames mgr mgr').
Proof.
  destruct (exception_handler_spec e mgr) as (mgr' & H & Hnew & _ & Hc & _).
  exists mgr'. split_and!; [exact H | exact Hnew | exact Hc |].
  intros peer Hin Hacc. rewrite Hnew. unfold addressed.
  apply list_elem_of_fmap. exists peer. split; [done |].
  apply list_elem_of_filter. split; [by rewrite Hacc |].
  by apply elem_of_elements.
Qed.

(** The registry between the welcome and the end of a connection whose
    peers [peers] all accept what is sent to them. *)
Lemma receive_loop_among_peers (peers : gset WebSocket)
    (inbound : list Endpoint.Inbound) :
  ws ∉ peers →
  (∀ c, c ∈ peers → accepts transport c = true) →
  ∀ mgr,
    ConnectionManager.registry_ok mgr →
    peers ⊆ ConnectionManager.connections_of mgr sid →
    ConnectionManager.connections_of mgr sid ⊆ peers ∪ {[ws]} →
    ∃ mgr',
      Endpoint.receive_loop transport orchestrators ws sid inbound mgr
      = Returned mgr' ∧
      ConnectionManager.registry_ok mgr' ∧
      (∀ k, k ≠ sid →
         ConnectionManager.active_connections mgr' !! k
         = ConnectionManager.active_connections mgr !! k) ∧
      (∃ more, ConnectionManager.delivered mgr'
               = ConnectionManager.delivered mgr ++ more) ∧
      (existsb WebsocketEndpoint.ends_connection inbound = true →
       ConnectionManager.connections_of mgr' sid = peers).
Proof.
  intros Hws Hacc.
  assert (Hfilter : ∀ s : gset WebSocket,
            peers ⊆ s → peers ⊆ filter (λ c, accepts transport c) s).
  { intros s Hs x Hx. apply elem_of_filter. split; [by rewrite Hacc | auto]. }
  assert (Hsub : ∀ s : gset WebSocket,
            filter (λ c, accepts transport c) s ⊆ s).
  { intros s x Hx. by apply elem_of_filter in Hx as [_ ?]. }
  assert (Hend : ∀ s : gset WebSocket,
            peers ⊆ s → s ⊆ peers ∪ {[ws]} → s ∖ {[ws]} = peers).
  { intros s H1 H2. apply set_eq. intros x.
    rewrite elem_of_difference, elem_of_singleton. split.
    - intros [Hx Hne]. apply H2 in Hx.
      apply elem_of_union in Hx as [Hx|Hx]; [done |].
      by apply elem_of_singleton in Hx.
    - intros Hx. split; [by apply H1 |]. by intros ->. }
  induction inbound as [|i inbound IH]; intros mgr Hok Hlow Hup.
  - exists mgr. split_and!; [done | done | done | | done].
    exists []. by rewrite app_nil_r.
  - destruct i as [msg_type | | e].
    + simpl.
      pose proof (handle_message_spec msg_type mgr) as Hh.
      destruct (Endpoint.handle_message transport orchestrators ws sid
                  msg_type mgr) as [mgr1|e].
      * destruct Hh as (Hok1 & Ho1 & (more1 & Hd1) & Hc1).
        destruct (IH mgr1) as (mgr' & -> & Hok' & Ho' & (more & Hd') & Hout).
        { auto. }
        { destruct Hc1 as [-> | ->]; auto. }
        { destruct Hc1 as [-> | ->]; [done |]. etrans; [apply Hsub | done]. }
        exists mgr'. split_and!; [done | done | | | done].
        -- intros k Hne. rewrite Ho' by done. by apply Ho1.
        -- exists (more1 ++ more). by rewrite Hd', Hd1, app_assoc.
      * destruct (exception_handler_spec e mgr)
          as (mgr' & -> & _ & Hd & Hc & Ho & Hok').
        exists mgr'. split_and!; [done | auto | done | done |].
        intros _. rewrite Hc. apply Hend; [by apply Hfilter |].
        etrans; [apply Hsub | done].
    + simpl. eexists. split_and!; [done | | | |].
      * by apply disconnect_registry_ok.
      * intros k Hne. by apply disconnect_other_session.
      * exists []. by rewrite disconnect_delivered, app_nil_r.
      * intros _. rewrite disconnect_same_session. by apply Hend.
    + destruct (exception_handler_spec e mgr)
        as (mgr' & H & _ & Hd & Hc & Ho & Hok').
      exists mgr'. split_and!; [exact H | auto | done | done |].
      intros _. rewrite Hc. apply Hend; [by apply Hfilter |].
      etrans; [apply Hsub | done].
Qed.

(** X25. A whole connection, from the authentication to the end of its
    receive loop, leaves the registry as it found it: when the owner of
    the session connects a websocket that was not registered, the peers
    of the session accept what is sent to them, and the inbound side ends
    with a disconnect or an error, the endpoint returns and the registry
    is exactly what it was before the connection, whatever messages were
    exchanged and whether or not the websocket itself accepted its
    frames. If it accepts them, the first frame of the connection is the
    welcome, addressed to it. *)
Theorem connection_lifetime_restores_registry
    (user : User) (session : SessionRow)
    (inbound : list Endpoint.Inbound) mgr :
  row_user_id session = user_id user →
  ConnectionManager.registry_ok mgr →
  ws ∉ ConnectionManager.connections_of mgr sid →
  (∀ c, c ∈ ConnectionManager.connections_of mgr sid →
        accepts transport c = true) →
  existsb WebsocketEndpoint.ends_connection inbound = true →
  ∃ mgr',
    WebsocketEndpoint.websocket_endpoint (Returned (Some user))
      (Returned (Some session)) (Returned ()) transport orchestrators
      ws sid inbound mgr
    = WebsocketEndpoint.served (Returned mgr') ∧
    ConnectionManager.active_connections mgr'
    = ConnectionManager.active_connections mgr ∧
    (accepts transport ws = true →
     ∃ rest, Endpoint.new_frames mgr mgr' = (ws, connected sid) :: rest).
Proof.
  intros Hown Hok Hws Hacc Hends.
  unfold WebsocketEndpoint.websocket_endpoint.
  rewrite decide_True by done. rewrite connect_map. simpl.
  set (peers := ConnectionManager.connections_of mgr sid) in *.
  set (mgr1 := ConnectionManager.set_connections _ mgr).
  assert (Hc1 : ConnectionManager.connections_of mgr1 sid = peers ∪ {[ws]}).
  { unfold ConnectionManager.connections_of, mgr1. simpl.
    by rewrite lookup_insert_eq. }
  assert (Ho1 : ∀ k, k ≠ sid →
            ConnectionManager.active_connections mgr1 !! k
            = ConnectionManager.active_connections mgr !! k).
  { intros k Hne. unfold mgr1. simpl. by rewrite lookup_insert_ne. }
  assert (Hok1 : ConnectionManager.registry_ok mgr1).
  { eapply (connect_registry_ok (Returned ())); [exact Hok |].
    apply connect_map. }
  destruct (personal_message_delivered (connected sid) mgr1)
    as (mgr2 & -> & Hreg2 & Hd2).
  simpl.
  destruct (receive_loop_among_peers peers inbound Hws Hacc mgr2)
    as (mgr' & -> & Hok' & Ho' & (more & Hd') & Hout).
  { intros k s. rewrite Hreg2. apply Hok1. }
  { unfold ConnectionManager.connections_of. rewrite Hreg2.
    fold (ConnectionManager.connections_of mgr1 sid). rewrite Hc1.
    apply union_subseteq_l. }
  { unfold ConnectionManager.connections_of. rewrite Hreg2.
    fold (ConnectionManager.connections_of mgr1 sid). by rewrite Hc1. }
  exists mgr'. split_and!; [done | |].
  - apply same_registry; [done | done |].
    intros k. destruct (decide (k = sid)) as [->|Hne]; [by apply Hout |].
    unfold ConnectionManager.connections_of.
    by rewrite Ho', Hreg2, Ho1.
  - intros Hacc_ws. exists more.
    unfold Endpoint.new_frames. rewrite Hd', Hd2, Hacc_ws.
    unfold mgr1. simpl. rewrite <- app_assoc. by rewrite drop_app_length.
Qed.

End EndpointLifetime.

Lemma connection_lifetime_restores_registry_witness :
  row_user_id (mkSessionRow "s" "u" "active") = user_id (mkUser "u") ∧
  ConnectionManager.registry_ok (manager_with "s" [1]) ∧
  (2 ∉ ConnectionManager.connections_of (manager_with "s" [1]) "s") ∧
  (∀ c, c ∈ ConnectionManager.connections_of (manager_with "s" [1]) "s" →
        accepts (failing_for 2) c = true) ∧
  existsb WebsocketEndpoint.ends_connection
    [Endpoint.Received (Some "ping");
     Endpoint.Received (Some "subscribe_lattice");
     Endpoint.TransportClosed] = true ∧
  ∃ mgr',
    WebsocketEndpoint.websocket_endpoint (Returned (Some (mkUser "u")))
      (Returned (Some (mkSessionRow "s" "u" "active"))) (Returned ())
      (failing_for 2) {["s" := with_scores example_scores]} 2 "s"
      [Endpoint.Received (Some "ping");
       Endpoint.Received (Some "subscribe_lattice");
       Endpoint.TransportClosed]
      (manager_with "s" [1])
    = WebsocketEndpoint.served (Returned mgr') ∧
    ConnectionManager.active_connections mgr'
    = ConnectionManager.active_connections (manager_with "s" [1]) ∧
    (accepts (failing_for 2) 2 = true →
     ∃ rest, Endpoint.new_frames (manager_with "s" [1]) mgr'
             = (2, connected "s") :: rest).
Proof.
  assert (H1 : row_user_id (mkSessionRow "s" "u" "active")
               = user_id (mkUser "u")) by reflexivity.
  assert (H2 : ConnectionManager.registry_ok (manager_with "s" [1]))
    by apply manager_with_registry_ok.
  assert (H3 : 2 ∉ ConnectionManager.connections_of (manager_with "s" [1])
                     "s") by by vm_compute.
  assert (H4 : ∀ c,
            c ∈ ConnectionManager.connections_of (manager_with "s" [1]) "s" →
            accepts (failing_for 2) c = true).
  { intros c Hc. unfold accepts, failing_for.
    rewrite decide_False; [done |]. by intros ->. }
  assert (H5 : existsb WebsocketEndpoint.ends_connection
                 [Endpoint.Received (Some "ping");
                  Endpoint.Received (Some "subscribe_lattice");
                  Endpoint.TransportClosed] = true) by reflexivity.
  split; [exact H1 | split; [exact H2 | split; [exact H3 |
    split; [exact H4 | split; [exact H5 |]]]]].
  exact (connection_lifetime_restores_registry (failing_for 2)
           {["s" := with_scores example_scores]} 2 "s"
           (mkUser "u") (mkSessionRow "s" "u" "active")
           [Endpoint.Received (Some "ping");
            Endpoint.Received (Some "subscribe_lattice");
            Endpoint.TransportClosed]
           (manager_with "s" [1]) H1 H2 H3 H4 H5).
Defined.

(** ** The routes *)

Section Authorization.

Variable verify_token : string -> Outcome (option User).

Lemma string_app_cons (x : ascii) (a b : string) :
  String x a +:+ b = String x (a +:+ b).
Proof. done. Qed.

Lemma string_app_assoc (a b c : string) : (a +:+ b) +:+ c = a +:+ (b +:+ c).
Proof.
  induction a as [|x a IH]; [done |]. by rewrite !string_app_cons, IH.
Qed.

Lemma string_app_nil_r (a : string) : a +:+ "" = a.
Proof. induction a as [|x a IH]; [done |]. by rewrite string_app_cons, IH. Qed.

Lemma string_app_nil (a b : string) : a +:+ b = "" → a = "" ∧ b = "".
Proof. by destruct a. Qed.

Lemma split_from_word (t : string) : ∀ (w s : string),
  no_space t = true →
  PyStr.split_from (Some w) (t +:+ s) = PyStr.split_from (Some (w +:+ t)) s.
Proof.
  induction t as [|c t IH]; intros w s Ht.
  - by rewrite string_app_nil_r.
  - rewrite string_app_cons. simpl. simpl in Ht. apply andb_prop in Ht as [Hc Ht].
    apply negb_true_iff in Hc. rewrite Hc.
    rewrite IH by done. rewrite string_app_assoc. done.
Qed.

Lemma split_from_start (t s : string) :
  no_space t = true → t ≠ "" →
  PyStr.split_from None (t +:+ s) = PyStr.split_from (Some t) s.
Proof.
  destruct t as [|c t]; [done |]. intros Ht _.
  rewrite string_app_cons. simpl in *.
  apply andb_prop in Ht as [Hc Ht]. apply negb_true_iff in Hc. rewrite Hc.
  by rewrite split_from_word.
Qed.

Lemma split_from_blank (p s : string) :
  all_space p = true →
  PyStr.split_from None (p +:+ s) = PyStr.split_from None s.
Proof.
  induction p as [|c p IH]; [done |]. rewrite string_app_cons. simpl.
  intros Hp. apply andb_prop in Hp as [-> Hp]. auto.
Qed.

Lemma split_from_gap (w p s : string) :
  all_space p = true → p ≠ "" →
  PyStr.split_from (Some w) (p +:+ s) = w :: PyStr.split_from None s.
Proof.
  destruct p as [|c p]; [done |]. rewrite string_app_cons. simpl.
  intros Hp _.
  apply andb_prop in Hp as [-> Hp]. by rewrite split_from_blank.
Qed.

Lemma split_from_tail (w p : string) :
  all_space p = true → PyStr.split_from (Some w) p = [w].
Proof.
  destruct p as [|c p]; [done |]. simpl. intros Hp.
  apply andb_prop in Hp as [-> Hp].
  rewrite <- (string_app_nil_r p). by rewrite split_from_blank.
Qed.

Lemma lower_keeps_space (c : ascii) :
  PyStr.is_space (Py.lower_ascii c) = PyStr.is_space c.
Proof. by destruct c as [[] [] [] [] [] [] [] []]. Qed.

Lemma lower_no_space (s : string) : no_space (Py.lower s) = no_space s.
Proof.
  induction s as [|c s IH]; [done |]. simpl.
  by rewrite lower_keeps_space, IH.
Qed.

(** X26. A header made of a scheme that reads ["bearer"] in any letter
    case, a run of whitespace, and a token without whitespace - with any
    whitespace before and after - is answered by the token service alone:
    the user it returns for that token is the user of the request, no user
    is a 401, and only an exception of the service escapes. *)
Theorem verify_auth_reads_bearer_token (pad1 scheme gap token pad2 : string) :
  all_space pad1 = true →
  Py.lower scheme = "bearer" →
  all_space gap = true → gap ≠ "" →
  no_space token = true → token ≠ "" →
  all_space pad2 = true →
  Routes.verify_auth verify_token
    (Some (pad1 +:+ scheme +:+ gap +:+ token +:+ pad2))
  = match verify_token token with
    | Raised e => Routes.Uncaught e
    | Returned None => Routes.HTTPException 401 "Invalid or expired token"
    | Returned (Some user) => Routes.Ok user
    end.
Proof.
  intros Hp1 Hscheme Hgap Hgap' Htoken Htoken' Hp2.
  assert (Hs : no_space scheme = true)
    by by rewrite <- lower_no_space, Hscheme.
  assert (Hs' : scheme ≠ "") by by intros ->.
  unfold Routes.verify_auth.
  rewrite decide_False.
  - unfold PyStr.split.
    rewrite split_from_blank, split_from_start, split_from_gap,
      split_from_start, split_from_tail by done.
    by rewrite decide_True.
  - intros H.
    apply string_app_nil in H as [_ H]. apply string_app_nil in H as [_ H].
    apply string_app_nil in H as [_ H]. by apply string_app_nil in H as [H _].
Qed.

(** X27. A header that is not empty and holds a single word - a bare
    token without a scheme - or nothing but whitespace is refused with the
    "format" error, and the token service is not consulted; only an
    absent or empty header is refused as missing. *)
Theorem verify_auth_rejects_other_shapes (header : string) :
  header ≠ "" →
  no_space header = true ∨ all_space header = true →
  Routes.verify_auth verify_token (Some header)
  = Routes.HTTPException 401 "Invalid authorization header format" ∧
  Routes.verify_auth verify_token (Some "")
  = Routes.HTTPException 401 "Authorization header required" ∧
  Routes.verify_auth verify_token None
  = Routes.HTTPException 401 "Authorization header required".
Proof.
  intros Hne Hshape. split; [| done].
  unfold Routes.verify_auth. rewrite decide_False by done.
  unfold PyStr.split. destruct Hshape as [Hw | Hb].
  - rewrite <- (string_app_nil_r header).
    by rewrite split_from_start.
  - rewrite <- (string_app_nil_r header).
    by rewrite split_from_blank.
Qed.

End Authorization.

Lemma verify_auth_reads_bearer_token_witness :
  all_space " " = true ∧
  Py.lower "BeArEr" = "bearer" ∧
  all_space "  " = true ∧ "  " ≠ "" ∧
  no_space "t0k3n" = true ∧ "t0k3n" ≠ "" ∧
  all_space "" = true ∧
  Routes.verify_auth
    (fun token => if decide (token = "t0k3n")
                  then Returned (Some (mkUser "u")) else Returned None)
    (Some (" " +:+ "BeArEr" +:+ "  " +:+ "t0k3n" +:+ ""))
  = match (if decide ("t0k3n" = "t0k3n")
           then Returned (Some (mkUser "u")) else Returned None) with
    | Raised e => Routes.Uncaught e
    | Returned None => Routes.HTTPException 401 "Invalid or expired token"
    | Returned (Some user) => Routes.Ok user
    end.
Proof.
  assert (H1 : all_space " " = true) by reflexivity.
  assert (H2 : Py.lower "BeArEr" = "bearer") by reflexivity.
  assert (H3 : all_space "  " = true) by reflexivity.
  assert (H4 : "  " ≠ "") by discriminate.
  assert (H5 : no_space "t0k3n" = true) by reflexivity.
  assert (H6 : "t0k3n" ≠ "") by discriminate.
  assert (H7 : all_space "" = true) by reflexivity.
  split; [exact H1 | split; [exact H2 | split; [exact H3 | split; [exact H4 |
    split; [exact H5 | split; [exact H6 | split; [exact H7 |]]]]]]].
  exact (verify_auth_reads_bearer_token
           (fun token => if decide (token = "t0k3n")
                         then Returned (Some (mkUser "u")) else Returned None)
           " " "BeArEr" "  " "t0k3n" "" H1 H2 H3 H4 H5 H6 H7).
Defined.

Lemma verify_auth_rejects_other_shapes_witness :
  "t0k3n" ≠ "" ∧
  (no_space "t0k3n" = true ∨ all_space "t0k3n" = true) ∧
  Routes.verify_auth (fun _ => Returned (Some (mkUser "u"))) (Some "t0k3n")
  = Routes.HTTPException 401 "Invalid authorization header format" ∧
  Routes.verify_auth (fun _ => Returned (Some (mkUser "u"))) (Some "")
  = Routes.HTTPException 401 "Authorization header required" ∧
  Routes.verify_auth (fun _ => Returned (Some (mkUser "u"))) None
  = Routes.HTTPException 401 "Authorization header required".
Proof.
  assert (H1 : "t0k3n" ≠ "") by discriminate.
  assert (H2 : no_space "t0k3n" = true ∨ all_space "t0k3n" = true)
    by (left; reflexivity).
  split; [exact H1 | split; [exact H2 |]].
  exact (verify_auth_rejects_other_shapes
           (fun _ => Returned (Some (mkUser "u"))) "t0k3n" H1 H2).
Defined.

Section Usage.

Implicit Types (rows : list Routes.UsageRow) (acc : Routes.Stats).

Lemma quantities_of_cons (kind : string) (r : Routes.UsageRow) rows :
  quantities_of kind (r :: rows)
  = (if decide (default "" (Routes.usage_type r) = kind)
     then [default 0%Z (Routes.quantity r)] else [])
    ++ quantities_of kind rows.
Proof.
  unfold quantities_of. simpl.
  destruct (decide (default "" (Routes.usage_type r) = kind)) as [H|H].
  - by rewrite bool_decide_true.
  - by rewrite bool_decide_false.
Qed.

Lemma sum_Z_app (xs ys : list Z) :
  sum_Z (xs ++ ys) = (sum_Z xs + sum_Z ys)%Z.
Proof.
  unfold sum_Z. induction xs as [|x xs IH]; simpl; [done |].
  rewrite IH. lia.
Qed.

Lemma add_usage_counts acc (r : Routes.UsageRow) (kind : string)
    (field : Routes.Stats -> Z) :
  (kind, field) ∈ [("agent_call", Routes.total_agent_calls);
                   ("quantum_exec", Routes.total_quantum_execs);
                   ("message", Routes.total_messages);
                   ("autopilot_step", Routes.total_autopilot_steps)] →
  field (Routes.add_usage acc r)
  = (field acc + sum_Z (quantities_of kind [r]))%Z.
Proof.
  intros Hin. rewrite quantities_of_cons. unfold Routes.add_usage.
  generalize (default "" (Routes.usage_type r)) as k.
  generalize (default 0%Z (Routes.quantity r)) as n. intros n k.
  repeat (apply elem_of_cons in Hin as [[= -> ->]|Hin]);
    [| | | | by apply elem_of_nil in Hin];
    repeat case_decide; simplify_eq; unfold sum_Z; simpl; lia.
Qed.

Lemma fold_usage_counts rows (kind : string) (field : Routes.Stats -> Z) :
  (kind, field) ∈ [("agent_call", Routes.total_agent_calls);
                   ("quantum_exec", Routes.total_quantum_execs);
                   ("message", Routes.total_messages);
                   ("autopilot_step", Routes.total_autopilot_steps)] →
  ∀ acc,
    field (fold_left Routes.add_usage rows acc)
    = (field acc + sum_Z (quantities_of kind rows))%Z.
Proof.
  intros Hin. induction rows as [|r rows IH]; intros acc.
  - unfold sum_Z. simpl. lia.
  - simpl. rewrite IH, (add_usage_counts acc r kind field Hin).
    rewrite (quantities_of_cons kind r rows), sum_Z_app.
    rewrite (quantities_of_cons kind r []), app_nil_r. lia.
Qed.

Lemma quantities_of_permutation (kind : string) rows rows' :
  rows ≡ₚ rows' →
  sum_Z (quantities_of kind rows) = sum_Z (quantities_of kind rows').
Proof.
  induction 1 as [|r l l' _ IH|r1 r2 l|l1 l2 l3 _ IH1 _ IH2].
  - done.
  - by rewrite !(quantities_of_cons kind r), !sum_Z_app, IH.
  - rewrite !quantities_of_cons, !sum_Z_app. lia.
  - by rewrite IH1.
Qed.

(** X28. Each of the four counters of the usage statistics is the sum of
    the quantities of the records of its type, a record without a
    quantity counting 0; records of any other type, or without a type,
    enter no counter. The counters therefore do not depend on the order
    in which the records arrive. *)
Theorem usage_counters_are_sums_by_type rows :
  let stats := Routes.aggregate_usage rows in
  Routes.total_agent_calls stats = sum_Z (quantities_of "agent_call" rows) ∧
  Routes.total_quantum_execs stats
  = sum_Z (quantities_of "quantum_exec" rows) ∧
  Routes.total_messages stats = sum_Z (quantities_of "message" rows) ∧
  Routes.total_autopilot_steps stats
  = sum_Z (quantities_of "autopilot_step" rows) ∧
  (∀ rows', rows ≡ₚ rows' →
     let stats' := Routes.aggregate_usage rows' in
     Routes.total_agent_calls stats' = Routes.total_agent_calls stats ∧
     Routes.total_quantum_execs stats' = Routes.total_quantum_execs stats ∧
     Routes.total_messages stats' = Routes.total_messages stats ∧
     Routes.total_autopilot_steps stats'
     = Routes.total_autopilot_steps stats).
Proof.
  assert (H : ∀ l (kind : string) (field : Routes.Stats -> Z),
            (kind, field) ∈ [("agent_call", Routes.total_agent_calls);
                             ("quantum_exec", Routes.total_quantum_execs);
                             ("message", Routes.total_messages);
                             ("autopilot_step",
                              Routes.total_autopilot_steps)] →
            field (Routes.aggregate_usage l) = sum_Z (quantities_of kind l)).
  { intros l kind field Hin. unfold Routes.aggregate_usage.
    rewrite (fold_usage_counts l kind field Hin).
    repeat (apply elem_of_cons in Hin as [[= -> ->]|Hin]);
      [| | | | by apply elem_of_nil in Hin]; simpl; lia. }
  assert (H1 := λ l, H l "agent_call" Routes.total_agent_calls).
  assert (H2 := λ l, H l "quantum_exec" Routes.total_quantum_execs).
  assert (H3 := λ l, H l "message" Routes.total_messages).
  assert (H4 := λ l, H l "autopilot_step" Routes.total_autopilot_steps).
  simpl. split_and!.
  - apply H1. set_solver.
  - apply H2. set_solver.
  - apply H3. set_solver.
  - apply H4. set_solver.
  - intros rows' Hperm.
    rewrite !H1, !H2, !H3, !H4 by set_solver.
    by rewrite !(quantities_of_permutation _ rows rows' Hperm).
Qed.

End Usage.

Section Chat.

Variable ports : Routes.Ports.
Variable complete : nat -> Outcome string.
Variable heuristic : AgentType -> string -> Outcome Q.
Variable quantum : option (QuantumMetrics * string).
Variable fresh_id : AgentType -> string.

Implicit Types (st : Routes.state) (user : User) (session : SessionRow).

Lemma owned_session_ok (forbidden sid : string) user session :
  Routes.get_session ports sid = Some session →
  row_user_id session = user_id user →
  Routes.owned_session ports forbidden sid user = Routes.Ok session.
Proof.
  intros Hs Hu. unfold Routes.owned_session. rewrite Hs.
  by rewrite decide_True.
Qed.

(** What an authorized chat stores and answers, given the outcome of the
    orchestrator. *)
Lemma aura_chat_authorized (request : AuraRequest) (sid : string)
    user session st :
  Routes.clients ports = Returned () →
  sid ≠ "" →
  Routes.get_session ports sid = Some session →
  row_user_id session = user_id user →
  let before :=
    default (AuraOrchestrator.init sid fresh_id)
      (Routes.orchestrators st !! sid) in
  let processed :=
    AuraOrchestrator.process_request complete heuristic quantum request
      (Routes.world_of before st) in
  let result :=
    Routes.aura_chat ports complete heuristic quantum fresh_id request
      (Some sid) user st in
  fst result = Routes.store sid (fst processed) st ∧
  match snd result with
  | Routes.Ok response =>
      ∃ r, snd processed = Returned r ∧
           response = Routes.with_session_id sid r
  | Routes.HTTPException code _ => code = 500%Z
  | Routes.Uncaught _ => False
  end.
Proof.
  intros Hc Hne Hs Hu before processed result.
  unfold result, Routes.aura_chat. rewrite Hc.
  rewrite decide_False by done.
  rewrite (owned_session_ok "Unauthorized" sid user session Hs Hu).
  replace (match Routes.orchestrators st !! sid with
           | Some o => o
           | None => AuraOrchestrator.init sid fresh_id
           end) with before
    by (unfold before; by destruct (Routes.orchestrators st !! sid)).
  fold processed. destruct processed as [w [r|e]]; simpl; [| done].
  destruct (Routes.save_user_message ports); simpl; [| done].
  destruct (Routes.save_assistant_message ports); simpl; [| done].
  destruct (Routes.log_usage ports); simpl; [| done].
  split; [done |]. by exists r.
Qed.

Lemma chat_history (request : AuraRequest) (sid : string)
    user session st :
  Routes.clients ports = Returned () →
  sid ≠ "" →
  Routes.get_session ports sid = Some session →
  row_user_id session = user_id user →
  let before :=
    default (AuraOrchestrator.init sid fresh_id)
      (Routes.orchestrators st !! sid) in
  let result :=
    Routes.aura_chat ports complete heuristic quantum fresh_id request
      (Some sid) user st in
  ∃ after,
    Routes.orchestrators (fst result) !! sid = Some after ∧
    (∃ more,
       AuraOrchestrator.conversation_history after
       = AuraOrchestrator.conversation_history before
         ++ [user_message request] ++ more) ∧
    (∀ k, k ≠ sid →
       Routes.orchestrators (fst result) !! k
       = Routes.orchestrators st !! k) ∧
    match snd result with
    | Routes.Ok response =>
        resp_session_id response = sid ∧
        last (AuraOrchestrator.conversation_history after)
        = Some (assistant_message (final_response response))
    | Routes.HTTPException code _ => code = 500%Z
    | Routes.Uncaught _ => False
    end.
Proof.
  intros Hc Hne Hs Hu before result.
  destruct (aura_chat_authorized request sid user session st Hc Hne Hs Hu)
    as [Hst Hout].
  fold before result in Hst, Hout.
  destruct (process_request_frame complete heuristic quantum request
              (Routes.world_of before st)) as (loop & _ & Hh & _).
  set (processed :=
         AuraOrchestrator.process_request complete heuristic quantum request
           (Routes.world_of before st)) in *.
  unfold history_of in Hh. simpl in Hh.
  exists (AuraOrchestrator.orch (fst processed)).
  rewrite Hst. simpl. split_and!.
  - by rewrite lookup_insert_eq.
  - eexists. exact Hh.
  - intros k Hk. by rewrite lookup_insert_ne.
  - destruct (snd result) as [response | code detail | e]; [| done | done].
    destruct Hout as (r & Hr & ->). split; [done |].
    rewrite Hh, Hr. cbv beta iota.
    rewrite app_comm_cons, app_assoc. apply last_snoc.
Qed.

(** X29. A chat on a session of the caller works on the orchestrator that
    the registry holds for that session, creating one only when there is
    none, and stores it back: afterwards the registry holds for the
    session an orchestrator whose log begins with the previous log
    followed by the prompt, and no other session is touched. This holds
    also when the call ends in a 500, whether the orchestrator or the
    persistence failed: nothing is rolled back. The call ends in no other
    error, and a response carries the session id and the text that the
    log ends with. *)
Theorem chat_advances_the_stored_orchestrator (request : AuraRequest)
    (sid : string) user session st :
  Routes.clients ports = Returned () →
  sid ≠ "" →
  Routes.get_session ports sid = Some session →
  row_user_id session = user_id user →
  let before :=
    default (AuraOrchestrator.init sid fresh_id)
      (Routes.orchestrators st !! sid) in
  let result :=
    Routes.aura_chat ports complete heuristic quantum fresh_id request
      (Some sid) user st in
  ∃ after,
    Routes.orchestrators (fst result) !! sid = Some after ∧
    (AuraOrchestrator.conversation_history before ++ [user_message request])
      `prefix_of` AuraOrchestrator.conversation_history after ∧
    (∀ k, k ≠ sid →
       Routes.orchestrators (fst result) !! k
       = Routes.orchestrators st !! k) ∧
    match snd result with
    | Routes.Ok response =>
        resp_session_id response = sid ∧
        last (AuraOrchestrator.conversation_history after)
        = Some (assistant_message (final_response response))
    | Routes.HTTPException code _ => code = 500%Z
    | Routes.Uncaught _ => False
    end.
Proof.
  intros Hc Hne Hs Hu before result.
  destruct (chat_history request sid user session st Hc Hne Hs Hu)
    as (after & Hl & (more & Hh) & Ho & Hout).
  exists after. split_and!; [done | | done | done].
  exists more. fold before in Hh. by rewrite Hh, <- app_assoc.
Qed.

(** X30. Ending a session forgets its orchestrator and nothing else: the
    lattice route then answers 404, a [subscribe_lattice] on a websocket
    of the session that is still open sends nothing, and the other
    sessions keep their orchestrators. The chat route does not look at
    the status of the session: a chat on the ended session, whose row
    still exists, builds a new orchestrator whose log starts with the
    prompt. When the persistence service fails to end the session, the
    route answers 500 and the orchestrator stays. *)
Theorem ended_session_is_forgotten (request : AuraRequest) (sid : string)
    user session st (transport : WebSocket -> Outcome unit)
    (ws : WebSocket) (mgr : ConnectionManager.t) :
  Routes.clients ports = Returned () →
  sid ≠ "" →
  Routes.get_session ports sid = Some session →
  row_user_id session = user_id user →
  let ended := Routes.end_session ports sid user st in
  match Routes.end_session_port ports with
  | Raised e =>
      ended = (st, Routes.HTTPException 500
                     ("Failed to end session: " +:+ e))
  | Returned _ =>
      snd ended = Routes.Ok sid ∧
      (∀ k, k ≠ sid →
         Routes.orchestrators (fst ended) !! k
         = Routes.orchestrators st !! k) ∧
      Routes.get_agent_lattice ports sid user (fst ended)
      = Routes.HTTPException 404 "No active orchestrator for this session" ∧
      Endpoint.handle_message transport (Routes.orchestrators (fst ended))
        ws sid (Some "subscribe_lattice") mgr
      = Returned mgr ∧
      ∃ after more,
        Routes.orchestrators
          (fst (Routes.aura_chat ports complete heuristic quantum fresh_id
                  request (Some sid) user (fst ended))) !! sid
        = Some after ∧
        AuraOrchestrator.conversation_history after
        = user_message request :: more
  end.
Proof.
  intros Hc Hne Hs Hu ended.
  unfold ended, Routes.end_session. rewrite Hc.
  rewrite (owned_session_ok "Unauthorized" sid user session Hs Hu).
  destruct (Routes.end_session_port ports) as [[]|e]; [| done].
  simpl. split_and!.
  - done.
  - intros k Hk. by rewrite lookup_delete_ne.
  - unfold Routes.get_agent_lattice. rewrite Hc.
    rewrite (owned_session_ok "Unauthorized" sid user session Hs Hu).
    simpl. by rewrite lookup_delete_eq.
  - unfold Endpoint.handle_message. rewrite decide_False by done.
    rewrite decide_True by done. by rewrite lookup_delete_eq.
  - set (st' := {| Routes.orchestrators :=
                     delete sid (Routes.orchestrators st);
                   Routes.llm_calls := Routes.llm_calls st;
                   Routes.observed := Routes.observed st |}).
    destruct (chat_history request sid user session st' Hc Hne Hs Hu)
      as (after & Hl & (more & Hh) & _).
    exists after, more. split; [exact Hl |].
    rewrite Hh. unfold st'. simpl. by rewrite lookup_delete_eq.
Qed.

End Chat.

(** Ports of a persistence service that knows the session ["s"] of user
    ["u"] and never fails. *)
Lemma chat_advances_the_stored_orchestrator_witness :
  let ports :=
    {| Routes.clients := Returned ();
       Routes.get_session := fun sid =>
         if decide (sid = "s") then Some (mkSessionRow "s" "u" "ended")
         else None;
       Routes.create_session := Returned None;
       Routes.end_session_port := Returned ();
       Routes.save_user_message := Returned ();
       Routes.save_assistant_message := Raised "insert failed";
       Routes.log_usage := Returned () |} in
  let st :=
    {| Routes.orchestrators := ∅; Routes.llm_calls := 0;
       Routes.observed := [] |} in
  Routes.clients ports = Returned () ∧
  "s" ≠ "" ∧
  Routes.get_session ports "s" = Some (mkSessionRow "s" "u" "ended") ∧
  row_user_id (mkSessionRow "s" "u" "ended") = user_id (mkUser "u") ∧
  ∃ after,
    Routes.orchestrators
      (fst (Routes.aura_chat ports service_up confident None AgentType_value
              example_request (Some "s") (mkUser "u") st)) !! "s"
    = Some after ∧
    (AuraOrchestrator.conversation_history
       (default (AuraOrchestrator.init "s" AgentType_value)
          (Routes.orchestrators st !! "s"))
     ++ [user_message example_request])
      `prefix_of` AuraOrchestrator.conversation_history after ∧
    (∀ k, k ≠ "s" →
       Routes.orchestrators
         (fst (Routes.aura_chat ports service_up confident None
                 AgentType_value example_request (Some "s") (mkUser "u") st))
         !! k
       = Routes.orchestrators st !! k) ∧
    match snd (Routes.aura_chat ports service_up confident None
                 AgentType_value example_request (Some "s") (mkUser "u") st)
    with
    | Routes.Ok response =>
        resp_session_id response = "s" ∧
        last (AuraOrchestrator.conversation_history after)
        = Some (assistant_message (final_response response))
    | Routes.HTTPException code _ => code = 500%Z
    | Routes.Uncaught _ => False
    end.
Proof.
  intros ports st.
  assert (H1 : Routes.clients ports = Returned ()) by reflexivity.
  assert (H2 : "s" ≠ "") by discriminate.
  assert (H3 : Routes.get_session ports "s"
               = Some (mkSessionRow "s" "u" "ended")) by reflexivity.
  assert (H4 : row_user_id (mkSessionRow "s" "u" "ended")
               = user_id (mkUser "u")) by reflexivity.
  split; [exact H1 | split; [exact H2 | split; [exact H3 |
    split; [exact H4 |]]]].
  exact (chat_advances_the_stored_orchestrator ports service_up confident
           None AgentType_value example_request "s" (mkUser "u")
           (mkSessionRow "s" "u" "ended") st H1 H2 H3 H4).
Defined.

Lemma ended_session_is_forgotten_witness :
  let ports :=
    {| Routes.clients := Returned ();
       Routes.get_session := fun sid =>
         if decide (sid = "s") then Some (mkSessionRow "s" "u" "active")
         else None;
       Routes.create_session := Returned None;
       Routes.end_session_port := Returned ();
       Routes.save_user_message := Returned ();
       Routes.save_assistant_message := Returned ();
       Routes.log_usage := Returned () |} in
  let st :=
    {| Routes.orchestrators := {["s" := with_scores example_scores]};
       Routes.llm_calls := 0; Routes.observed := [] |} in
  Routes.clients ports = Returned () ∧
  "s" ≠ "" ∧
  Routes.get_session ports "s" = Some (mkSessionRow "s" "u" "active") ∧
  row_user_id (mkSessionRow "s" "u" "active") = user_id (mkUser "u") ∧
  match Routes.end_session_port ports with
  | Raised e =>
      Routes.end_session ports "s" (mkUser "u") st
      = (st, Routes.HTTPException 500 ("Failed to end session: " +:+ e))
  | Returned _ =>
      snd (Routes.end_session ports "s" (mkUser "u") st) = Routes.Ok "s" ∧
      (∀ k, k ≠ "s" →
         Routes.orchestrators
           (fst (Routes.end_session ports "s" (mkUser "u") st)) !! k
         = Routes.orchestrators st !! k) ∧
      Routes.get_agent_lattice ports "s" (mkUser "u")
        (fst (Routes.end_session ports "s" (mkUser "u") st))
      = Routes.HTTPException 404 "No active orchestrator for this session" ∧
      Endpoint.handle_message reliable
        (Routes.orchestrators
           (fst (Routes.end_session ports "s" (mkUser "u") st)))
        1 "s" (Some "subscribe_lattice") (manager_with "s" [1])
      = Returned (manager_with "s" [1]) ∧
      ∃ after more,
        Routes.orchestrators
          (fst (Routes.aura_chat ports service_up confident None
                  AgentType_value example_request (Some "s") (mkUser "u")
                  (fst (Routes.end_session ports "s" (mkUser "u") st))))
          !! "s"
        = Some after ∧
        AuraOrchestrator.conversation_history after
        = user_message example_request :: more
  end.
Proof.
  intros ports st.
  assert (H1 : Routes.clients ports = Returned ()) by reflexivity.
  assert (H2 : "s" ≠ "") by discriminate.
  assert (H3 : Routes.get_session ports "s"
               = Some (mkSessionRow "s" "u" "active")) by reflexivity.
  assert (H4 : row_user_id (mkSessionRow "s" "u" "active")
               = user_id (mkUser "u")) by reflexivity.
  split; [exact H1 | split; [exact H2 | split; [exact H3 |
    split; [exact H4 |]]]].
  exact (ended_session_is_forgotten ports service_up confident None
           AgentType_value example_request "s" (mkUser "u")
           (mkSessionRow "s" "u" "active") st reliable 1
           (manager_with "s" [1]) H1 H2 H3 H4).
Defined.
